(** * The PTP clock controller (clock.c): a shallow embedding

    The controller of [clock.c] is embedded as a state-passing program over
    the controller record [clock] and an opaque [world] that stands for its
    collaborators (ports, servo, clock device, poll).  Every call that
    leaves the controller is recorded in a trace, so that statements such as
    "the servo is not sampled" or "one dispatch per ready slot" are
    statements about that trace. *)

From Stdlib Require Import ZArith Lia String.
From Stdlib Require Import Floats.PrimFloat Floats.FloatOps Floats.SpecFloat.
From stdpp Require Import base list.

Local Open Scope Z_scope.
Set Warnings "-inexact-float".


(** ** Machine integers *)

(** [int64_t] values are integers in [-2^63, 2^63); arithmetic on them is
    taken modulo 2^64 (two's complement). *)
Definition INT64_MIN : Z := - 2 ^ 63.
Definition INT64_MAX : Z := 2 ^ 63 - 1.

Definition wrap64 (z : Z) : Z := (z + 2 ^ 63) mod 2 ^ 64 - 2 ^ 63.

Definition is_int64 (z : Z) : Prop := INT64_MIN <= z <= INT64_MAX.

(** [(long) x] for a [double] x: truncation toward zero.  What does not
    fit a [long] (a finite value outside [-2^63, 2^63), an infinity, not a
    number) is left undefined by C; it converts to the "integer indefinite"
    value of the hardware conversion, which is [INT64_MIN]. *)
Definition double_to_long (x : float) : Z :=
  match Prim2SF x with
  | S754_zero _ => 0
  | S754_finite s m e =>
      let mag := if 0 <=? e then Z.shiftl (Z.pos m) e
                 else Z.shiftr (Z.pos m) (- e) in
      let v := if s then - mag else mag in
      if (INT64_MIN <=? v) && (v <=? INT64_MAX) then v else INT64_MIN
  | _ => INT64_MIN
  end.

(** Pointers are addresses; [NULL] is 0. *)
Abbreviation ptr := Z (only parsing).
Definition NULL : ptr := 0.

(** ** Constants of the system headers *)

Definition CLOCK_REALTIME : Z := 0.
Definition EINTR : Z := 4.
Definition POLLIN : Z := 1.
Definition POLLPRI : Z := 2.
Definition ADJ_FREQUENCY : Z := 2.
Definition ADJ_SETOFFSET : Z := 256.
Definition ADJ_NANO : Z := 8192.
Definition TRUE : Z := 1.
Definition FALSE : Z := 0.

Definition MAVE_LENGTH : Z := 10.

(** Modelled from the spec: [NS_PER_SEC] is declared in a header that is not
    part of the sources; it is the number of nanoseconds in one second. *)
Definition NS_PER_SEC : Z := 1000000000.

(** ** Time values *)

(** Modelled from the spec: [tmv.h] is not part of the sources.  A time
    value is a signed count of nanoseconds; addition and subtraction are
    exact and the division truncates. *)
Definition tmv_t := Z.
Definition tmv_add (a b : tmv_t) : tmv_t := a + b.
Definition tmv_sub (a b : tmv_t) : tmv_t := a - b.
Definition tmv_div (a : tmv_t) (divisor : Z) : tmv_t := Z.quot a divisor.

Record timespec := { tv_sec : Z; tv_nsec : Z }.
Record timestamp := { sec : Z; nsec : Z }.

(** ** Data sets *)

Definition ClockIdentity := Z.

Record PortIdentity := {
  clockIdentity : ClockIdentity;
  portNumber : Z
}.

Record ClockQuality := {
  clockClass : Z;
  clockAccuracy : Z;
  offsetScaledLogVariance : Z
}.

Record defaultDS := {
  dds_slaveOnly : Z;
  dds_numberPorts : Z;
  dds_priority1 : Z;
  dds_clockQuality : ClockQuality;
  dds_priority2 : Z;
  dds_clockIdentity : ClockIdentity;
  dds_domainNumber : Z
}.

Record dataset := {
  ds_priority1 : Z;
  ds_identity : ClockIdentity;
  ds_quality : ClockQuality;
  ds_priority2 : Z;
  ds_stepsRemoved : Z;
  ds_sender : PortIdentity;
  ds_receiver : PortIdentity
}.

Record currentDS := {
  stepsRemoved : Z;
  offsetFromMaster : Z;
  meanPathDelay : Z
}.

Record parentDS := {
  parentPortIdentity : PortIdentity;
  parentStats : Z;
  observedParentOffsetScaledLogVariance : Z;
  observedParentClockPhaseChangeRate : Z;
  grandmasterIdentity : ClockIdentity;
  grandmasterClockQuality : ClockQuality;
  grandmasterPriority1 : Z;
  grandmasterPriority2 : Z
}.

Record timePropertiesDS := {
  currentUtcOffset : Z;
  currentUtcOffsetValid : Z;
  leap61 : Z;
  leap59 : Z;
  timeTraceable : Z;
  frequencyTraceable : Z;
  ptpTimescale : Z;
  timeSource : Z
}.

(** The fields of an announce message that the controller reads. *)
Record announce_msg := {
  an_currentUtcOffset : Z;
  an_grandmasterPriority1 : Z;
  an_grandmasterClockQuality : ClockQuality;
  an_grandmasterPriority2 : Z;
  an_grandmasterIdentity : ClockIdentity;
  an_timeSource : Z
}.

Record ptp_message := {
  flagField : list Z;
  announce : announce_msg
}.

Inductive msg_flag :=
  UTC_OFF_VALID | LEAP_61 | LEAP_59 | TIME_TRACEABLE | FREQ_TRACEABLE
| PTP_TIMESCALE.

(** ** Enumerations *)

Inductive servo_state := SERVO_UNLOCKED | SERVO_JUMP | SERVO_LOCKED.

(** The port states and events that [clock.c] names; any other value of the
    enumeration is kept with its number. *)
Inductive port_state :=
  PS_LISTENING | PS_GRAND_MASTER | PS_MASTER | PS_PASSIVE | PS_SLAVE
| PS_OTHER (n : Z).

Inductive fsm_event :=
  EV_NONE | EV_INITIALIZE | EV_STATE_DECISION_EVENT | EV_RS_MASTER
| EV_RS_SLAVE | EV_RS_PASSIVE | EV_OTHER (n : Z).

Definition is_state_decision (ev : fsm_event) : bool :=
  match ev with EV_STATE_DECISION_EVENT => true | _ => false end.

(** ** Operating system records *)

Record pollfd := { fd : Z; events : Z; revents : Z }.

(** The fields of [struct timex] that the controller sets; the rest is
    cleared by [memset] and stays zero. *)
Record timex := {
  modes : Z;
  freq : Z;
  time_tv_sec : Z;
  time_tv_usec : Z
}.

Record interface := {
  name : string;
  transport : Z;
  timestamping : Z
}.

Record fdarray := { cnt : nat; fda_fd : list Z }.

(** ** The controller record *)

(** [struct clock].  The moving average is an object that the controller
    owns through [avg_delay]; it is kept by value, [None] being the null
    pointer.  The servo, the ports and the foreign clocks live in the
    world and are held by address. *)
Record clock {mave : Type} := {
  clkid : Z;
  servo : ptr;
  dds : defaultDS;
  default_dataset : dataset;
  cur : currentDS;
  dad : parentDS;
  tds : timePropertiesDS;
  best : ptr;
  port : list ptr;
  pollfds : list pollfd;
  nports : nat;
  master_offset : tmv_t;
  path_delay : tmv_t;
  avg_delay : option mave;
  c1 : tmv_t;
  c2 : tmv_t;
  t1 : tmv_t;
  t2 : tmv_t
}.
Arguments clock : clear implicits.

(** What [poll] reports: its return value, [errno], and the [revents] it
    stored for each entry of the table. *)
Record poll_result := {
  poll_cnt : Z;
  poll_errno : Z;
  poll_revents : nat -> Z
}.

(** ** The collaborators

    Everything [clock.c] calls but does not define.  A collaborator that
    keeps state threads the [world]; constants and pure helpers whose
    headers are not part of the sources are parameters as well.

    A collaborator answers from the [world] alone: a port that is opened,
    dispatched an event or asked for one does not call back into the
    controller from within that call, although [clock_create] hands it the
    controller.  The traces are therefore those of the calls that
    [clock.c] makes itself, and a statement about the controller after a
    call of a port holds for ports that leave the controller alone during
    that call. *)
Class Env := {
  world : Type;
  mave : Type;
  (* constants *)
  MAX_PORTS : nat;
  N_POLLFD : nat;
  CLOCK_INVALID : Z;
  CURRENT_UTC_OFFSET : Z;
  INTERNAL_OSCILLATOR : Z;
  TS_SOFTWARE : Z;
  DM_E2E : Z;
  (* tmv.h conversions, msg.h *)
  timespec_to_tmv : timespec -> tmv_t;
  timestamp_to_tmv : timestamp -> tmv_t;
  correction_to_tmv : Z -> tmv_t;
  field_is_set : ptp_message -> Z -> msg_flag -> Z;
  (* libc *)
  srandom_time : world -> world;
  sys_poll : list pollfd -> world -> poll_result * world;
  clock_adjtime : Z -> timex -> world -> Z * world;
  (* phc.h *)
  phc_open : string -> world -> Z * world;
  phc_max_adj : Z -> world -> Z * world;
  phc_close : Z -> world -> world;
  (* servo.h *)
  servo_create : string -> Z -> Z -> world -> ptr * world;
  servo_sample : ptr -> tmv_t -> tmv_t -> world -> (float * servo_state) * world;
  (* mave.h *)
  mave_create : Z -> world -> option mave * world;
  mave_accumulate : mave -> tmv_t -> mave * tmv_t;
  mave_reset : mave -> mave;
  (* port.h *)
  port_open : interface -> Z -> Z -> world -> ptr * world;
  port_close : ptr -> world -> world;
  port_dispatch : ptr -> fsm_event -> world -> world;
  port_event : ptr -> nat -> world -> fsm_event * world;
  port_compute_best : ptr -> world -> ptr * world;
  (* foreign.h: what is read through a foreign clock's address *)
  fc_dataset : ptr -> world -> dataset;
  fc_first_message : ptr -> world -> ptp_message;
  (* bmc.h *)
  dscmp : dataset -> dataset -> Z;
  bmc_state_decision : clock mave -> ptr -> world -> port_state
}.

(** ** Calls that leave the controller

    One entry per call of a collaborator, with its arguments and its
    answer, in the order of the calls. *)
Inductive call :=
| CSrandom
| CPoll (r_cnt r_errno : Z)
| CClockAdjtime (id : Z) (tx : timex) (r : Z)
| CPhcOpen (path : string) (r : Z)
| CPhcMaxAdj (id r : Z)
| CPhcClose (id : Z)
| CServoCreate (max_adj sw_ts : Z) (r : ptr)
| CServoSample (sv : ptr) (offset ts : tmv_t) (adj : float) (st : servo_state)
| CMaveCreate (len : Z) (ok : bool)
| CMaveAccumulate (v r : tmv_t)
| CMaveReset
| CPortOpen (ifc : interface) (number : Z) (r : ptr)
| CPortClose (p : ptr)
| CPortDispatch (p : ptr) (ev : fsm_event)
| CPortEvent (p : ptr) (slot : nat) (ev : fsm_event)
| CPortComputeBest (p : ptr) (r : ptr)
| CBmcStateDecision (p : ptr) (r : port_state).

Definition trace := list call.

Section Controller.
Context `{E : Env}.

(** *** Field updates of the controller record *)

Definition set_clkid (v : Z) (c : clock mave) : clock mave :=
  {| clkid := v; servo := servo c; dds := dds c;
     default_dataset := default_dataset c; cur := cur c; dad := dad c;
     tds := tds c; best := best c; port := port c; pollfds := pollfds c;
     nports := nports c; master_offset := master_offset c;
     path_delay := path_delay c; avg_delay := avg_delay c; c1 := c1 c;
     c2 := c2 c; t1 := t1 c; t2 := t2 c |}.

Definition set_servo (v : ptr) (c : clock mave) : clock mave :=
  {| clkid := clkid c; servo := v; dds := dds c;
     default_dataset := default_dataset c; cur := cur c; dad := dad c;
     tds := tds c; best := best c; port := port c; pollfds := pollfds c;
     nports := nports c; master_offset := master_offset c;
     path_delay := path_delay c; avg_delay := avg_delay c; c1 := c1 c;
     c2 := c2 c; t1 := t1 c; t2 := t2 c |}.

Definition set_dds (v : defaultDS) (c : clock mave) : clock mave :=
  {| clkid := clkid c; servo := servo c; dds := v;
     default_dataset := default_dataset c; cur := cur c; dad := dad c;
     tds := tds c; best := best c; port := port c; pollfds := pollfds c;
     nports := nports c; master_offset := master_offset c;
     path_delay := path_delay c; avg_delay := avg_delay c; c1 := c1 c;
     c2 := c2 c; t1 := t1 c; t2 := t2 c |}.

Definition set_default_dataset (v : dataset) (c : clock mave) : clock mave :=
  {| clkid := clkid c; servo := servo c; dds := dds c;
     default_dataset := v; cur := cur c; dad := dad c; tds := tds c;
     best := best c; port := port c; pollfds := pollfds c;
     nports := nports c; master_offset := master_offset c;
     path_delay := path_delay c; avg_delay := avg_delay c; c1 := c1 c;
     c2 := c2 c; t1 := t1 c; t2 := t2 c |}.

Definition set_cur (v : currentDS) (c : clock mave) : clock mave :=
  {| clkid := clkid c; servo := servo c; dds := dds c;
     default_dataset := default_dataset c; cur := v; dad := dad c;
     tds := tds c; best := best c; port := port c; pollfds := pollfds c;
     nports := nports c; master_offset := master_offset c;
     path_delay := path_delay c; avg_delay := avg_delay c; c1 := c1 c;
     c2 := c2 c; t1 := t1 c; t2 := t2 c |}.

Definition set_dad (v : parentDS) (c : clock mave) : clock mave :=
  {| clkid := clkid c; servo := servo c; dds := dds c;
     default_dataset := default_dataset c; cur := cur c; dad := v;
     tds := tds c; best := best c; port := port c; pollfds := pollfds c;
     nports := nports c; master_offset := master_offset c;
     path_delay := path_delay c; avg_delay := avg_delay c; c1 := c1 c;
     c2 := c2 c; t1 := t1 c; t2 := t2 c |}.

Definition set_tds (v : timePropertiesDS) (c : clock mave) : clock mave :=
  {| clkid := clkid c; servo := servo c; dds := dds c;
     default_dataset := default_dataset c; cur := cur c; dad := dad c;
     tds := v; best := best c; port := port c; pollfds := pollfds c;
     nports := nports c; master_offset := master_offset c;
     path_delay := path_delay c; avg_delay := avg_delay c; c1 := c1 c;
     c2 := c2 c; t1 := t1 c; t2 := t2 c |}.

Definition set_best (v : ptr) (c : clock mave) : clock mave :=
  {| clkid := clkid c; servo := servo c; dds := dds c;
     default_dataset := default_dataset c; cur := cur c; dad := dad c;
     tds := tds c; best := v; port := port c; pollfds := pollfds c;
     nports := nports c; master_offset := master_offset c;
     path_delay := path_delay c; avg_delay := avg_delay c; c1 := c1 c;
     c2 := c2 c; t1 := t1 c; t2 := t2 c |}.

Definition set_port (v : list ptr) (c : clock mave) : clock mave :=
  {| clkid := clkid c; servo := servo c; dds := dds c;
     default_dataset := default_dataset c; cur := cur c; dad := dad c;
     tds := tds c; best := best c; port := v; pollfds := pollfds c;
     nports := nports c; master_offset := master_offset c;
     path_delay := path_delay c; avg_delay := avg_delay c; c1 := c1 c;
     c2 := c2 c; t1 := t1 c; t2 := t2 c |}.

Definition set_pollfds (v : list pollfd) (c : clock mave) : clock mave :=
  {| clkid := clkid c; servo := servo c; dds := dds c;
     default_dataset := default_dataset c; cur := cur c; dad := dad c;
     tds := tds c; best := best c; port := port c; pollfds := v;
     nports := nports c; master_offset := master_offset c;
     path_delay := path_delay c; avg_delay := avg_delay c; c1 := c1 c;
     c2 := c2 c; t1 := t1 c; t2 := t2 c |}.

Definition set_nports (v : nat) (c : clock mave) : clock mave :=
  {| clkid := clkid c; servo := servo c; dds := dds c;
     default_dataset := default_dataset c; cur := cur c; dad := dad c;
     tds := tds c; best := best c; port := port c; pollfds := pollfds c;
     nports := v; master_offset := master_offset c;
     path_delay := path_delay c; avg_delay := avg_delay c; c1 := c1 c;
     c2 := c2 c; t1 := t1 c; t2 := t2 c |}.

Definition set_master_offset (v : tmv_t) (c : clock mave) : clock mave :=
  {| clkid := clkid c; servo := servo c; dds := dds c;
     default_dataset := default_dataset c; cur := cur c; dad := dad c;
     tds := tds c; best := best c; port := port c; pollfds := pollfds c;
     nports := nports c; master_offset := v; path_delay := path_delay c;
     avg_delay := avg_delay c; c1 := c1 c; c2 := c2 c; t1 := t1 c;
     t2 := t2 c |}.

Definition set_path_delay (v : tmv_t) (c : clock mave) : clock mave :=
  {| clkid := clkid c; servo := servo c; dds := dds c;
     default_dataset := default_dataset c; cur := cur c; dad := dad c;
     tds := tds c; best := best c; port := port c; pollfds := pollfds c;
     nports := nports c; master_offset := master_offset c; path_delay := v;
     avg_delay := avg_delay c; c1 := c1 c; c2 := c2 c; t1 := t1 c;
     t2 := t2 c |}.

Definition set_avg_delay (v : option mave) (c : clock mave) : clock mave :=
  {| clkid := clkid c; servo := servo c; dds := dds c;
     default_dataset := default_dataset c; cur := cur c; dad := dad c;
     tds := tds c; best := best c; port := port c; pollfds := pollfds c;
     nports := nports c; master_offset := master_offset c;
     path_delay := path_delay c; avg_delay := v; c1 := c1 c; c2 := c2 c;
     t1 := t1 c; t2 := t2 c |}.

Definition set_c1 (v : tmv_t) (c : clock mave) : clock mave :=
  {| clkid := clkid c; servo := servo c; dds := dds c;
     default_dataset := default_dataset c; cur := cur c; dad := dad c;
     tds := tds c; best := best c; port := port c; pollfds := pollfds c;
     nports := nports c; master_offset := master_offset c;
     path_delay := path_delay c; avg_delay := avg_delay c; c1 := v;
     c2 := c2 c; t1 := t1 c; t2 := t2 c |}.

Definition set_c2 (v : tmv_t) (c : clock mave) : clock mave :=
  {| clkid := clkid c; servo := servo c; dds := dds c;
     default_dataset := default_dataset c; cur := cur c; dad := dad c;
     tds := tds c; best := best c; port := port c; pollfds := pollfds c;
     nports := nports c; master_offset := master_offset c;
     path_delay := path_delay c; avg_delay := avg_delay c; c1 := c1 c;
     c2 := v; t1 := t1 c; t2 := t2 c |}.

Definition set_t1 (v : tmv_t) (c : clock mave) : clock mave :=
  {| clkid := clkid c; servo := servo c; dds := dds c;
     default_dataset := default_dataset c; cur := cur c; dad := dad c;
     tds := tds c; best := best c; port := port c; pollfds := pollfds c;
     nports := nports c; master_offset := master_offset c;
     path_delay := path_delay c; avg_delay := avg_delay c; c1 := c1 c;
     c2 := c2 c; t1 := v; t2 := t2 c |}.

Definition set_t2 (v : tmv_t) (c : clock mave) : clock mave :=
  {| clkid := clkid c; servo := servo c; dds := dds c;
     default_dataset := default_dataset c; cur := cur c; dad := dad c;
     tds := tds c; best := best c; port := port c; pollfds := pollfds c;
     nports := nports c; master_offset := master_offset c;
     path_delay := path_delay c; avg_delay := avg_delay c; c1 := c1 c;
     c2 := c2 c; t1 := t1 c; t2 := v |}.

Definition zero_pollfd : pollfd := {| fd := 0; events := 0; revents := 0 |}.
Definition zero_quality : ClockQuality :=
  {| clockClass := 0; clockAccuracy := 0; offsetScaledLogVariance := 0 |}.
Definition zero_portid : PortIdentity :=
  {| clockIdentity := 0; portNumber := 0 |}.

(** [the_clock] before anything ran, and after [clock_destroy] cleared it
    with [memset]. *)
Definition clock_zero : clock mave :=
  {| clkid := 0; servo := NULL;
     dds := {| dds_slaveOnly := 0; dds_numberPorts := 0; dds_priority1 := 0;
               dds_clockQuality := zero_quality; dds_priority2 := 0;
               dds_clockIdentity := 0; dds_domainNumber := 0 |};
     default_dataset :=
       {| ds_priority1 := 0; ds_identity := 0; ds_quality := zero_quality;
          ds_priority2 := 0; ds_stepsRemoved := 0; ds_sender := zero_portid;
          ds_receiver := zero_portid |};
     cur := {| stepsRemoved := 0; offsetFromMaster := 0; meanPathDelay := 0 |};
     dad := {| parentPortIdentity := zero_portid; parentStats := 0;
               observedParentOffsetScaledLogVariance := 0;
               observedParentClockPhaseChangeRate := 0;
               grandmasterIdentity := 0;
               grandmasterClockQuality := zero_quality;
               grandmasterPriority1 := 0; grandmasterPriority2 := 0 |};
     tds := {| currentUtcOffset := 0; currentUtcOffsetValid := 0; leap61 := 0;
               leap59 := 0; timeTraceable := 0; frequencyTraceable := 0;
               ptpTimescale := 0; timeSource := 0 |};
     best := NULL;
     port := replicate MAX_PORTS NULL;
     pollfds := replicate (MAX_PORTS * N_POLLFD)%nat zero_pollfd;
     nports := 0%nat; master_offset := 0; path_delay := 0; avg_delay := None;
     c1 := 0; c2 := 0; t1 := 0; t2 := 0 |}.

(** *** The monad: controller and world, faults, and the trace

    [None] is a fault: an access outside an array of the controller, or a
    call through a null [avg_delay]. *)
Record state := { clk : clock mave; ext : world }.

Definition M (A : Type) : Type := state -> option (A * state * trace).

Definition ret {A} (a : A) : M A := fun s => Some (a, s, []).

Definition bind {A B} (m : M A) (f : A -> M B) : M B :=
  fun s =>
    match m s with
    | None => None
    | Some (a, s1, tr1) =>
        match f a s1 with
        | None => None
        | Some (b, s2, tr2) => Some (b, s2, tr1 ++ tr2)
        end
    end.

Definition fault {A} : M A := fun _ => None.

Definition get_clock : M (clock mave) := fun s => Some (clk s, s, []).

Definition modify (f : clock mave -> clock mave) : M unit :=
  fun s => Some (tt, {| clk := f (clk s); ext := ext s |}, []).

(** A call of a collaborator that answers [A]. *)
Definition ext_ask {A} (f : world -> A * world) (c : A -> call) : M A :=
  fun s => let '(a, w) := f (ext s) in
           Some (a, {| clk := clk s; ext := w |}, [c a]).

Definition ext_do (f : world -> world) (c : call) : M unit :=
  fun s => Some (tt, {| clk := clk s; ext := f (ext s) |}, [c]).

(** A read through a pointer into memory owned by a collaborator. *)
Definition ext_read {A} (f : world -> A) : M A :=
  fun s => Some (f (ext s), s, []).

Definition of_option {A} (o : option A) : M A :=
  match o with Some a => ret a | None => fault end.

Notation "'let*' x := m 'in' k" := (bind m (fun x => k))
  (at level 10, x name, m at level 100, k at level 200).

(** [for (i = ...; ...; i++) body], over the values [i] takes. *)
Fixpoint for_each {A} (l : list A) (body : A -> M unit) : M unit :=
  match l with
  | [] => ret tt
  | x :: l' => let* _ := body x in for_each l' body
  end.

(** The same with a local variable carried through the iterations. *)
Fixpoint for_fold {A B} (l : list A) (body : A -> B -> M B) (acc : B) : M B :=
  match l with
  | [] => ret acc
  | x :: l' => let* acc' := body x acc in for_fold l' body acc'
  end.

(** [c->port[i]] and [c->pollfd[k]]. *)
Definition port_at (i : nat) : M ptr :=
  let* c := get_clock in of_option (port c !! i).

Definition pollfd_at (k : nat) : M pollfd :=
  let* c := get_clock in of_option (pollfds c !! k).

Definition store_port (i : nat) (p : ptr) : M unit :=
  let* c := get_clock in
  if decide (i < length (port c))%nat
  then modify (set_port (<[i := p]> (port c)))
  else fault.

Definition store_pollfd (k : nat) (f : pollfd -> pollfd) : M unit :=
  let* e := pollfd_at k in
  modify (fun c => set_pollfds (<[k := f e]> (pollfds c)) c).

(** *** Clock actuation *)

Definition clock_ppb_timex (ppb : float) : timex :=
  {| modes := ADJ_FREQUENCY;
     freq := double_to_long (PrimFloat.mul ppb 65.536%float);
     time_tv_sec := 0; time_tv_usec := 0 |}.

(** [clock_ppb]: a failure of [clock_adjtime] is logged and otherwise
    ignored. *)
Definition clock_ppb (id : Z) (ppb : float) : M unit :=
  let tx := clock_ppb_timex ppb in
  let* _ := ext_ask (clock_adjtime id tx) (CClockAdjtime id tx) in
  ret tt.

(** The request [clock_step] builds from its [int64_t] argument. *)
Definition clock_step_timex (ns : Z) : timex :=
  let sign := if ns <? 0 then -1 else 1 in
  let ns := if ns <? 0 then wrap64 (ns * -1) else ns in
  let tv_s := wrap64 (sign * Z.quot ns NS_PER_SEC) in
  let tv_us := wrap64 (sign * Z.rem ns NS_PER_SEC) in
  if tv_us <? 0
  then {| modes := Z.lor ADJ_SETOFFSET ADJ_NANO; freq := 0;
          time_tv_sec := wrap64 (tv_s - 1);
          time_tv_usec := wrap64 (tv_us + 1000000000) |}
  else {| modes := Z.lor ADJ_SETOFFSET ADJ_NANO; freq := 0;
          time_tv_sec := tv_s; time_tv_usec := tv_us |}.

Definition clock_step (id : Z) (ns : Z) : M unit :=
  let tx := clock_step_timex ns in
  let* _ := ext_ask (clock_adjtime id tx) (CClockAdjtime id tx) in
  ret tt.

(** *** Data set updates *)

Definition clock_update_grandmaster : M unit :=
  modify (fun c =>
    let d := dds c in
    set_tds {| currentUtcOffset := CURRENT_UTC_OFFSET;
               currentUtcOffsetValid := FALSE; leap61 := FALSE;
               leap59 := FALSE; timeTraceable := FALSE;
               frequencyTraceable := FALSE; ptpTimescale := TRUE;
               timeSource := INTERNAL_OSCILLATOR |}
    (set_dad {| parentPortIdentity :=
                  {| clockIdentity := dds_clockIdentity d; portNumber := 0 |};
                parentStats := parentStats (dad c);
                observedParentOffsetScaledLogVariance :=
                  observedParentOffsetScaledLogVariance (dad c);
                observedParentClockPhaseChangeRate :=
                  observedParentClockPhaseChangeRate (dad c);
                grandmasterIdentity := dds_clockIdentity d;
                grandmasterClockQuality := dds_clockQuality d;
                grandmasterPriority1 := dds_priority1 d;
                grandmasterPriority2 := dds_priority2 d |}
    (set_cur {| stepsRemoved := 0; offsetFromMaster := 0;
                meanPathDelay := 0 |} c))).

(** [stepsRemoved] is a 16-bit unsigned field. *)
Definition clock_update_slave : M unit :=
  let* c := get_clock in
  let* msg := ext_read (fc_first_message (best c)) in
  let* bds := ext_read (fc_dataset (best c)) in
  let a := announce msg in
  modify (fun c =>
    set_tds {| currentUtcOffset := an_currentUtcOffset a;
               currentUtcOffsetValid := field_is_set msg 1 UTC_OFF_VALID;
               leap61 := field_is_set msg 1 LEAP_61;
               leap59 := field_is_set msg 1 LEAP_59;
               timeTraceable := field_is_set msg 1 TIME_TRACEABLE;
               frequencyTraceable := field_is_set msg 1 FREQ_TRACEABLE;
               ptpTimescale := field_is_set msg 1 PTP_TIMESCALE;
               timeSource := an_timeSource a |}
    (set_dad {| parentPortIdentity := ds_sender bds;
                parentStats := parentStats (dad c);
                observedParentOffsetScaledLogVariance :=
                  observedParentOffsetScaledLogVariance (dad c);
                observedParentClockPhaseChangeRate :=
                  observedParentClockPhaseChangeRate (dad c);
                grandmasterIdentity := an_grandmasterIdentity a;
                grandmasterClockQuality := an_grandmasterClockQuality a;
                grandmasterPriority1 := an_grandmasterPriority1 a;
                grandmasterPriority2 := an_grandmasterPriority2 a |}
    (set_cur {| stepsRemoved := (1 + ds_stepsRemoved bds) mod 2 ^ 16;
                offsetFromMaster := offsetFromMaster (cur c);
                meanPathDelay := meanPathDelay (cur c) |} c))).

(** *** Life cycle *)

Definition clock_destroy : M unit :=
  let* c := get_clock in
  let* _ := for_each (seq 0 (nports c)) (fun i =>
              let* p := port_at i in ext_do (port_close p) (CPortClose p)) in
  let* _ := (if clkid c =? CLOCK_REALTIME then ret tt
             else ext_do (phc_close (clkid c)) (CPhcClose (clkid c))) in
  modify (fun _ => clock_zero).

(** The first loop of [clock_create]: is some interface configured for
    software time stamping?  [i] is the loop index, [n] the iterations
    left. *)
Fixpoint sw_ts_scan (iface : list interface) (i n : nat) : M Z :=
  match n with
  | O => ret 0
  | S n' =>
      let* f := of_option (iface !! i) in
      if timestamping f =? TS_SOFTWARE then ret 1
      else sw_ts_scan iface (S i) n'
  end.

(** The loop that opens the ports; [false] is the early [return NULL]. *)
Fixpoint open_ports (iface : list interface) (i n : nat) : M bool :=
  match n with
  | O => ret true
  | S n' =>
      let* f := of_option (iface !! i) in
      let number := 1 + Z.of_nat i in
      let* p := ext_ask (port_open f number DM_E2E) (CPortOpen f number) in
      let* _ := store_port i p in
      if p =? NULL then ret false else open_ports iface (S i) n'
  end.

(** The parent data set as [clock_create] fills it. *)
Definition init_parentDS (c : clock mave) : clock mave :=
  let d := dds c in
  set_dad {| parentPortIdentity :=
               {| clockIdentity := dds_clockIdentity d; portNumber := 0 |};
             parentStats := 0;
             observedParentOffsetScaledLogVariance := 65535;
             observedParentClockPhaseChangeRate := 2147483647;
             grandmasterIdentity := dds_clockIdentity d;
             grandmasterClockQuality := dds_clockQuality d;
             grandmasterPriority1 := dds_priority1 d;
             grandmasterPriority2 := dds_priority1 d |} c.

Definition unused_pollfd (e : pollfd) : pollfd :=
  {| fd := -1; events := 0; revents := revents e |}.

Definition set_numberPorts (n : Z) (d : defaultDS) : defaultDS :=
  {| dds_slaveOnly := dds_slaveOnly d; dds_numberPorts := n;
     dds_priority1 := dds_priority1 d; dds_clockQuality := dds_clockQuality d;
     dds_priority2 := dds_priority2 d;
     dds_clockIdentity := dds_clockIdentity d;
     dds_domainNumber := dds_domainNumber d |}.

(** The clock device and its largest adjustment; [None] is the early
    [return NULL]. *)
Definition open_device (phc : option string) : M (option Z) :=
  match phc with
  | Some path =>
      let* id := ext_ask (phc_open path) (CPhcOpen path) in
      let* _ := modify (set_clkid id) in
      if id =? CLOCK_INVALID then ret None
      else
        let* max_adj := ext_ask (phc_max_adj id) (CPhcMaxAdj id) in
        if max_adj =? 0 then ret None else ret (Some max_adj)
  | None =>
      let* _ := modify (set_clkid CLOCK_REALTIME) in
      ret (Some 512000)
  end.

(** [clock_create]; the answer is [true] for the controller and [false]
    for [NULL]. *)
Definition clock_create (phc : option string) (iface : list interface)
    (count : nat) (ds : defaultDS) : M bool :=
  let* _ := ext_do srandom_time CSrandom in
  let* c := get_clock in
  let* _ := (if decide (nports c = 0%nat) then ret tt else clock_destroy) in
  let* dev := open_device phc in
  match dev with
  | None => ret false
  | Some max_adj =>
      let* sw_ts := sw_ts_scan iface 0 count in
      let* sv := ext_ask (servo_create "pi" max_adj sw_ts)
                         (CServoCreate max_adj sw_ts) in
      let* _ := modify (set_servo sv) in
      if sv =? NULL then ret false
      else
        let* mv := ext_ask (mave_create MAVE_LENGTH)
                     (fun r => CMaveCreate MAVE_LENGTH (bool_decide (is_Some r))) in
        let* _ := modify (set_avg_delay mv) in
        match mv with
        | None => ret false
        | Some _ =>
            let* _ := modify (set_dds ds) in
            let* _ := modify init_parentDS in
            let* _ := modify (fun c =>
                        set_pollfds (map unused_pollfd (pollfds c)) c) in
            let* ok := open_ports iface 0 count in
            if ok then
              let* _ := modify (fun c =>
                          set_nports count
                            (set_dds (set_numberPorts (Z.of_nat count) (dds c))
                                     c)) in
              let* _ := for_each (seq 0 count) (fun i =>
                          let* p := port_at i in
                          ext_do (port_dispatch p EV_INITIALIZE)
                                 (CPortDispatch p EV_INITIALIZE)) in
              ret true
            else ret false
        end
  end.

(** *** Accessors *)

(** [clock_default_ds] refreshes the data set that stands for this clock
    in the comparisons and answers it. *)
Definition clock_default_ds : M dataset :=
  let* _ := modify (fun c =>
              let d := dds c in
              let self := {| clockIdentity := dds_clockIdentity d;
                             portNumber := 0 |} in
              set_default_dataset
                {| ds_priority1 := dds_priority1 d;
                   ds_identity := dds_clockIdentity d;
                   ds_quality := dds_clockQuality d;
                   ds_priority2 := dds_priority2 d;
                   ds_stepsRemoved := 0;
                   ds_sender := self; ds_receiver := self |} c) in
  let* c := get_clock in
  ret (default_dataset c).

Definition clock_class (c : clock mave) : Z :=
  clockClass (dds_clockQuality (dds c)).
Definition clock_domain_number (c : clock mave) : Z := dds_domainNumber (dds c).
Definition clock_identity (c : clock mave) : ClockIdentity :=
  dds_clockIdentity (dds c).
Definition clock_parent_identity (c : clock mave) : PortIdentity :=
  parentPortIdentity (dad c).
Definition clock_slave_only (c : clock mave) : Z := dds_slaveOnly (dds c).

(** *** The poll table *)

(** The search loop of [clock_install_fda]: the first index [i], at or
    after the current one and below [nports], with [p == c->port[i]]; the
    loop bound when there is none.  [n] counts the iterations left. *)
Fixpoint find_port (ports : list ptr) (p : ptr) (i n : nat) : option nat :=
  match n with
  | O => Some i
  | S n' =>
      match ports !! i with
      | None => None
      | Some q => if p =? q then Some i else find_port ports p (S i) n'
      end
  end.

Definition install_entry (v : Z) (e : pollfd) : pollfd :=
  {| fd := v; events := Z.lor POLLIN POLLPRI; revents := revents e |}.

Definition clock_install_fda (p : ptr) (fda : fdarray) : M unit :=
  let* c := get_clock in
  let* i := of_option (find_port (port c) p 0 (nports c)) in
  for_each (seq 0 (cnt fda)) (fun j =>
    let k := (N_POLLFD * i + j)%nat in
    let* v := of_option (fda_fd fda !! j) in
    store_pollfd k (install_entry v)).

(** *** Path delay and synchronization *)

Definition clock_path_delay (req : timespec) (rx : timestamp)
    (correction : Z) : M unit :=
  let* c := get_clock in
  let c3 := correction_to_tmv correction in
  let t3 := timespec_to_tmv req in
  let t4 := timestamp_to_tmv rx in
  let pd := tmv_add (tmv_sub (t2 c) t3) (tmv_sub t4 (t1 c)) in
  let pd := tmv_sub pd (tmv_add (c1 c) (tmv_add (c2 c) c3)) in
  let pd := tmv_div pd 2 in
  if pd <? 0 then ret tt
  else
    let* m := of_option (avg_delay c) in
    let '(m', r) := mave_accumulate m pd in
    fun s => Some (tt,
                   {| clk := set_path_delay r (set_avg_delay (Some m') (clk s));
                      ext := ext s |},
                   [CMaveAccumulate pd r]).

Definition clock_synchronize (ingress_ts : timespec) (origin_ts : timestamp)
    (correction1 correction2 : Z) : M unit :=
  let ingress := timespec_to_tmv ingress_ts in
  let origin := timestamp_to_tmv origin_ts in
  let* _ := modify (fun c => set_t2 ingress (set_t1 origin c)) in
  let* _ := modify (fun c =>
              set_c2 (correction_to_tmv correction2)
                     (set_c1 (correction_to_tmv correction1) c)) in
  let* _ := modify (fun c =>
              set_master_offset
                (tmv_sub ingress
                   (tmv_add origin
                      (tmv_add (path_delay c) (tmv_add (c1 c) (c2 c))))) c) in
  let* c := get_clock in
  if path_delay c =? 0 then ret tt
  else
    let* r := ext_ask (servo_sample (servo c) (master_offset c) ingress)
                (fun r => CServoSample (servo c) (master_offset c) ingress
                                       r.1 r.2) in
    match r.2 with
    | SERVO_UNLOCKED => ret tt
    | SERVO_JUMP => clock_step (clkid c) (- master_offset c)
    | SERVO_LOCKED => clock_ppb (clkid c) (PrimFloat.opp r.1)
    end.

(** *** The best master decision *)

(** One iteration of the selection loop: [best] is the candidate kept so
    far, the answer the candidate kept after port [i]. *)
Definition select_step (i : nat) (best : ptr) : M ptr :=
  let* p := port_at i in
  let* fc := ext_ask (port_compute_best p) (CPortComputeBest p) in
  if fc =? NULL then ret best
  else if best =? NULL then ret fc
  else
    let* a := ext_read (fc_dataset fc) in
    let* b := ext_read (fc_dataset best) in
    if dscmp a b >? 0 then ret fc else ret best.

Definition role_event (ps : port_state) : fsm_event :=
  match ps with
  | PS_LISTENING => EV_NONE
  | PS_GRAND_MASTER => EV_RS_MASTER
  | PS_MASTER => EV_RS_MASTER
  | PS_PASSIVE => EV_RS_PASSIVE
  | PS_SLAVE => EV_RS_SLAVE
  | PS_OTHER _ => EV_INITIALIZE
  end.

Definition role_update (ps : port_state) : M unit :=
  match ps with
  | PS_GRAND_MASTER => clock_update_grandmaster
  | PS_SLAVE => clock_update_slave
  | _ => ret tt
  end.

Definition assign_role (i : nat) : M unit :=
  let* p := port_at i in
  let* c := get_clock in
  let* ps := ext_ask (fun w => (bmc_state_decision c p w, w))
                     (CBmcStateDecision p) in
  let* _ := role_update ps in
  ext_do (port_dispatch p (role_event ps)) (CPortDispatch p (role_event ps)).

Definition reset_avg_delay : M unit :=
  let* c := get_clock in
  let* m := of_option (avg_delay c) in
  fun s => Some (tt,
                 {| clk := set_avg_delay (Some (mave_reset m)) (clk s);
                    ext := ext s |},
                 [CMaveReset]).

Definition handle_state_decision_event : M unit :=
  let* c := get_clock in
  let* b := for_fold (seq 0 (nports c)) select_step NULL in
  if b =? NULL then ret tt
  else
    let* _ := (if best c =? b then ret tt else reset_avg_delay) in
    let* _ := modify (set_best b) in
    for_each (seq 0 (nports c)) assign_role.

(** *** The poll loop *)

Definition set_revents (r : Z) (e : pollfd) : pollfd :=
  {| fd := fd e; events := events e; revents := r |}.

(** The body of the two nested loops, for port [i] and slot [j]; [sde]
    is the flag the loops carry. *)
Definition poll_slot (i j : nat) (sde : bool) : M bool :=
  let k := (N_POLLFD * i + j)%nat in
  let* e := pollfd_at k in
  if Z.land (revents e) (Z.lor POLLIN POLLPRI) =? 0 then ret sde
  else
    let* p := port_at i in
    let* ev := ext_ask (port_event p j) (CPortEvent p j) in
    if is_state_decision ev then ret true
    else
      let* _ := ext_do (port_dispatch p ev) (CPortDispatch p ev) in
      ret sde.

Definition poll_scan (n : nat) : M bool :=
  for_fold (seq 0 n) (fun i sde =>
    for_fold (seq 0 N_POLLFD) (poll_slot i) sde) false.

Definition clock_poll : M Z :=
  let* c := get_clock in
  let* r := ext_ask (sys_poll (pollfds c))
                    (fun r => CPoll (poll_cnt r) (poll_errno r)) in
  let* _ := modify (fun c =>
              set_pollfds
                (imap (fun k e => set_revents (poll_revents r k) e)
                      (pollfds c)) c) in
  if poll_cnt r <? 0 then
    if poll_errno r =? EINTR then ret 0 else ret (-1)
  else if poll_cnt r =? 0 then ret 0
  else
    let* sde := poll_scan (nports c) in
    let* _ := (if sde then handle_state_decision_event else ret tt) in
    ret 0.

End Controller.

(** ** A concrete environment

    Two ports with two slots each, and collaborators that answer from a
    fixed table; used to run the controller on concrete inputs. *)
Module Demo.

Record table := {
  candidate : ptr -> ptr;          (* the best foreign clock of a port *)
  slot_event : ptr -> nat -> fsm_event;
  role : ptr -> port_state;
  servo_answer : float * servo_state;
  poll_answer : poll_result
}.

Definition zero_quality : ClockQuality :=
  {| clockClass := 0; clockAccuracy := 0; offsetScaledLogVariance := 0 |}.

Definition dataset_of (prio : Z) : dataset :=
  {| ds_priority1 := prio; ds_identity := 0; ds_quality := zero_quality;
     ds_priority2 := 0; ds_stepsRemoved := 0;
     ds_sender := {| clockIdentity := 0; portNumber := 0 |};
     ds_receiver := {| clockIdentity := 0; portNumber := 0 |} |}.

Definition message_of (prio : Z) : ptp_message :=
  {| flagField := [0; 0];
     announce := {| an_currentUtcOffset := 0;
                    an_grandmasterPriority1 := prio;
                    an_grandmasterClockQuality := zero_quality;
                    an_grandmasterPriority2 := 0;
                    an_grandmasterIdentity := 0; an_timeSource := 0 |} |}.

(** A moving average over the last [MAVE_LENGTH] samples, newest first. *)
Definition window := list Z.

Definition sum (l : list Z) : Z := foldr Z.add 0 l.

Definition accumulate (m : window) (v : Z) : window * Z :=
  let m' := take (Z.to_nat MAVE_LENGTH) (v :: m) in
  (m', Z.quot (sum m') (Z.of_nat (length m'))).

(** The foreign clock at address [fc] announces the priority
    [fc mod 100]. *)
Definition priority (fc : ptr) : Z := fc mod 100.

(** A smaller [priority1] is the better clock. *)
Definition compare (a b : dataset) : Z := ds_priority1 b - ds_priority1 a.

#[export] Instance env : Env := {|
  world := table;
  mave := window;
  MAX_PORTS := 2;
  N_POLLFD := 2;
  CLOCK_INVALID := -1;
  CURRENT_UTC_OFFSET := 34;
  INTERNAL_OSCILLATOR := 160;
  TS_SOFTWARE := 0;
  DM_E2E := 1;
  timespec_to_tmv := fun ts => tv_sec ts * NS_PER_SEC + tv_nsec ts;
  timestamp_to_tmv := fun ts => sec ts * NS_PER_SEC + nsec ts;
  correction_to_tmv := fun c => Z.shiftr c 16;
  field_is_set := fun _ _ _ => 0;
  srandom_time := fun w => w;
  sys_poll := fun _ w => (poll_answer w, w);
  clock_adjtime := fun _ _ w => (0, w);
  phc_open := fun _ w => (3, w);
  phc_max_adj := fun _ w => (512000, w);
  phc_close := fun _ w => w;
  servo_create := fun _ _ _ w => (500, w);
  servo_sample := fun _ _ _ w => (servo_answer w, w);
  mave_create := fun _ w => (Some [], w);
  mave_accumulate := accumulate;
  mave_reset := fun _ => [];
  port_open := fun _ number _ w => (100 + number, w);
  port_close := fun _ w => w;
  port_dispatch := fun _ _ w => w;
  port_event := fun p j w => (slot_event w p j, w);
  port_compute_best := fun p w => (candidate w p, w);
  fc_dataset := fun fc _ => dataset_of (priority fc);
  fc_first_message := fun fc _ => message_of (priority fc);
  dscmp := compare;
  bmc_state_decision := fun _ p w => role w p
|}.

Definition no_poll : poll_result :=
  {| poll_cnt := 0; poll_errno := 0; poll_revents := fun _ => 0 |}.

(** No port has a candidate, nothing is ready. *)
Definition quiet : table :=
  {| candidate := fun _ => NULL;
     slot_event := fun _ _ => EV_NONE; role := fun _ => PS_LISTENING;
     servo_answer := (0%float, SERVO_UNLOCKED); poll_answer := no_poll |}.

(** Both ports have a candidate, and the two announce the same priority:
    port 101 the foreign clock at 205, port 102 the one at 305. *)
Definition tied : table :=
  {| candidate := fun p => if p =? 101 then 205
                           else if p =? 102 then 305 else NULL;
     slot_event := fun _ _ => EV_NONE;
     role := fun p => if p =? 101 then PS_SLAVE else PS_PASSIVE;
     servo_answer := (0%float, SERVO_UNLOCKED); poll_answer := no_poll |}.

(** Later, port 101 has lost its candidate and port 102 has a better
    one, at 304. *)
Definition switched : table :=
  {| candidate := fun p => if p =? 102 then 304 else NULL;
     slot_event := fun _ _ => EV_NONE;
     role := fun p => if p =? 102 then PS_SLAVE else PS_MASTER;
     servo_answer := (0%float, SERVO_UNLOCKED); poll_answer := no_poll |}.

(** A wakeup in which three slots are ready: both slots of port 101 and
    the second slot of port 102.  The first slot of port 101 and the slot
    of port 102 both give the state decision event, the other slot an
    ordinary event.  The candidates are those of [tied]. *)
Definition busy : table :=
  {| candidate := candidate tied;
     slot_event := fun p j =>
       if (p =? 101) && (Nat.eqb j 1) then EV_OTHER 5
       else EV_STATE_DECISION_EVENT;
     role := role tied;
     servo_answer := (0%float, SERVO_UNLOCKED);
     poll_answer :=
       {| poll_cnt := 3; poll_errno := 0;
          poll_revents := fun k => if Nat.eqb k 2 then 0 else POLLIN |} |}.

(** The candidates by rank: the smaller priority is the greater rank. *)
Definition rank (fc : ptr) : Z := - priority fc.

Definition ds0 : defaultDS :=
  {| dds_slaveOnly := 0; dds_numberPorts := 0; dds_priority1 := 128;
     dds_clockQuality := {| clockClass := 248; clockAccuracy := 254;
                            offsetScaledLogVariance := 65535 |};
     dds_priority2 := 127; dds_clockIdentity := 7; dds_domainNumber := 0 |}.

Definition eth (n : string) : interface :=
  {| name := n; transport := 1; timestamping := 1 |}.

Definition two_ifaces : list interface := [eth "eth0"; eth "eth1"].

(** The state in which the program starts. *)
Definition boot (w : table) : state := {| clk := clock_zero; ext := w |}.

(** Runs [m] and keeps the state it leaves; a fault leaves the state as
    it was. *)
Definition after {A} (m : M A) (s : state) : state :=
  match m s with Some (_, s', _) => s' | None => s end.

(** The controller created over two interfaces. *)
Definition created (w : table) : state :=
  after (clock_create None two_ifaces 2 ds0) (boot w).

(** The controller after a first delay measurement of 200 ns round trip. *)
Definition measured (w : table) : state :=
  after (clock_path_delay {| tv_sec := 0; tv_nsec := 0 |}
                          {| sec := 0; nsec := 200 |} 0) (created w).

(** The controller after a first round over the tied candidates, and the
    same controller once the candidates have changed. *)
Definition first_round : state :=
  after handle_state_decision_event (created tied).

Definition later : state := {| clk := clk first_round; ext := switched |}.

(** The descriptors of a port. *)
Definition fda0 : fdarray := {| cnt := 2; fda_fd := [5; 6] |}.

End Demo.


(** * Vocabulary of the statements *)

Notation "'let*' x := m 'in' k" := (bind m (fun x => k))
  (at level 10, x name, m at level 100, k at level 200).

Section Vocabulary.
Context `{E : Env}.

(** A program keeps [R] when [R] relates the controller before a run to
    the controller after it. *)
Definition keeps (R : relation (clock mave)) {A} (m : M A) : Prop :=
  forall s a s' tr, m s = Some (a, s', tr) -> R (clk s) (clk s').

(** The arrays of the controller have their declared sizes, and the ports
    in use are among them. *)
Definition wf (c : clock mave) : Prop :=
  length (port c) = MAX_PORTS
  /\ length (pollfds c) = (MAX_PORTS * N_POLLFD)%nat
  /\ (nports c <= MAX_PORTS)%nat.

(** The controller after the assignments at the head of
    [clock_synchronize]. *)
Definition synchronized (ingress origin a1 a2 : tmv_t) (c : clock mave) :
    clock mave :=
  set_master_offset (ingress - (origin + path_delay c + a1 + a2))
    (set_c2 a2 (set_c1 a1 (set_t2 ingress (set_t1 origin c)))).


(** Modelled from the spec: a frequency in parts per billion in the unit
    of the clock device, by the scale factor 65.536, in double
    arithmetic. *)
Definition device_frequency (ppb : float) : float :=
  PrimFloat.mul ppb 65.536%float.

(** Two controllers that agree on what [f] reads. *)
Definition same_on {X} (f : clock mave -> X) : relation (clock mave) :=
  fun c c' => f c = f c'.

(** The parent data set of a clock that is its own parent and grandmaster,
    with the "unknown" marks in the two observation fields, as the
    specification asks of [clock_create]. *)
Definition self_parentDS (ds : defaultDS) (priority2 : Z) : parentDS :=
  {| parentPortIdentity :=
       {| clockIdentity := dds_clockIdentity ds; portNumber := 0 |};
     parentStats := 0;
     observedParentOffsetScaledLogVariance := 65535;
     observedParentClockPhaseChangeRate := 2147483647;
     grandmasterIdentity := dds_clockIdentity ds;
     grandmasterClockQuality := dds_clockQuality ds;
     grandmasterPriority1 := dds_priority1 ds;
     grandmasterPriority2 := priority2 |}.

(** [I] holds after whenever it held before. *)
Definition preserves (I : clock mave -> Prop) : relation (clock mave) :=
  fun c c' => I c -> I c'.

(** What the controller relies on in the moving average: there is a
    property [ok] of filters (say, every stored sample is non-negative) that
    creation and reset establish and that accumulating a non-negative
    sample keeps, and under which the average returned for a non-negative
    sample is non-negative. *)
Record filter_contract (ok : mave -> Prop) : Prop := {
  created_ok : forall len w m w', mave_create len w = (Some m, w') -> ok m;
  reset_ok : forall m, ok m -> ok (mave_reset m);
  accumulate_ok : forall m v,
    ok m -> 0 <= v ->
    ok (mave_accumulate m v).1 /\ 0 <= (mave_accumulate m v).2
}.

Definition delay_ok (ok : mave -> Prop) (c : clock mave) : Prop :=
  0 <= path_delay c /\ forall m, avg_delay c = Some m -> ok m.

(** The states of a run of the program: it starts from the cleared
    [the_clock], calls the public operations in any order and with any
    arguments, and between two calls the collaborators may change. *)
Inductive reachable : state -> Prop :=
| reach_boot w : reachable {| clk := clock_zero; ext := w |}
| reach_world s w : reachable s -> reachable {| clk := clk s; ext := w |}
| reach_create phc iface count ds s b s' tr :
    reachable s ->
    clock_create phc iface count ds s = Some (b, s', tr) -> reachable s'
| reach_default_ds s d s' tr :
    reachable s -> clock_default_ds s = Some (d, s', tr) -> reachable s'
| reach_install_fda p fda s s' tr :
    reachable s ->
    clock_install_fda p fda s = Some (tt, s', tr) -> reachable s'
| reach_poll s r s' tr :
    reachable s -> clock_poll s = Some (r, s', tr) -> reachable s'
| reach_path_delay req rx correction s s' tr :
    reachable s ->
    clock_path_delay req rx correction s = Some (tt, s', tr) -> reachable s'
| reach_synchronize ingress_ts origin_ts k1 k2 s s' tr :
    reachable s ->
    clock_synchronize ingress_ts origin_ts k1 k2 s = Some (tt, s', tr) ->
    reachable s'.

(** The value [clock_path_delay] computes before the division by two. *)
Definition raw_delay (c : clock mave) (req : timespec) (rx : timestamp)
    (correction : Z) : Z :=
  (t2 c - timespec_to_tmv req) + (timestamp_to_tmv rx - t1 c)
  - (c1 c + c2 c + correction_to_tmv correction).

(** The poll table [new] is the table [old] with the first [cnt]
    entries of block [i] holding the descriptors of [fda] and the interest
    [POLLIN|POLLPRI], and with every other entry as it was. *)
Definition installed (fda : fdarray) (i : nat) (old new : list pollfd) : Prop :=
  length new = length old
  /\ forall k : nat,
       new !! k
       = if decide (N_POLLFD * i <= k < N_POLLFD * i + cnt fda)%nat
         then install_entry (fda_fd fda !!! (k - N_POLLFD * i)%nat)
                <$> old !! k
         else old !! k.

(** *** The decision round *)

(** The selection loop of [handle_state_decision_event] on its own. *)
Definition best_scan (s : state) : option (ptr * state * trace) :=
  for_fold (seq 0 (nports (clk s))) select_step NULL s.

(** The candidate a round selects, [NULL] when there is none. *)
Definition selected (s : state) : option ptr :=
  (fun r => r.1.1) <$> best_scan s.

(** One step of the selection, in the world [w] in which the comparator
    reads the two data sets: [acc] is the candidate kept so far and [fc] the
    answer of the next port. *)
Definition prefer (w : world) (acc fc : ptr) : ptr :=
  if fc =? NULL then acc
  else if acc =? NULL then fc
  else if dscmp (fc_dataset fc w) (fc_dataset acc w) >? 0 then fc else acc.

(** The comparator orders the candidates as [rank] does, whatever the
    state of the collaborators: a total preorder. *)
Definition ranked_by (rank : ptr -> Z) : Prop :=
  forall w a b,
    a <> NULL -> b <> NULL ->
    (dscmp (fc_dataset a w) (fc_dataset b w) > 0 <-> rank a > rank b).

(** The same step, by rank. *)
Definition pick (rank : ptr -> Z) (acc fc : ptr) : ptr :=
  if fc =? NULL then acc
  else if acc =? NULL then fc
  else if rank fc >? rank acc then fc else acc.

(** Calls of the second loop of a round: the role decision and the
    dispatch of an event other than the state decision event. *)
Definition role_call (c : call) : bool :=
  match c with
  | CBmcStateDecision _ _ => true
  | CPortDispatch _ ev => negb (is_state_decision ev)
  | _ => false
  end.

Definition dispatches_decision (c : call) : bool :=
  match c with
  | CPortDispatch _ EV_STATE_DECISION_EVENT => true
  | _ => false
  end.

(** What a round never touches in its second loop. *)
Definition round_frame (c : clock mave) :=
  (port c, best c, avg_delay c, nports c, pollfds c, path_delay c).

(** *** The poll loop *)

(** Slot [j] of port [i] is ready. *)
Definition ready (c : clock mave) (i j : nat) : bool :=
  match pollfds c !! (N_POLLFD * i + j)%nat with
  | Some e => negb (Z.land (revents e) (Z.lor POLLIN POLLPRI) =? 0)
  | None => false
  end.

(** The ready slots among the slots [js] of port [i], and the ready slots
    of all ports in use: by port, then by slot. *)
Definition ready_row (c : clock mave) (i : nat) (js : list nat) :
    list (nat * nat) :=
  flat_map (fun j => if ready c i j then [(i, j)] else []) js.

Definition ready_slots (c : clock mave) : list (nat * nat) :=
  flat_map (fun i => ready_row c i (seq 0 N_POLLFD)) (seq 0 (nports c)).

(** The calls made for a ready slot whose port translates it to [ev]. *)
Definition slot_calls (c : clock mave) (slot : nat * nat) (ev : fsm_event) :
    trace :=
  let p := default NULL (port c !! slot.1) in
  CPortEvent p slot.2 ev
  :: (if is_state_decision ev then [] else [CPortDispatch p ev]).

Definition scan_calls (c : clock mave) (slots : list (nat * nat))
    (evs : list fsm_event) : trace :=
  concat (zip_with (slot_calls c) slots evs).

(** The controller after [poll] stored the [revents]. *)
Definition polled (r : poll_result) (c : clock mave) : clock mave :=
  set_pollfds (imap (fun k e => set_revents (poll_revents r k) e) (pollfds c))
              c.

End Vocabulary.

(** * Vocabulary of the further properties *)

Section FurtherVocabulary.
Context `{E : Env}.

(** Every call of a run of [m] satisfies [P]. *)
Definition emits (P : call -> bool) {A} (m : M A) : Prop :=
  forall s a s' tr, m s = Some (a, s', tr) -> forallb P tr = true.

(** Calls on the clock device and on the servo. *)
Definition adjusts (c : call) : bool :=
  match c with
  | CClockAdjtime _ _ _ | CServoSample _ _ _ _ _ => true
  | _ => false
  end.

Definition is_dispatch (c : call) : bool :=
  match c with CPortDispatch _ _ => true | _ => false end.

(** The port a call dispatches an event to. *)
Definition dispatched_port (c : call) : option ptr :=
  match c with CPortDispatch p _ => Some p | _ => None end.

(** The calls of the second loop of a round, for the ports [ps] and the
    roles [pss] decided for them. *)
Definition role_calls (ps : list ptr) (pss : list port_state) : trace :=
  concat (zip_with (fun p r => [CBmcStateDecision p r;
                                CPortDispatch p (role_event r)]) ps pss).

(** The controller was created: it has a filter and a servo, and its ports
    in use are open. *)
Definition has_resources (c : clock mave) : Prop :=
  nports c <> 0%nat ->
  is_Some (avg_delay c)
  /\ servo c <> NULL
  /\ forall i, (i < nports c)%nat ->
       exists p, port c !! i = Some p /\ p <> NULL.

Definition sound (c : clock mave) : Prop := wf c /\ has_resources c.

(** The parent data set after [clock_update_grandmaster], from the default
    data set [d] and the parent data set [old] before. *)
Definition grandmaster_parentDS (d : defaultDS) (old : parentDS) : parentDS :=
  {| parentPortIdentity :=
       {| clockIdentity := dds_clockIdentity d; portNumber := 0 |};
     parentStats := parentStats old;
     observedParentOffsetScaledLogVariance :=
       observedParentOffsetScaledLogVariance old;
     observedParentClockPhaseChangeRate :=
       observedParentClockPhaseChangeRate old;
     grandmasterIdentity := dds_clockIdentity d;
     grandmasterClockQuality := dds_clockQuality d;
     grandmasterPriority1 := dds_priority1 d;
     grandmasterPriority2 := dds_priority2 d |}.

Definition grandmaster_tds : timePropertiesDS :=
  {| currentUtcOffset := CURRENT_UTC_OFFSET; currentUtcOffsetValid := FALSE;
     leap61 := FALSE; leap59 := FALSE; timeTraceable := FALSE;
     frequencyTraceable := FALSE; ptpTimescale := TRUE;
     timeSource := INTERNAL_OSCILLATOR |}.

(** The three data sets that the roles update. *)
Definition role_datasets (c : clock mave) := (cur c, dad c, tds c).

(** The role a call reports as decided. *)
Definition decided_role (c : call) : option port_state :=
  match c with CBmcStateDecision _ r => Some r | _ => None end.

(** What the updates of the roles read but never write. *)
Definition role_base (c : clock mave) :=
  (dds c, parentStats (dad c),
   observedParentOffsetScaledLogVariance (dad c),
   observedParentClockPhaseChangeRate (dad c)).

(** A role that updates no data set. *)
Definition plain_role (r : port_state) : Prop :=
  r <> PS_GRAND_MASTER /\ r <> PS_SLAVE.

Definition zero_currentDS : currentDS :=
  {| stepsRemoved := 0; offsetFromMaster := 0; meanPathDelay := 0 |}.

(** The events the second loop of a round can dispatch. *)
Definition role_events : list fsm_event :=
  [EV_NONE; EV_RS_MASTER; EV_RS_PASSIVE; EV_RS_SLAVE; EV_INITIALIZE].

(** A call of the first half of a round: neither a role decision nor a
    dispatch. *)
Definition selection_call (c : call) : bool :=
  match c with
  | CPortDispatch _ _ | CBmcStateDecision _ _ => false
  | _ => true
  end.

(** What the first half of a round leaves alone. *)
Definition selection_frame (c : clock mave) :=
  (role_datasets c, role_base c, port c, nports c).

(** What the operations other than creation and destruction leave alone:
    the default data set, the clock device, the servo and the ports. *)
Definition configuration (c : clock mave) :=
  (dds c, clkid c, servo c, nports c, port c).

Definition is_close (c : call) : bool :=
  match c with
  | CPortClose _ | CPhcClose _ => true
  | _ => false
  end.

(** The calls that release what the controller [c] holds: its ports in
    use, in port order, then its clock device unless it is the system
    clock. *)
Definition closes (c : clock mave) : trace :=
  map CPortClose (take (nports c) (port c))
  ++ (if clkid c =? CLOCK_REALTIME then [] else [CPhcClose (clkid c)]).

(** The data set that stands for a clock configured with [d]. *)
Definition dataset_of_dds (d : defaultDS) : dataset :=
  let self := {| clockIdentity := dds_clockIdentity d; portNumber := 0 |} in
  {| ds_priority1 := dds_priority1 d; ds_identity := dds_clockIdentity d;
     ds_quality := dds_clockQuality d; ds_priority2 := dds_priority2 d;
     ds_stepsRemoved := 0; ds_sender := self; ds_receiver := self |}.

(** What a run answers, when it returns. *)
Definition answer {A} (m : M A) (s : state) : option A :=
  (fun r => r.1.1) <$> m s.

(** Collaborators that never fail: the clock device opens and can be
    adjusted, the servo and the filter are created, and every port
    opens. *)
Definition obliging : Prop :=
  (forall path w, (phc_open path w).1 <> CLOCK_INVALID)
  /\ (forall id w, (phc_max_adj id w).1 <> 0)
  /\ (forall name max_adj sw_ts w,
        (servo_create name max_adj sw_ts w).1 <> NULL)
  /\ (forall len w, is_Some (mave_create len w).1)
  /\ (forall f number dm w, 1 <= number -> (port_open f number dm w).1 <> NULL).

(** A controller without a port in use holds no candidate. *)
Definition unselected (c : clock mave) : Prop :=
  nports c = 0%nat -> best c = NULL.

End FurtherVocabulary.

(** ** Further concrete collaborators *)

Module Faulty.

(** The collaborators of [Demo], except that the second port cannot be
    opened. *)
Definition env : Env := {|
  world := Demo.table;
  mave := Demo.window;
  MAX_PORTS := 2;
  N_POLLFD := 2;
  CLOCK_INVALID := -1;
  CURRENT_UTC_OFFSET := 34;
  INTERNAL_OSCILLATOR := 160;
  TS_SOFTWARE := 0;
  DM_E2E := 1;
  timespec_to_tmv := fun ts => tv_sec ts * NS_PER_SEC + tv_nsec ts;
  timestamp_to_tmv := fun ts => sec ts * NS_PER_SEC + nsec ts;
  correction_to_tmv := fun c => Z.shiftr c 16;
  field_is_set := fun _ _ _ => 0;
  srandom_time := fun w => w;
  sys_poll := fun _ w => (Demo.poll_answer w, w);
  clock_adjtime := fun _ _ w => (0, w);
  phc_open := fun _ w => (3, w);
  phc_max_adj := fun _ w => (512000, w);
  phc_close := fun _ w => w;
  servo_create := fun _ _ _ w => (500, w);
  servo_sample := fun _ _ _ w => (Demo.servo_answer w, w);
  mave_create := fun _ w => (Some [], w);
  mave_accumulate := Demo.accumulate;
  mave_reset := fun _ => [];
  port_open := fun _ number _ w =>
    (if number =? 2 then NULL else 100 + number, w);
  port_close := fun _ w => w;
  port_dispatch := fun _ _ w => w;
  port_event := fun p j w => (Demo.slot_event w p j, w);
  port_compute_best := fun p w => (Demo.candidate w p, w);
  fc_dataset := fun fc _ => Demo.dataset_of (Demo.priority fc);
  fc_first_message := fun fc _ => Demo.message_of (Demo.priority fc);
  dscmp := Demo.compare;
  bmc_state_decision := fun _ p w => Demo.role w p
|}.

(** The state in which the program starts. *)
Definition boot : state (E := env) :=
  {| clk := clock_zero (E := env); ext := Demo.quiet |}.

End Faulty.

Module Sampled.


(** The servo is locked and asks for 1000 parts per billion. *)
Definition locked : Demo.table :=
  {| Demo.candidate := fun _ => NULL;
     Demo.slot_event := fun _ _ => EV_NONE;
     Demo.role := fun _ => PS_LISTENING;
     Demo.servo_answer := (1000%float, SERVO_LOCKED);
     Demo.poll_answer := Demo.no_poll |}.

End Sampled.

Module Crowded.

(** One interface more than the controller of [Demo] has ports. *)
Definition three_ifaces : list interface :=
  [Demo.eth "eth0"; Demo.eth "eth1"; Demo.eth "eth2"].

End Crowded.

Module Elected.

(** Both ports have a candidate, as in [Demo.tied], and both are decided
    to be the grand master. *)
Definition table : Demo.table :=
  {| Demo.candidate := Demo.candidate Demo.tied;
     Demo.slot_event := fun _ _ => EV_NONE;
     Demo.role := fun _ => PS_GRAND_MASTER;
     Demo.servo_answer := (0%float, SERVO_UNLOCKED);
     Demo.poll_answer := Demo.no_poll |}.

End Elected.
(** * Properties *)

(** ** 64-bit arithmetic *)

Lemma wrap64_id (z : Z) : is_int64 z -> wrap64 z = z.
Proof.
  unfold is_int64, INT64_MIN, INT64_MAX, wrap64. intros Hz.
  rewrite Z.mod_small by lia. lia.
Qed.

Lemma quot_rem_pos (n : Z) :
  0 <= n ->
  n = NS_PER_SEC * Z.quot n NS_PER_SEC + Z.rem n NS_PER_SEC
  /\ 0 <= Z.rem n NS_PER_SEC < NS_PER_SEC
  /\ 0 <= Z.quot n NS_PER_SEC <= n.
Proof.
  intros Hn. unfold NS_PER_SEC.
  pose proof (Z.quot_rem' n 1000000000) as Hqr.
  pose proof (Z.rem_bound_pos n 1000000000 Hn ltac:(lia)) as Hr.
  pose proof (Z.quot_pos n 1000000000 Hn ltac:(lia)) as Hq.
  lia.
Qed.

Lemma clock_step_timex_modes (ns : Z) :
  modes (clock_step_timex ns) = Z.lor ADJ_SETOFFSET ADJ_NANO
  /\ freq (clock_step_timex ns) = 0.
Proof.
  unfold clock_step_timex. cbv zeta.
  destruct (wrap64 _ <? 0); split; reflexivity.
Qed.

Lemma clock_step_timex_sum (ns : Z) :
  INT64_MIN < ns <= INT64_MAX ->
  let tx := clock_step_timex ns in
  0 <= time_tv_usec tx < NS_PER_SEC
  /\ time_tv_sec tx * NS_PER_SEC + time_tv_usec tx = ns.
Proof.
  intros Hns. unfold clock_step_timex.
  assert (Hrange : forall z, - 2 ^ 63 <= z <= 2 ^ 63 - 1 -> wrap64 z = z)
    by (intros z Hz; apply wrap64_id; exact Hz).
  unfold INT64_MIN, INT64_MAX in Hns.
  destruct (Z.ltb_spec ns 0) as [Hneg | Hpos].
  - rewrite (Hrange (ns * -1)) by lia.
    destruct (quot_rem_pos (ns * -1) ltac:(lia)) as (Hqr & Hr & Hq).
    set (q := Z.quot (ns * -1) NS_PER_SEC) in *.
    set (r := Z.rem (ns * -1) NS_PER_SEC) in *.
    unfold NS_PER_SEC in *.
    rewrite (Hrange (-1 * q)), (Hrange (-1 * r)) by lia.
    destruct (Z.ltb_spec (-1 * r) 0); cbn [modes time_tv_sec time_tv_usec].
    + rewrite !Hrange by lia. lia.
    + lia.
  - destruct (quot_rem_pos ns Hpos) as (Hqr & Hr & Hq).
    set (q := Z.quot ns NS_PER_SEC) in *.
    set (r := Z.rem ns NS_PER_SEC) in *.
    unfold NS_PER_SEC in *.
    rewrite (Hrange (1 * q)), (Hrange (1 * r)) by lia.
    destruct (Z.ltb_spec (1 * r) 0); cbn [modes time_tv_sec time_tv_usec]; lia.
Qed.

(** Away from the least 64-bit value, the request of [clock_step] has its
    sub-second field in [0, 10^9) and its two fields add up to the
    offset. *)
Lemma clock_step_timex_sound (ns : Z) :
  INT64_MIN < ns <= INT64_MAX ->
  let tx := clock_step_timex ns in
  modes tx = Z.lor ADJ_SETOFFSET ADJ_NANO
  /\ 0 <= time_tv_usec tx < NS_PER_SEC
  /\ time_tv_sec tx * NS_PER_SEC + time_tv_usec tx = ns.
Proof.
  intros Hns. cbv zeta.
  split; [apply clock_step_timex_modes | apply clock_step_timex_sum, Hns].
Qed.

(** The example of the specification: -1,500,000,000 ns is requested as
    -2 s and +500,000,000 ns, a total of minus one and a half seconds. *)
Example clock_step_timex_example :
  clock_step_timex (-1500000000)
  = {| modes := 8448; freq := 0; time_tv_sec := -2;
       time_tv_usec := 500000000 |}.
Proof. reflexivity. Qed.

(** ** The conversion of a double *)


(** What does not fit is converted to the least 64-bit value. *)
Example double_to_long_large :
  double_to_long (device_frequency 1e18%float) = INT64_MIN.
Proof. vm_compute. reflexivity. Qed.

Section StepFacts.
Context `{E : Env}.

(** C8: at the least 64-bit offset, -2^63 ns, the negation in
    [clock_step] wraps, and the request issued to the device is for
    +9223372036 s and +854775808 ns: its fields add up to +2^63 ns and not
    to the offset that was asked for. *)
Theorem clock_step_least_offset (id : Z) (s : state) :
  let tx := {| modes := 8448; freq := 0; time_tv_sec := 9223372036;
               time_tv_usec := 854775808 |} in
  clock_step id INT64_MIN s
  = Some (tt, {| clk := clk s; ext := (clock_adjtime id tx (ext s)).2 |},
          [CClockAdjtime id tx (clock_adjtime id tx (ext s)).1])
  /\ is_int64 INT64_MIN
  /\ time_tv_sec tx * NS_PER_SEC + time_tv_usec tx = 2 ^ 63
  /\ time_tv_sec tx * NS_PER_SEC + time_tv_usec tx <> INT64_MIN.
Proof.
  cbv zeta. split; [| split; [| split]].
  - unfold clock_step, bind, ext_ask, ret.
    change (clock_step_timex INT64_MIN)
      with {| modes := 8448; freq := 0; time_tv_sec := 9223372036;
              time_tv_usec := 854775808 |}.
    destruct (clock_adjtime _ _ _) as [r w]. reflexivity.
  - unfold is_int64, INT64_MIN, INT64_MAX. lia.
  - reflexivity.
  - unfold INT64_MIN. cbn. lia.
Qed.



End StepFacts.

(** ** The monad *)

Section MonadFacts.
Context `{E : Env}.

Lemma bind_inv {A B} (m : M A) (f : A -> M B) s b s2 tr :
  bind m f s = Some (b, s2, tr) ->
  exists a s1 tr1 tr2,
    m s = Some (a, s1, tr1) /\ f a s1 = Some (b, s2, tr2) /\ tr = tr1 ++ tr2.
Proof.
  unfold bind. destruct (m s) as [[[a s1] tr1] |]; [| discriminate].
  destruct (f a s1) as [[[b' s2'] tr2] |] eqn:Hf; [| discriminate].
  intros [= <- <- <-]. exists a, s1, tr1, tr2. auto.
Qed.

Lemma bind_run {A B} (m : M A) (f : A -> M B) s a s1 tr1 b s2 tr2 :
  m s = Some (a, s1, tr1) -> f a s1 = Some (b, s2, tr2) ->
  bind m f s = Some (b, s2, tr1 ++ tr2).
Proof. unfold bind. intros -> ->. reflexivity. Qed.

Lemma of_option_inv {A} (o : option A) s a s' tr :
  of_option o s = Some (a, s', tr) -> o = Some a /\ s' = s /\ tr = [].
Proof. destruct o; cbn; [intros [= <- <- <-]; auto | discriminate]. Qed.

Lemma port_at_run i s p :
  port (clk s) !! i = Some p -> port_at i s = Some (p, s, []).
Proof. unfold port_at, bind, get_clock. intros ->. reflexivity. Qed.

Lemma pollfd_at_run k s e :
  pollfds (clk s) !! k = Some e -> pollfd_at k s = Some (e, s, []).
Proof. unfold pollfd_at, bind, get_clock. intros ->. reflexivity. Qed.

Lemma state_eta (s : state) : {| clk := clk s; ext := ext s |} = s.
Proof. destruct s; reflexivity. Qed.

(** *** Programs that keep a relation between the controller before and
    after *)

Section Keeps.
Context (R : relation (clock mave)) `{!PreOrder R}.

Lemma keeps_ret {A} (a : A) : keeps R (ret a).
Proof. intros s a' s' tr [= <- <- <-]. reflexivity. Qed.

Lemma keeps_fault {A} : keeps R (@fault _ A).
Proof. intros s a s' tr [=]. Qed.

Lemma keeps_bind {A B} (m : M A) (f : A -> M B) :
  keeps R m -> (forall a, keeps R (f a)) -> keeps R (bind m f).
Proof.
  intros Hm Hf s b s2 tr (a & s1 & tr1 & tr2 & H1 & H2 & _)%bind_inv.
  transitivity (clk s1);
    [exact (Hm _ _ _ _ H1) | exact (Hf _ _ _ _ _ H2)].
Qed.

Lemma keeps_get_clock : keeps R get_clock.
Proof. intros s a s' tr [= <- <- <-]. reflexivity. Qed.

Lemma keeps_modify f : (forall c, R c (f c)) -> keeps R (modify f).
Proof. intros Hf s a s' tr [= <- <- <-]. apply Hf. Qed.

Lemma keeps_ext_ask {A} (f : world -> A * world) c : keeps R (ext_ask f c).
Proof.
  intros s a s' tr. unfold ext_ask. destruct (f (ext s)).
  intros [= <- <- <-]. reflexivity.
Qed.

Lemma keeps_ext_do f c : keeps R (ext_do f c).
Proof. intros s a s' tr [= <- <- <-]. reflexivity. Qed.

Lemma keeps_ext_read {A} (f : world -> A) : keeps R (ext_read f).
Proof. intros s a s' tr [= <- <- <-]. reflexivity. Qed.

Lemma keeps_of_option {A} (o : option A) : keeps R (of_option o).
Proof. destruct o; [apply keeps_ret | apply keeps_fault]. Qed.

Lemma keeps_port_at i : keeps R (port_at i).
Proof.
  apply keeps_bind; [apply keeps_get_clock | intros; apply keeps_of_option].
Qed.

Lemma keeps_pollfd_at k : keeps R (pollfd_at k).
Proof.
  apply keeps_bind; [apply keeps_get_clock | intros; apply keeps_of_option].
Qed.

Lemma keeps_if {A} (b : bool) (m1 m2 : M A) :
  keeps R m1 -> keeps R m2 -> keeps R (if b then m1 else m2).
Proof. destruct b; auto. Qed.

Lemma keeps_for_each {A} (l : list A) body :
  (forall x, keeps R (body x)) -> keeps R (for_each l body).
Proof.
  intros Hb. induction l as [| x l IH]; cbn [for_each].
  - apply keeps_ret.
  - apply keeps_bind; auto.
Qed.

Lemma keeps_for_fold {A B} (l : list A) (body : A -> B -> M B) acc :
  (forall x b, keeps R (body x b)) -> keeps R (for_fold l body acc).
Proof.
  intros Hb. revert acc. induction l as [| x l IH]; intros acc; cbn [for_fold].
  - apply keeps_ret.
  - apply keeps_bind; auto.
Qed.

Lemma keeps_clock_step id ns : keeps R (clock_step id ns).
Proof.
  apply keeps_bind; [apply keeps_ext_ask | intros; apply keeps_ret].
Qed.

Lemma keeps_clock_ppb id ppb : keeps R (clock_ppb id ppb).
Proof.
  apply keeps_bind; [apply keeps_ext_ask | intros; apply keeps_ret].
Qed.

Lemma keeps_sw_ts_scan iface i n : keeps R (sw_ts_scan iface i n).
Proof.
  revert i. induction n as [| n IH]; intros i; cbn [sw_ts_scan].
  - apply keeps_ret.
  - apply keeps_bind; [apply keeps_of_option |]. intros f.
    apply keeps_if; [apply keeps_ret | apply IH].
Qed.

Lemma keeps_store_port i p :
  (forall c ps, R c (set_port ps c)) -> keeps R (store_port i p).
Proof.
  intros HR. apply keeps_bind; [apply keeps_get_clock |].
  intros c. destruct (decide _); [| apply keeps_fault].
  apply keeps_modify. intros c'. apply HR.
Qed.

Lemma keeps_open_ports iface i n :
  (forall c ps, R c (set_port ps c)) -> keeps R (open_ports iface i n).
Proof.
  intros HR. revert i. induction n as [| n IH]; intros i; cbn [open_ports].
  - apply keeps_ret.
  - apply keeps_bind; [apply keeps_of_option |]. intros f.
    apply keeps_bind; [apply keeps_ext_ask |]. intros p.
    apply keeps_bind; [apply keeps_store_port, HR |]. intros _.
    apply keeps_if; [apply keeps_ret | apply IH].
Qed.

End Keeps.

#[export] Instance preserves_preorder (I : clock mave -> Prop) :
  PreOrder (preserves I).
Proof. split; unfold preserves; [intros c; auto | intros a b c; auto]. Qed.

#[export] Instance same_on_preorder {X} (f : clock mave -> X) :
  PreOrder (same_on f).
Proof.
  split.
  - intros c. reflexivity.
  - intros a b c Hab Hbc. unfold same_on in *. congruence.
Qed.

End MonadFacts.

(** Takes a goal [keeps R m] apart along the structure of [m]; what is left
    are the updates of the controller record, as goals [R c (f c)]. *)
Ltac keeps_step :=
  match goal with
  | |- PreOrder _ => typeclasses eauto
  | |- forall _, _ => intro
  | |- keeps _ (ret _) => apply keeps_ret
  | |- keeps _ fault => apply keeps_fault
  | |- keeps _ get_clock => apply keeps_get_clock
  | |- keeps _ (ext_ask _ _) => apply keeps_ext_ask
  | |- keeps _ (ext_do _ _) => apply keeps_ext_do
  | |- keeps _ (ext_read _) => apply keeps_ext_read
  | |- keeps _ (of_option _) => apply keeps_of_option
  | |- keeps _ (port_at _) => apply keeps_port_at
  | |- keeps _ (pollfd_at _) => apply keeps_pollfd_at
  | |- keeps _ (clock_step _ _) => apply keeps_clock_step
  | |- keeps _ (clock_ppb _ _) => apply keeps_clock_ppb
  | |- keeps _ (bind _ _) => apply keeps_bind
  | |- keeps _ (for_each _ _) => apply keeps_for_each
  | |- keeps _ (for_fold _ _ _) => apply keeps_for_fold
  | |- keeps _ (modify _) => apply keeps_modify
  | |- keeps _ (sw_ts_scan _ _ _) => apply keeps_sw_ts_scan
  | |- keeps _ (store_port _ _) => apply keeps_store_port
  | |- keeps _ (open_ports _ _ _) => apply keeps_open_ports
  | |- keeps _ (if ?b then _ else _) => destruct b
  | |- keeps _ (match ?x with _ => _ end) => destruct x
  end.

Ltac keeps_tac := repeat keeps_step.

(** ** Synchronization *)

Section Synchronize.
Context `{E : Env}.

Lemma synchronize_head ingress_ts origin_ts k1 k2 s :
  let ingress := timespec_to_tmv ingress_ts in
  let origin := timestamp_to_tmv origin_ts in
  let c' := synchronized ingress origin (correction_to_tmv k1)
              (correction_to_tmv k2) (clk s) in
  clock_synchronize ingress_ts origin_ts k1 k2 s
  = (if path_delay (clk s) =? 0 then ret tt
     else
       let* r := ext_ask (servo_sample (servo c') (master_offset c') ingress)
                   (fun r => CServoSample (servo c') (master_offset c')
                                          ingress r.1 r.2) in
       match r.2 with
       | SERVO_UNLOCKED => ret tt
       | SERVO_JUMP => clock_step (clkid c') (- master_offset c')
       | SERVO_LOCKED => clock_ppb (clkid c') (PrimFloat.opp r.1)
       end) {| clk := c'; ext := ext s |}.
Proof.
  cbv zeta. unfold clock_synchronize, synchronized.
  unfold bind at 1 2 3 4. unfold modify, get_clock. cbn.
  unfold tmv_sub, tmv_add.
  replace (timespec_to_tmv ingress_ts -
           (timestamp_to_tmv origin_ts +
            (path_delay (clk s) + (correction_to_tmv k1 + correction_to_tmv k2))))
    with (timespec_to_tmv ingress_ts -
          (timestamp_to_tmv origin_ts + path_delay (clk s) +
           correction_to_tmv k1 + correction_to_tmv k2)) by lia.
  match goal with |- _ = ?r => destruct r as [[[? ?] ?] |] end; reflexivity.
Qed.


(** C2, as the code has it: a call of [clock_synchronize] made while
    [path_delay] is zero samples no servo and adjusts no clock (it calls no
    collaborator at all); [master_offset] is computed and stored all the
    same, as ingress - (origin + c1 + c2). *)
Theorem clock_synchronize_zero_delay ingress_ts origin_ts k1 k2 s :
  path_delay (clk s) = 0 ->
  let ingress := timespec_to_tmv ingress_ts in
  let origin := timestamp_to_tmv origin_ts in
  let a1 := correction_to_tmv k1 in
  let a2 := correction_to_tmv k2 in
  exists c',
    clock_synchronize ingress_ts origin_ts k1 k2 s
    = Some (tt, {| clk := c'; ext := ext s |}, [])
    /\ c' = synchronized ingress origin a1 a2 (clk s)
    /\ master_offset c' = ingress - (origin + a1 + a2).
Proof.
  intros Hz. cbv zeta. rewrite synchronize_head. cbv zeta.
  rewrite Hz. cbn. eexists. split; [reflexivity |]. split; [reflexivity |].
  cbn. lia.
Qed.

End Synchronize.

(** A run of [clock_synchronize_zero_delay] on the controller created over
    two interfaces. *)
Lemma clock_synchronize_zero_delay_witness :
  path_delay (clk (Demo.created Demo.quiet)) = 0
  /\ exists c',
       clock_synchronize {| tv_sec := 0; tv_nsec := 1000 |}
         {| sec := 0; nsec := 0 |} 0 0 (Demo.created Demo.quiet)
       = Some (tt, {| clk := c'; ext := ext (Demo.created Demo.quiet) |}, [])
       /\ c' = synchronized 1000 0 0 0 (clk (Demo.created Demo.quiet))
       /\ master_offset c' = 1000 - (0 + 0 + 0).
Proof.
  split; [vm_compute; reflexivity |].
  apply (clock_synchronize_zero_delay (E := Demo.env)
           {| tv_sec := 0; tv_nsec := 1000 |} {| sec := 0; nsec := 0 |} 0 0
           (Demo.created Demo.quiet)).
  vm_compute. reflexivity.
Defined.


(** The same message on a controller whose servo is locked and asks for
    1000 parts per billion: the clock is asked for the frequency
    -1000 * 65.536 = -65536. *)
Example clock_synchronize_locked_request :
  (fun r => r.2) <$>
    clock_synchronize {| tv_sec := 0; tv_nsec := 350 |}
      {| sec := 0; nsec := 100 |} 0 0 (Demo.measured Sampled.locked)
  = Some [CServoSample 500 150 350 1000%float SERVO_LOCKED;
          CClockAdjtime 0
            {| modes := ADJ_FREQUENCY; freq := -65536; time_tv_sec := 0;
               time_tv_usec := 0 |} 0].
Proof. vm_compute. reflexivity. Qed.

(** C2, as stated, fails: on the controller just created, whose filter
    has accumulated no sample and whose [path_delay] is zero, a call with
    ingress 1000 ns and origin 0 computes and stores the offset 1000. *)
Lemma clock_synchronize_offset_without_sample :
  let s := Demo.created Demo.quiet in
  path_delay (clk s) = 0
  /\ avg_delay (clk s) = Some []
  /\ master_offset (clk s) = 0
  /\ exists s',
       clock_synchronize {| tv_sec := 0; tv_nsec := 1000 |}
         {| sec := 0; nsec := 0 |} 0 0 s = Some (tt, s', [])
       /\ master_offset (clk s') = 1000.
Proof.
  cbv zeta. split; [vm_compute; reflexivity |].
  split; [vm_compute; reflexivity |]. split; [vm_compute; reflexivity |].
  eexists. split; vm_compute; reflexivity.
Qed.

(** ** Creation *)

Section Create.
Context `{E : Env}.

(** Every successful [clock_create] leaves the parent data set
    self-referential, with [grandmasterPriority2] taken from [priority1] of
    the default data set. *)
Lemma clock_create_parentDS phc iface count ds s s' tr :
  clock_create phc iface count ds s = Some (true, s', tr) ->
  dad (clk s') = self_parentDS ds (dds_priority1 ds).
Proof.
  unfold clock_create. intros H.
  apply bind_inv in H as (? & s1 & ? & ? & _ & H & _).
  apply bind_inv in H as (c0 & s2 & ? & ? & _ & H & _).
  apply bind_inv in H as (? & s3 & ? & ? & _ & H & _).
  apply bind_inv in H as (dev & s4 & ? & ? & _ & H & _).
  destruct dev as [max_adj |]; [| discriminate].
  apply bind_inv in H as (sw & s5 & ? & ? & _ & H & _).
  apply bind_inv in H as (sv & s6 & ? & ? & _ & H & _).
  apply bind_inv in H as (? & s7 & ? & ? & _ & H & _).
  destruct (sv =? NULL); [discriminate |].
  apply bind_inv in H as (mv & s8 & ? & ? & _ & H & _).
  apply bind_inv in H as (? & s9 & ? & ? & _ & H & _).
  destruct mv as [m |]; [| discriminate].
  apply bind_inv in H as (? & s10 & ? & ? & [= _ <- _] & H & _).
  apply bind_inv in H as (? & s11 & ? & ? & [= _ <- _] & H & _).
  apply bind_inv in H as (? & s12 & ? & ? & [= _ <- _] & H & _).
  apply bind_inv in H as (ok & s13 & ? & ? & Hopen & H & _).
  destruct ok; [| discriminate].
  apply bind_inv in H as (? & s14 & ? & ? & [= _ <- _] & H & _).
  apply bind_inv in H as (? & s15 & ? & ? & Hdisp & [= <- _] & _).
  assert (Ho : keeps (same_on dad) (open_ports iface 0 count))
    by (keeps_tac; reflexivity).
  apply Ho in Hopen.
  match type of Hdisp with ?m0 _ = _ =>
    assert (Hd : keeps (same_on dad) m0) by keeps_tac
  end.
  apply Hd in Hdisp.
  unfold same_on in *. cbn in Hopen, Hdisp. rewrite <- Hdisp, <- Hopen.
  reflexivity.
Qed.

End Create.

(** C1: [clock_create] over two interfaces, with a default data set of
    [priority1] 128 and [priority2] 127, succeeds and leaves the parent
    data set self-referential with the two "unknown" marks, but with
    [grandmasterPriority2] 128, the value of [priority1], where the
    default data set has 127. *)
Theorem clock_create_priority2 :
  exists s' tr,
    clock_create None Demo.two_ifaces 2 Demo.ds0 (Demo.boot Demo.quiet)
    = Some (true, s', tr)
    /\ dad (clk s') = self_parentDS Demo.ds0 128
    /\ dds_priority1 Demo.ds0 = 128
    /\ dds_priority2 Demo.ds0 = 127
    /\ grandmasterPriority2 (dad (clk s')) <> dds_priority2 (dds (clk s')).
Proof.
  eexists _, _. split; [vm_compute; reflexivity |].
  split; [vm_compute; reflexivity |]. split; [reflexivity |].
  split; [reflexivity |]. vm_compute. discriminate.
Qed.


(** ** Path delay *)

Section PathDelay.
Context `{E : Env} (ok : mave -> Prop) (Hok : filter_contract ok).

Local Ltac frame :=
  unfold preserves, delay_ok; cbn; intros; try tauto.

Lemma delay_ok_zero : delay_ok ok clock_zero.
Proof. split; cbn; [lia | discriminate]. Qed.

Lemma keeps_delay_reset :
  keeps (preserves (delay_ok ok)) reset_avg_delay.
Proof.
  intros s a s' tr H. unfold reset_avg_delay in H.
  apply bind_inv in H as (c & s1 & ? & ? & [= <- <- _] & H & _).
  apply bind_inv in H as (m & s2 & ? & ? & Hm & [= _ <- _] & _).
  apply of_option_inv in Hm as (Hm & -> & _).
  intros [Hpd Hf]. split; cbn; [exact Hpd |].
  intros m' [= <-]. apply (reset_ok _ Hok), Hf, Hm.
Qed.

Lemma keeps_delay_decision :
  keeps (preserves (delay_ok ok)) handle_state_decision_event.
Proof.
  unfold handle_state_decision_event, select_step, assign_role, role_update,
    clock_update_grandmaster, clock_update_slave.
  keeps_tac; try apply keeps_delay_reset; frame.
Qed.

Lemma keeps_delay_poll : keeps (preserves (delay_ok ok)) clock_poll.
Proof.
  unfold clock_poll, poll_scan, poll_slot.
  keeps_tac; try apply keeps_delay_decision; frame.
Qed.

Lemma keeps_delay_install p fda :
  keeps (preserves (delay_ok ok)) (clock_install_fda p fda).
Proof. unfold clock_install_fda, store_pollfd. keeps_tac; frame. Qed.

Lemma keeps_delay_synchronize ingress_ts origin_ts k1 k2 :
  keeps (preserves (delay_ok ok))
        (clock_synchronize ingress_ts origin_ts k1 k2).
Proof. unfold clock_synchronize. keeps_tac; frame. Qed.

Lemma keeps_delay_default_ds :
  keeps (preserves (delay_ok ok)) clock_default_ds.
Proof. unfold clock_default_ds. keeps_tac; frame. Qed.

Lemma keeps_delay_destroy : keeps (preserves (delay_ok ok)) clock_destroy.
Proof.
  unfold clock_destroy. keeps_tac; frame. apply delay_ok_zero.
Qed.

(** What [clock_path_delay] does, by the sign of the halved value. *)
Lemma clock_path_delay_run req rx correction s :
  let pd := tmv_div (raw_delay (clk s) req rx correction) 2 in
  clock_path_delay req rx correction s
  = if pd <? 0 then Some (tt, s, [])
    else match avg_delay (clk s) with
         | None => None
         | Some m =>
             let r := mave_accumulate m pd in
             Some (tt,
                   {| clk := set_path_delay r.2
                               (set_avg_delay (Some r.1) (clk s));
                      ext := ext s |},
                   [CMaveAccumulate pd r.2])
         end.
Proof.
  cbv zeta. unfold clock_path_delay, raw_delay, bind, get_clock.
  unfold tmv_sub, tmv_add.
  replace (t2 (clk s) - timespec_to_tmv req + (timestamp_to_tmv rx - t1 (clk s)) -
           (c1 (clk s) + (c2 (clk s) + correction_to_tmv correction)))
    with (t2 (clk s) - timespec_to_tmv req + (timestamp_to_tmv rx - t1 (clk s)) -
          (c1 (clk s) + c2 (clk s) + correction_to_tmv correction)) by lia.
  destruct (_ <? 0); [reflexivity |].
  destruct (avg_delay (clk s)) as [m |]; [| reflexivity].
  cbn. destruct (mave_accumulate m _) as [m' r]. reflexivity.
Qed.

Lemma keeps_delay_path_delay req rx correction :
  keeps (preserves (delay_ok ok)) (clock_path_delay req rx correction).
Proof.
  intros s a s' tr. rewrite clock_path_delay_run. cbv zeta.
  destruct (Z.ltb_spec (tmv_div (raw_delay (clk s) req rx correction) 2) 0)
    as [Hneg | Hpos].
  - intros [= <- <- _]. unfold preserves. auto.
  - destruct (avg_delay (clk s)) as [m |] eqn:Hm; [| discriminate].
    intros [= _ <- _] [Hpd Hf].
    destruct (accumulate_ok _ Hok m _ (Hf m Hm) Hpos) as [Hm' Hr].
    split; cbn; [exact Hr | intros m' [= <-]; exact Hm'].
Qed.

Lemma keeps_delay_create phc iface count ds :
  keeps (preserves (delay_ok ok)) (clock_create phc iface count ds).
Proof.
  intros s b s' tr H. unfold clock_create in H.
  apply bind_inv in H as (? & s1 & ? & ? & [= _ <- _] & H & _).
  apply bind_inv in H as (c0 & s2 & ? & ? & [= _ <- _] & H & _).
  apply bind_inv in H as (? & s3 & ? & ? & Hd & H & _).
  assert (H3 : preserves (delay_ok ok) (clk s) (clk s3)).
  { destruct (decide _); [injection Hd as _ <- _; frame |].
    apply keeps_delay_destroy in Hd. exact Hd. }
  apply bind_inv in H as (dev & s4 & ? & ? & Hdev & H & _).
  assert (H4 : preserves (delay_ok ok) (clk s3) (clk s4)).
  { assert (Hk : keeps (preserves (delay_ok ok)) (open_device phc))
      by (unfold open_device; keeps_tac; frame).
    exact (Hk _ _ _ _ Hdev). }
  intros I0. apply H3, H4 in I0. clear H3 H4 Hd Hdev.
  destruct dev as [max_adj |]; [| injection H as _ <- _; exact I0].
  apply bind_inv in H as (sw & s5 & ? & ? & Hsw & H & _).
  assert (H5 : clk s5 = clk s4).
  { assert (Hk : keeps (same_on id) (sw_ts_scan iface 0 count)) by keeps_tac.
    symmetry. exact (Hk _ _ _ _ Hsw). }
  apply bind_inv in H as (sv & s6 & ? & ? & Hsv & H & _).
  assert (Hk : keeps (same_on id)
                 (ext_ask (servo_create "pi" max_adj sw)
                          (CServoCreate max_adj sw))) by keeps_tac.
  apply Hk in Hsv. clear Hk.
  apply bind_inv in H as (? & s7 & ? & ? & [= _ <- _] & H & _).
  destruct (sv =? NULL).
  { injection H as _ <- _. cbn. rewrite <- Hsv, H5. exact I0. }
  apply bind_inv in H as (mv & s8 & ? & ? & Hmv & H & _).
  apply bind_inv in H as (? & s9 & ? & ? & [= _ <- _] & H & _).
  assert (I9 : delay_ok ok (set_avg_delay mv (clk s8))).
  { unfold ext_ask in Hmv. cbn in Hmv.
    destruct (mave_create MAVE_LENGTH (ext s6)) as [mv' w'] eqn:Hc.
    injection Hmv as -> <- _. cbn.
    split; cbn.
    - rewrite <- Hsv, H5. apply I0.
    - intros m ->. eapply created_ok; eauto. }
  destruct mv as [m |]; [| injection H as _ <- _; exact I9].
  match type of H with ?m0 _ = _ =>
    assert (Hk : keeps (preserves (delay_ok ok)) m0) by (keeps_tac; frame)
  end.
  exact (Hk _ _ _ _ H I9).
Qed.

(** In every state of a run the published path delay is non-negative. *)
Lemma reachable_delay_ok s : reachable s -> delay_ok ok (clk s).
Proof.
  induction 1 as [w | s w _ IH | phc iface count ds s b s' tr _ IH Hrun
                  | s d s' tr _ IH Hrun
                  | p fda s s' tr _ IH Hrun | s r s' tr _ IH Hrun
                  | req rx k s s' tr _ IH Hrun
                  | its ots k1 k2 s s' tr _ IH Hrun].
  - apply delay_ok_zero.
  - exact IH.
  - exact (keeps_delay_create _ _ _ _ _ _ _ _ Hrun IH).
  - exact (keeps_delay_default_ds _ _ _ _ Hrun IH).
  - exact (keeps_delay_install _ _ _ _ _ _ Hrun IH).
  - exact (keeps_delay_poll _ _ _ _ Hrun IH).
  - exact (keeps_delay_path_delay _ _ _ _ _ _ _ Hrun IH).
  - exact (keeps_delay_synchronize _ _ _ _ _ _ _ _ Hrun IH).
Qed.

Lemma halved_negative (raw : Z) : tmv_div raw 2 < 0 <-> raw <= -2.
Proof.
  unfold tmv_div.
  destruct (Z.le_gt_cases 0 raw) as [Hpos | Hneg].
  - pose proof (Z.quot_rem' raw 2) as Hqr.
    pose proof (Z.rem_bound_pos raw 2 Hpos ltac:(lia)). lia.
  - replace raw with (- - raw) at 1 by lia.
    rewrite Z.quot_opp_l by lia.
    pose proof (Z.quot_rem' (- raw) 2) as Hqr.
    pose proof (Z.rem_bound_pos (- raw) 2 ltac:(lia) ltac:(lia)). lia.
Qed.

(** C3, as the code has it: in every state of a run the published path
    delay is non-negative.  The sample is tested after the division by two,
    which truncates: when the raw value is -2 or less the halved value is
    negative, the call changes nothing and feeds nothing to the filter; in
    every other case, a raw value of -1 included, the halved value (0 for
    -1) is accumulated and the answer of the filter, which is not negative,
    is published. *)
Theorem clock_path_delay_spec req rx correction s :
  reachable s ->
  let raw := raw_delay (clk s) req rx correction in
  let pd := tmv_div raw 2 in
  0 <= path_delay (clk s)
  /\ (pd < 0 <-> raw <= -2)
  /\ (raw <= -2 -> clock_path_delay req rx correction s = Some (tt, s, []))
  /\ (-2 < raw ->
      forall m, avg_delay (clk s) = Some m ->
      let r := mave_accumulate m pd in
      clock_path_delay req rx correction s
      = Some (tt,
              {| clk := set_path_delay r.2 (set_avg_delay (Some r.1) (clk s));
                 ext := ext s |},
              [CMaveAccumulate pd r.2])
      /\ 0 <= pd /\ 0 <= r.2).
Proof.
  intros Hs. cbv zeta.
  pose proof (reachable_delay_ok s Hs) as [Hpd Hf].
  pose proof (halved_negative (raw_delay (clk s) req rx correction)) as Hh.
  split; [exact Hpd |]. split; [exact Hh |]. split.
  - intros Hraw. rewrite clock_path_delay_run. cbv zeta.
    destruct (Z.ltb_spec (tmv_div (raw_delay (clk s) req rx correction) 2) 0);
      [reflexivity | lia].
  - intros Hraw m Hm. rewrite clock_path_delay_run. cbv zeta.
    destruct (Z.ltb_spec (tmv_div (raw_delay (clk s) req rx correction) 2) 0)
      as [Hneg | Hpos]; [lia |].
    rewrite Hm. split; [reflexivity |]. split; [exact Hpos |].
    apply (accumulate_ok _ Hok); [apply Hf, Hm | exact Hpos].
Qed.

End PathDelay.

(** The moving average of the concrete environment meets the contract:
    its samples are never negative. *)
Lemma demo_sum_nonneg (l : list Z) :
  Forall (Z.le 0) l -> 0 <= Demo.sum l.
Proof.
  induction 1 as [| x l Hx _ IH]; cbn; [lia |]. unfold Demo.sum in IH. lia.
Qed.

Lemma demo_filter_contract :
  filter_contract (E := Demo.env) (Forall (Z.le 0)).
Proof.
  split.
  - intros len w m w' [= <- _]. constructor.
  - intros m _. constructor.
  - intros m v Hm Hv. cbn. unfold Demo.accumulate. cbn [fst snd].
    assert (Hall : Forall (Z.le 0) (take (Z.to_nat MAVE_LENGTH) (v :: m))).
    { apply Forall_take. constructor; assumption. }
    split; [exact Hall |].
    apply Z.quot_pos; [apply demo_sum_nonneg, Hall |].
    change (Z.to_nat MAVE_LENGTH) with 10%nat. cbn. lia.
Qed.

Lemma demo_created_reachable : reachable (Demo.created Demo.quiet).
Proof.
  apply (reach_create None Demo.two_ifaces 2%nat Demo.ds0
           (Demo.boot Demo.quiet) true _
           [CSrandom; CServoCreate 512000 0 500; CMaveCreate 10 true;
            CPortOpen (Demo.eth "eth0") 1 101;
            CPortOpen (Demo.eth "eth1") 2 102;
            CPortDispatch 101 EV_INITIALIZE; CPortDispatch 102 EV_INITIALIZE]).
  - apply reach_boot.
  - vm_compute. reflexivity.
Qed.

Lemma demo_measured_reachable : reachable (Demo.measured Demo.quiet).
Proof.
  apply (reach_path_delay {| tv_sec := 0; tv_nsec := 0 |}
           {| sec := 0; nsec := 200 |} 0 (Demo.created Demo.quiet) _
           [CMaveAccumulate 100 100]).
  - apply demo_created_reachable.
  - vm_compute. reflexivity.
Qed.

(** [clock_path_delay_spec] on the controller that has measured 100 ns,
    for a raw value of -1. *)
Lemma clock_path_delay_spec_witness :
  let s := Demo.measured Demo.quiet in
  let req := {| tv_sec := 0; tv_nsec := 1 |} in
  let rx := {| sec := 0; nsec := 0 |} in
  let raw := raw_delay (clk s) req rx 0 in
  let pd := tmv_div raw 2 in
  0 <= path_delay (clk s)
  /\ (pd < 0 <-> raw <= -2)
  /\ (raw <= -2 -> clock_path_delay req rx 0 s = Some (tt, s, []))
  /\ (-2 < raw ->
      forall m, avg_delay (clk s) = Some m ->
      let r := mave_accumulate m pd in
      clock_path_delay req rx 0 s
      = Some (tt,
              {| clk := set_path_delay r.2 (set_avg_delay (Some r.1) (clk s));
                 ext := ext s |},
              [CMaveAccumulate pd r.2])
      /\ 0 <= pd /\ 0 <= r.2).
Proof.
  exact (clock_path_delay_spec (E := Demo.env) (Forall (Z.le 0))
           demo_filter_contract {| tv_sec := 0; tv_nsec := 1 |}
           {| sec := 0; nsec := 0 |} 0 (Demo.measured Demo.quiet)
           demo_measured_reachable).
Defined.

(** C3, as stated, fails: the controller has measured and published a
    path delay of 100 ns; a request sent at 1 ns and answered at 0 ns makes
    the raw value -1, which is negative, yet the sample is not discarded:
    the filter is fed 0 and the published path delay changes from 100 to
    50. *)
Lemma clock_path_delay_raw_minus_one :
  let s := Demo.measured Demo.quiet in
  let req := {| tv_sec := 0; tv_nsec := 1 |} in
  let rx := {| sec := 0; nsec := 0 |} in
  reachable s
  /\ path_delay (clk s) = 100
  /\ raw_delay (clk s) req rx 0 = -1
  /\ exists s',
       clock_path_delay req rx 0 s = Some (tt, s', [CMaveAccumulate 0 50])
       /\ path_delay (clk s') = 50
       /\ avg_delay (clk s') = Some [0; 100].
Proof.
  cbv zeta. split; [apply demo_measured_reachable |].
  split; [vm_compute; reflexivity |]. split; [vm_compute; reflexivity |].
  eexists. split; vm_compute; [reflexivity |]. split; reflexivity.
Qed.

(** ** The poll table *)

Section Install.
Context `{E : Env}.

Lemma find_port_missing (ports : list ptr) (p : ptr) (i n : nat) :
  (forall i', (i <= i' < i + n)%nat ->
     exists q, ports !! i' = Some q /\ q <> p) ->
  find_port ports p i n = Some (i + n)%nat.
Proof.
  revert i. induction n as [| n IH]; intros i Hne; cbn [find_port].
  - f_equal. lia.
  - destruct (Hne i ltac:(lia)) as (q & -> & Hq).
    destruct (Z.eqb_spec p q) as [-> | _]; [congruence |].
    rewrite IH; [f_equal; lia |]. intros i' Hi'. apply Hne. lia.
Qed.

Lemma find_port_found (ports : list ptr) (p : ptr) (i0 n i : nat) :
  (i0 <= i < i0 + n)%nat ->
  ports !! i = Some p ->
  (forall i', (i0 <= i' < i)%nat -> exists q, ports !! i' = Some q /\ q <> p) ->
  find_port ports p i0 n = Some i.
Proof.
  revert i0. induction n as [| n IH]; intros i0 Hi Hp Hne; [lia |].
  cbn [find_port]. destruct (decide (i0 = i)) as [-> | Hd].
  - rewrite Hp, Z.eqb_refl. reflexivity.
  - destruct (Hne i0 ltac:(lia)) as (q & -> & Hq).
    destruct (Z.eqb_spec p q) as [-> | _]; [congruence |].
    apply IH; [lia | exact Hp |]. intros i' Hi'. apply Hne. lia.
Qed.

Lemma set_pollfds_same (c : clock mave) : set_pollfds (pollfds c) c = c.
Proof. destruct c; reflexivity. Qed.

(** The loop of [clock_install_fda] from slot [j0] on, [n] slots, while
    they are inside the table. *)
Lemma install_loop (fds : list Z) (i n j0 : nat) s :
  (N_POLLFD * i + j0 + n <= length (pollfds (clk s)))%nat ->
  (j0 + n <= length fds)%nat ->
  exists pf,
    for_each (seq j0 n) (fun j =>
      let* v := of_option (fds !! j) in
      store_pollfd (N_POLLFD * i + j) (install_entry v)) s
    = Some (tt, {| clk := set_pollfds pf (clk s); ext := ext s |}, [])
    /\ length pf = length (pollfds (clk s))
    /\ forall k : nat,
         pf !! k
         = if decide (N_POLLFD * i + j0 <= k < N_POLLFD * i + j0 + n)%nat
           then install_entry (fds !!! (k - N_POLLFD * i)%nat)
                  <$> pollfds (clk s) !! k
           else pollfds (clk s) !! k.
Proof.
  revert j0 s. induction n as [| n IH]; intros j0 s Hk Hj.
  - exists (pollfds (clk s)). cbn. rewrite set_pollfds_same, state_eta.
    split; [reflexivity |]. split; [reflexivity |].
    intros k. destruct (decide _); [lia | reflexivity].
  - cbn [seq for_each].
    destruct (lookup_lt_is_Some_2 fds j0 ltac:(lia)) as [v Hv].
    destruct (lookup_lt_is_Some_2 (pollfds (clk s)) (N_POLLFD * i + j0)
                ltac:(lia)) as [e He].
    set (s1 := {| clk := set_pollfds
                           (<[(N_POLLFD * i + j0)%nat := install_entry v e]>
                              (pollfds (clk s))) (clk s);
                  ext := ext s |}).
    destruct (IH (S j0) s1) as (pf & Hrun & Hlen & Hpf).
    { subst s1. cbn. rewrite length_insert. lia. }
    { lia. }
    exists pf. split; [| split].
    + eapply (bind_run _ _ s tt s1 []); [| exact Hrun].
      eapply (bind_run _ _ s v s []).
      * rewrite Hv. reflexivity.
      * unfold store_pollfd.
        eapply (bind_run _ _ s e s []); [apply pollfd_at_run, He |].
        reflexivity.
    + rewrite Hlen. subst s1. cbn. apply length_insert.
    + intros k. rewrite Hpf. subst s1. cbn.
      destruct (decide (k = N_POLLFD * i + j0)%nat) as [-> | Hne].
      * rewrite list_lookup_insert_eq by lia. rewrite He.
        destruct (decide _); [lia |]. destruct (decide _); [| lia].
        cbn. do 2 f_equal. replace (N_POLLFD * i + j0 - N_POLLFD * i)%nat
          with j0 by lia.
        symmetry. apply list_lookup_total_correct, Hv.
      * rewrite list_lookup_insert_ne by lia.
        destruct (decide _), (decide _); try lia; reflexivity.
Qed.

(** The first write of the loop goes outside the table. *)
Lemma install_loop_outside (fds : list Z) (i n : nat) s :
  (length (pollfds (clk s)) <= N_POLLFD * i)%nat ->
  for_each (seq 0 (S n)) (fun j =>
    let* v := of_option (fds !! j) in
    store_pollfd (N_POLLFD * i + j) (install_entry v)) s = None.
Proof.
  intros Hlen. cbn [seq for_each]. unfold bind at 1. unfold bind at 1.
  destruct (fds !! 0%nat) as [v |]; [| reflexivity]. cbn.
  unfold store_pollfd, bind, pollfd_at, get_clock. cbn.
  rewrite lookup_ge_None_2 by lia. reflexivity.
Qed.

Lemma clock_install_fda_at p fda i s :
  find_port (port (clk s)) p 0 (nports (clk s)) = Some i ->
  (N_POLLFD * i + cnt fda <= length (pollfds (clk s)))%nat ->
  (cnt fda <= length (fda_fd fda))%nat ->
  exists pf,
    clock_install_fda p fda s
    = Some (tt, {| clk := set_pollfds pf (clk s); ext := ext s |}, [])
    /\ installed fda i (pollfds (clk s)) pf.
Proof.
  intros Hfind Hk Hc.
  destruct (install_loop (fda_fd fda) i (cnt fda) 0 s) as (pf & Hrun & Hlen & Hpf);
    [lia | lia |].
  exists pf. split.
  - unfold clock_install_fda.
    eapply (bind_run _ _ s (clk s) s [] tt _ []); [reflexivity |].
    eapply (bind_run _ _ s i s [] tt _ []); [rewrite Hfind; reflexivity |].
    exact Hrun.
  - split; [exact Hlen |]. intros k. rewrite Hpf.
    replace (N_POLLFD * i + 0)%nat with (N_POLLFD * i)%nat by lia.
    reflexivity.
Qed.

(** C10: [clock_install_fda] for a port [p] of the controller, at index
    [i], and at most [N_POLLFD] descriptors writes the first [cnt] entries
    of block [i] of the poll table and changes nothing else.  For a [p]
    that is not among the [nports] ports the search ends at [nports]: below
    the largest port count the writes go to block [nports], and at the
    largest port count the first write is outside the table. *)
Theorem clock_install_fda_spec p fda s :
  wf (clk s) ->
  (cnt fda <= N_POLLFD)%nat ->
  length (fda_fd fda) = N_POLLFD ->
  (forall i,
     (i < nports (clk s))%nat ->
     port (clk s) !! i = Some p ->
     (forall i', (i' < i)%nat -> port (clk s) !! i' <> Some p) ->
     exists pf,
       clock_install_fda p fda s
       = Some (tt, {| clk := set_pollfds pf (clk s); ext := ext s |}, [])
       /\ installed fda i (pollfds (clk s)) pf)
  /\ ((forall i, (i < nports (clk s))%nat -> port (clk s) !! i <> Some p) ->
      find_port (port (clk s)) p 0 (nports (clk s)) = Some (nports (clk s))
      /\ ((nports (clk s) < MAX_PORTS)%nat ->
          exists pf,
            clock_install_fda p fda s
            = Some (tt, {| clk := set_pollfds pf (clk s); ext := ext s |}, [])
            /\ installed fda (nports (clk s)) (pollfds (clk s)) pf)
      /\ (nports (clk s) = MAX_PORTS -> (0 < cnt fda)%nat ->
          clock_install_fda p fda s = None)).
Proof.
  intros (Hports & Hpfds & Hn) Hcnt Hfds.
  assert (Hother : forall i q,
             (i < nports (clk s))%nat -> port (clk s) !! i <> Some q ->
             exists q', port (clk s) !! i = Some q' /\ q' <> q).
  { intros i q Hi Hq.
    destruct (lookup_lt_is_Some_2 (port (clk s)) i ltac:(lia)) as [q' Hq'].
    exists q'. split; [exact Hq' | congruence]. }
  split.
  - intros i Hi Hp Hfirst. apply clock_install_fda_at.
    + apply find_port_found; [lia | exact Hp |].
      intros i' Hi'. apply Hother; [lia | apply Hfirst; lia].
    + rewrite Hpfds. nia.
    + lia.
  - intros Hnone.
    assert (Hfind : find_port (port (clk s)) p 0 (nports (clk s))
                    = Some (nports (clk s))).
    { rewrite find_port_missing; [reflexivity |].
      intros i' Hi'. apply Hother; [lia | apply Hnone; lia]. }
    split; [exact Hfind |]. split.
    + intros Hlt. apply clock_install_fda_at; [exact Hfind | | lia].
      rewrite Hpfds. nia.
    + intros Hmax Hpos. unfold clock_install_fda.
      unfold bind at 1. cbn. unfold bind at 1. rewrite Hfind. cbn.
      destruct (cnt fda) as [| n]; [lia |].
      rewrite install_loop_outside; [reflexivity |].
      rewrite Hpfds, Hmax. lia.
Qed.

End Install.

(** ** The decision round *)

Section Decision.
Context `{E : Env}.

Lemma ports_in_use (c : clock mave) :
  wf c ->
  Forall2 (fun i p => port c !! i = Some p)
          (seq 0 (nports c)) (take (nports c) (port c)).
Proof.
  intros (Hlen & _ & Hn).
  apply Forall2_same_length_lookup_2.
  - rewrite length_seq, length_take. lia.
  - intros i x p Hx Hp. apply lookup_seq in Hx as [-> Hi].
    rewrite lookup_take_lt in Hp by lia. exact Hp.
Qed.

Lemma select_step_run i acc s p :
  port (clk s) !! i = Some p ->
  let r := port_compute_best p (ext s) in
  select_step i acc s
  = Some (prefer r.2 acc r.1, {| clk := clk s; ext := r.2 |},
          [CPortComputeBest p r.1]).
Proof.
  intros Hp. cbv zeta. unfold select_step.
  rewrite (bind_run _ _ s p s []
             (prefer (port_compute_best p (ext s)).2 acc
                     (port_compute_best p (ext s)).1)
             {| clk := clk s; ext := (port_compute_best p (ext s)).2 |}
             [CPortComputeBest p (port_compute_best p (ext s)).1]);
    [reflexivity | apply port_at_run, Hp |].
  unfold bind, ext_ask, prefer.
  destruct (port_compute_best p (ext s)) as [fc w]. cbn.
  destruct (fc =? NULL); [reflexivity |].
  destruct (acc =? NULL); [reflexivity |].
  destruct (dscmp _ _ >? 0); reflexivity.
Qed.

(** The selection loop over the ports [ps]: it never faults, leaves the
    controller as it was, calls [port_compute_best] once per port, in
    order, and folds the answers with [prefer]. *)
Lemma scan_run (l : list nat) (ps : list ptr) acc s :
  Forall2 (fun i p => port (clk s) !! i = Some p) l ps ->
  exists s1 (rws : list (ptr * world)),
    for_fold l select_step acc s
    = Some (foldl (fun a rw => prefer rw.2 a rw.1) acc rws, s1,
            zip_with CPortComputeBest ps rws.*1)
    /\ length rws = length l
    /\ clk s1 = clk s.
Proof.
  intros H. revert acc s H.
  induction l as [| i l IH] in ps |- *; intros acc s H.
  - apply Forall2_nil_inv_l in H as ->. exists s, []. auto.
  - apply Forall2_cons_inv_l in H as (p & ps' & Hp & Hps & ->).
    pose proof (select_step_run i acc s p Hp) as Hstep. cbv zeta in Hstep.
    destruct (port_compute_best p (ext s)) as [fc w] eqn:Hbest.
    cbn [fst snd] in Hstep.
    destruct (IH ps' (prefer w acc fc) {| clk := clk s; ext := w |} Hps)
      as (s1 & rws & Hrun & Hlen & Hclk).
    exists s1, ((fc, w) :: rws). split; [| split].
    + cbn [for_fold].
      rewrite (bind_run (select_step i acc) (fun x => for_fold l select_step x)
                 _ _ _ _ _ _ _ Hstep Hrun).
      reflexivity.
    + cbn. lia.
    + exact Hclk.
Qed.

Lemma prefer_null w acc : prefer w acc NULL = acc.
Proof. reflexivity. Qed.

Lemma fold_prefer_null (rws : list (ptr * world)) acc :
  Forall (fun r => r = NULL) rws.*1 ->
  foldl (fun a rw => prefer rw.2 a rw.1) acc rws = acc.
Proof.
  induction rws as [| [r w] rws IH]; cbn; [reflexivity |].
  intros [-> Hall]%Forall_cons. rewrite prefer_null. apply IH, Hall.
Qed.

Lemma prefer_pick rank w acc fc :
  ranked_by rank -> prefer w acc fc = pick rank acc fc.
Proof.
  intros Hr. unfold prefer, pick.
  destruct (Z.eqb_spec fc NULL) as [| Hfc]; [reflexivity |].
  destruct (Z.eqb_spec acc NULL) as [| Hacc]; [reflexivity |].
  specialize (Hr w fc acc Hfc Hacc).
  destruct (Z.gtb_spec (dscmp (fc_dataset fc w) (fc_dataset acc w)) 0),
           (Z.gtb_spec (rank fc) (rank acc)); try reflexivity; lia.
Qed.

Lemma fold_prefer_pick rank (rws : list (ptr * world)) acc :
  ranked_by rank ->
  foldl (fun a rw => prefer rw.2 a rw.1) acc rws
  = foldl (pick rank) acc rws.*1.
Proof.
  intros Hr. revert acc. induction rws as [| [r w] rws IH]; intros acc; cbn;
    [reflexivity |].
  rewrite (prefer_pick rank) by exact Hr. apply IH.
Qed.

(** What the fold by rank selects: nothing when no port answered, and
    otherwise the earliest answer of greatest rank. *)
Lemma fold_pick_earliest rank (rs : list ptr) :
  let b := foldl (pick rank) NULL rs in
  (b = NULL /\ Forall (fun r => r = NULL) rs)
  \/ (b <> NULL
      /\ exists j : nat,
           rs !! j = Some b
           /\ (forall (i : nat) a, rs !! i = Some a -> a <> NULL ->
                 rank a <= rank b)
           /\ (forall (i : nat) a, (i < j)%nat -> rs !! i = Some a ->
                 a <> NULL -> rank a < rank b)).
Proof.
  cbv zeta. induction rs as [| r rs IH] using rev_ind.
  - left. split; [reflexivity | constructor].
  - rewrite foldl_app. cbn [foldl]. set (b := foldl (pick rank) NULL rs) in *.
    unfold pick.
    destruct (Z.eqb_spec r NULL) as [-> | Hr].
    { destruct IH as [[Hb Hall] | (Hb & j & Hj & Hmax & Hfirst)].
      - left. split; [exact Hb |]. apply Forall_app. split; [exact Hall |].
        repeat constructor.
      - right. split; [exact Hb |]. exists j. split; [| split].
        + rewrite lookup_app_l; [exact Hj |]. eapply lookup_lt_Some, Hj.
        + intros i a Hi Ha.
          apply lookup_app_Some in Hi as [Hi | [_ Hi]]; [eauto |].
          apply list_lookup_singleton_Some in Hi as [_ <-]. congruence.
        + intros i a Hij Hi Ha.
          rewrite lookup_app_l in Hi; [eauto |].
          apply lookup_lt_Some in Hj. lia. }
    destruct (Z.eqb_spec b NULL) as [Hb | Hb].
    { destruct IH as [[_ Hall] | (Hb' & _)]; [| congruence].
      right. split; [exact Hr |]. exists (length rs). split; [| split].
      - rewrite lookup_app_r, Nat.sub_diag by lia. reflexivity.
      - intros i a Hi Ha.
        apply lookup_app_Some in Hi as [Hi | [_ Hi]].
        + rewrite Forall_lookup in Hall. specialize (Hall _ _ Hi). congruence.
        + apply list_lookup_singleton_Some in Hi as [_ <-]. lia.
      - intros i a Hij Hi Ha. rewrite lookup_app_l in Hi by lia.
        rewrite Forall_lookup in Hall. specialize (Hall _ _ Hi). congruence. }
    destruct IH as [[Hb' _] | (_ & j & Hj & Hmax & Hfirst)]; [congruence |].
    right. destruct (Z.gtb_spec (rank r) (rank b)) as [Hgt | Hle].
    + split; [exact Hr |]. exists (length rs). split; [| split].
      * rewrite lookup_app_r, Nat.sub_diag by lia. reflexivity.
      * intros i a Hi Ha.
        apply lookup_app_Some in Hi as [Hi | [_ Hi]].
        -- specialize (Hmax _ _ Hi Ha). lia.
        -- apply list_lookup_singleton_Some in Hi as [_ <-]. lia.
      * intros i a Hij Hi Ha. rewrite lookup_app_l in Hi by lia.
        specialize (Hmax _ _ Hi Ha). lia.
    + split; [exact Hb |]. exists j. split; [| split].
      * rewrite lookup_app_l; [exact Hj |]. eapply lookup_lt_Some, Hj.
      * intros i a Hi Ha.
        apply lookup_app_Some in Hi as [Hi | [_ Hi]]; [eauto |].
        apply list_lookup_singleton_Some in Hi as [_ <-]. lia.
      * intros i a Hij Hi Ha.
        rewrite lookup_app_l in Hi; [eauto |].
        apply lookup_lt_Some in Hj. lia.
Qed.

(** *** The second loop: roles *)

Lemma role_event_not_decision ps : is_state_decision (role_event ps) = false.
Proof. destruct ps; reflexivity. Qed.

Lemma keeps_assign_role R `{!PreOrder R} i :
  (forall c v, R c (set_cur v c)) -> (forall c v, R c (set_dad v c)) ->
  (forall c v, R c (set_tds v c)) ->
  keeps R (assign_role i).
Proof.
  intros Hcur Hdad Htds.
  assert (Hall : forall c v1 v2 v3, R c (set_tds v1 (set_dad v2 (set_cur v3 c)))).
  { intros c v1 v2 v3. transitivity (set_cur v3 c); [apply Hcur |].
    transitivity (set_dad v2 (set_cur v3 c)); [apply Hdad | apply Htds]. }
  unfold assign_role, role_update, clock_update_grandmaster,
    clock_update_slave.
  keeps_tac; try apply Hall; reflexivity.
Qed.

Lemma round_frame_inv (c c' : clock mave) :
  round_frame c' = round_frame c ->
  port c' = port c /\ best c' = best c /\ avg_delay c' = avg_delay c
  /\ nports c' = nports c.
Proof. unfold round_frame. intros [= -> -> -> -> _ _]. auto. Qed.

Lemma assign_role_run i s p :
  port (clk s) !! i = Some p ->
  exists s',
    let ps := bmc_state_decision (clk s) p (ext s) in
    assign_role i s
    = Some (tt, s', [CBmcStateDecision p ps; CPortDispatch p (role_event ps)])
    /\ round_frame (clk s') = round_frame (clk s).
Proof.
  intros Hp. cbv zeta. unfold assign_role.
  unfold bind at 1. rewrite (port_at_run _ _ _ Hp).
  unfold bind at 1. cbn [get_clock].
  unfold bind at 1. unfold ext_ask at 1. cbn.
  destruct (bmc_state_decision (clk s) p (ext s)); cbn;
    eexists; (split; [reflexivity |]); reflexivity.
Qed.

Lemma assign_roles_run (l : list nat) s :
  (forall i, i ∈ l -> is_Some (port (clk s) !! i)) ->
  exists s' tr,
    for_each l assign_role s = Some (tt, s', tr)
    /\ round_frame (clk s') = round_frame (clk s)
    /\ forallb role_call tr = true.
Proof.
  revert s. induction l as [| i l IH]; intros s Hl.
  - exists s, []. auto.
  - destruct (Hl i ltac:(left)) as [p Hp].
    destruct (assign_role_run i s p Hp) as (s1 & Hrun & Hfr).
    cbv zeta in Hrun.
    destruct (IH s1) as (s' & tr & Hrest & Hfr' & Htr).
    { intros j Hj. apply round_frame_inv in Hfr as (-> & _).
      apply Hl. right. exact Hj. }
    eexists s', _. split; [| split].
    + cbn [for_each].
      rewrite (bind_run (assign_role i) (fun _ => for_each l assign_role)
                 _ _ _ _ _ _ _ Hrun Hrest).
      reflexivity.
    + congruence.
    + cbn [app forallb role_call]. rewrite role_event_not_decision.
      exact Htr.
Qed.

Lemma reset_avg_delay_run s m :
  avg_delay (clk s) = Some m ->
  reset_avg_delay s
  = Some (tt, {| clk := set_avg_delay (Some (mave_reset m)) (clk s);
                 ext := ext s |}, [CMaveReset]).
Proof.
  intros Hm. unfold reset_avg_delay, bind, get_clock. rewrite Hm. reflexivity.
Qed.

(** A whole round.  The first loop asks every port in use, in order, and
    never faults; without a candidate the round ends there; with a
    candidate [b] the filter is reset when [b] is not the candidate held
    so far, [b] is recorded, and the second loop makes role calls only. *)
Lemma decision_run s :
  wf (clk s) ->
  exists s1 (rws : list (ptr * world)),
    let b := foldl (fun a rw => prefer rw.2 a rw.1) NULL rws in
    let asked :=
      zip_with CPortComputeBest (take (nports (clk s)) (port (clk s)))
               rws.*1 in
    best_scan s = Some (b, s1, asked)
    /\ length rws = nports (clk s)
    /\ clk s1 = clk s
    /\ (b = NULL -> handle_state_decision_event s = Some (tt, s1, asked))
    /\ (b <> NULL ->
        forall m, avg_delay (clk s) = Some m ->
        exists s' roles,
          handle_state_decision_event s
          = Some (tt, s',
                  asked ++ (if best (clk s) =? b then [] else [CMaveReset])
                        ++ roles)
          /\ best (clk s') = b
          /\ port (clk s') = port (clk s)
          /\ nports (clk s') = nports (clk s)
          /\ avg_delay (clk s')
             = Some (if best (clk s) =? b then m else mave_reset m)
          /\ forallb role_call roles = true).
Proof.
  intros Hwf.
  destruct (scan_run _ _ NULL s (ports_in_use _ Hwf))
    as (s1 & rws & Hscan & Hlen & Hclk).
  rewrite length_seq in Hlen.
  exists s1, rws. cbv zeta.
  set (b := foldl (fun a rw => prefer rw.2 a rw.1) NULL rws) in *.
  set (asked := zip_with CPortComputeBest _ _) in *.
  split; [exact Hscan |]. split; [exact Hlen |]. split; [exact Hclk |].
  assert (Hhead :
    handle_state_decision_event s
    = match (if b =? NULL then ret tt
             else
               let* _ := (if best (clk s) =? b then ret tt
                          else reset_avg_delay) in
               let* _ := modify (set_best b) in
               for_each (seq 0 (nports (clk s))) assign_role) s1 with
      | Some (u, s', tr) => Some (u, s', asked ++ tr)
      | None => None
      end).
  { unfold handle_state_decision_event.
    unfold bind at 1. cbn [get_clock]. unfold bind at 1.
    rewrite Hscan.
    match goal with
    | |- _ = match ?x with _ => _ end => destruct x as [[[[] ?] ?] |]
    end; reflexivity. }
  split.
  - intros Hb. rewrite Hhead, Hb. cbn. rewrite app_nil_r. reflexivity.
  - intros Hb m Hm. rewrite Hhead.
    destruct (Z.eqb_spec b NULL) as [| _]; [contradiction |].
    assert (Hports : forall c' : clock mave,
               port c' = port (clk s) ->
               forall i, i ∈ seq 0 (nports (clk s)) -> is_Some (port c' !! i)).
    { intros c' Hc' i Hi. apply elem_of_seq in Hi. rewrite Hc'.
      apply lookup_lt_is_Some_2. destruct Hwf as (Hl & _ & Hn). lia. }
    destruct (Z.eqb_spec (best (clk s)) b) as [Hsame | Hdiff].
    + set (s2 := {| clk := set_best b (clk s1); ext := ext s1 |}).
      destruct (assign_roles_run (seq 0 (nports (clk s))) s2)
        as (s' & roles & Hroles & Hfr & Hcalls).
      { apply Hports. subst s2. cbn. rewrite Hclk. reflexivity. }
      exists s', roles.
      unfold bind at 1. cbn [ret]. unfold bind at 1. cbn [modify].
      fold s2. rewrite Hroles. cbn [app].
      apply round_frame_inv in Hfr as (Hp & Hb' & Ha & Hn).
      subst s2. cbn in *. rewrite Hclk in *. repeat split; congruence.
    + set (s2 := {| clk := set_best b
                             (set_avg_delay (Some (mave_reset m)) (clk s1));
                    ext := ext s1 |}).
      destruct (assign_roles_run (seq 0 (nports (clk s))) s2)
        as (s' & roles & Hroles & Hfr & Hcalls).
      { apply Hports. subst s2. cbn. rewrite Hclk. reflexivity. }
      exists s', roles.
      unfold bind at 1. rewrite (reset_avg_delay_run s1 m) by congruence.
      unfold bind at 1. cbn [modify]. cbn [clk ext].
      fold s2. rewrite Hroles. cbn [app].
      apply round_frame_inv in Hfr as (Hp & Hb' & Ha & Hn).
      subst s2. cbn in *. rewrite Hclk in *. repeat split; congruence.
Qed.

Lemma asked_calls (ps rs : list ptr) c :
  In c (zip_with CPortComputeBest ps rs) ->
  exists p r, c = CPortComputeBest p r.
Proof.
  revert rs. induction ps as [| p ps IH]; intros [| r rs]; cbn; try tauto.
  intros [<- | H]; eauto.
Qed.

(** A round records the candidate it selects. *)
Lemma decision_records s s' tr b :
  handle_state_decision_event s = Some (tt, s', tr) ->
  selected s = Some b -> b <> NULL -> best (clk s') = b.
Proof.
  unfold selected, best_scan, handle_state_decision_event.
  intros H Hsel Hb.
  apply bind_inv in H as (c & s0 & ? & ? & [= <- <- _] & H & _).
  apply bind_inv in H as (b' & s1 & ? & ? & Hscan & H & _).
  rewrite Hscan in Hsel. injection Hsel as ->.
  destruct (Z.eqb_spec b NULL) as [| _]; [contradiction |].
  apply bind_inv in H as (? & s2 & ? & ? & Hreset & H & _).
  apply bind_inv in H as (? & s3 & ? & ? & [= _ <- _] & H & _).
  assert (Hk : keeps (same_on best)
                 (for_each (seq 0 (nports (clk s))) assign_role)).
  { keeps_tac. apply keeps_assign_role; [apply _ | reflexivity ..]. }
  apply Hk in H. unfold same_on in H. cbn in H. congruence.
Qed.

(** C9: a round in which no port reports a candidate asks every port in
    use once, in order, makes no other call (no reset of the filter, no
    dispatch), and leaves the controller record exactly as it was: the
    candidate held, the filter and the data sets are untouched. *)
Theorem decision_without_candidate s :
  wf (clk s) ->
  exists s1 (rs : list ptr),
    let asked :=
      zip_with CPortComputeBest (take (nports (clk s)) (port (clk s))) rs in
    length rs = nports (clk s)
    /\ (exists b, best_scan s = Some (b, s1, asked))
    /\ clk s1 = clk s
    /\ (Forall (fun r => r = NULL) rs ->
        handle_state_decision_event s = Some (tt, s1, asked)).
Proof.
  intros Hwf.
  destruct (decision_run s Hwf) as (s1 & rws & Hscan & Hlen & Hclk & Hnone & _).
  cbv zeta in *. exists s1, rws.*1.
  split; [rewrite length_fmap; exact Hlen |].
  split; [eexists; exact Hscan |]. split; [exact Hclk |].
  intros Hall. apply Hnone. apply fold_prefer_null, Hall.
Qed.

(** Between two rounds the candidate held is not written: the operations
    other than a round leave [best] alone. *)
Lemma best_kept_between_rounds :
  (forall its ots k1 k2,
     keeps (same_on best) (clock_synchronize its ots k1 k2))
  /\ (forall req rx k, keeps (same_on best) (clock_path_delay req rx k))
  /\ (forall p fda, keeps (same_on best) (clock_install_fda p fda))
  /\ keeps (same_on best) clock_default_ds.
Proof.
  split; [| split; [| split]].
  - intros. unfold clock_synchronize. keeps_tac; reflexivity.
  - intros req rx k s a s' tr. rewrite clock_path_delay_run. cbv zeta.
    destruct (_ <? 0); [intros [= <- <- _]; reflexivity |].
    destruct (avg_delay (clk s)); [| discriminate].
    intros [= _ <- _]. reflexivity.
  - intros. unfold clock_install_fda, store_pollfd. keeps_tac; reflexivity.
  - unfold clock_default_ds. keeps_tac; reflexivity.
Qed.

(** C4: of two consecutive rounds that each select a candidate, the
    second resets the moving average exactly when its candidate is not the
    one the first round selected; a round that selects the same candidate
    again leaves the filter as it is. *)
Theorem filter_reset_iff_best_changes s1 s1' t1 b1 s2 b2 m :
  handle_state_decision_event s1 = Some (tt, s1', t1) ->
  selected s1 = Some b1 -> b1 <> NULL ->
  best (clk s2) = best (clk s1') ->
  wf (clk s2) -> avg_delay (clk s2) = Some m ->
  selected s2 = Some b2 -> b2 <> NULL ->
  exists s2' t2,
    handle_state_decision_event s2 = Some (tt, s2', t2)
    /\ best (clk s2') = b2
    /\ (In CMaveReset t2 <-> b2 <> b1)
    /\ avg_delay (clk s2')
       = Some (if decide (b2 = b1) then m else mave_reset m).
Proof.
  intros Hr1 Hsel1 Hb1 Hbetween Hwf Hm Hsel2 Hb2.
  pose proof (decision_records _ _ _ _ Hr1 Hsel1 Hb1) as Hrec.
  destruct (decision_run s2 Hwf) as (sa & rws & Hscan & _ & _ & _ & Hsome).
  cbv zeta in *. unfold selected in Hsel2. rewrite Hscan in Hsel2.
  injection Hsel2 as Hsel2. cbn in Hsel2. rewrite Hsel2 in *.
  destruct (Hsome Hb2 m Hm) as (s2' & roles & Hrun & Hbest & _ & _ & Hf & Hroles).
  exists s2'. eexists. split; [exact Hrun |]. split; [exact Hbest |].
  rewrite Hbetween, Hrec in *.
  assert (Hnot : ~ In CMaveReset roles).
  { intros Hin. rewrite forallb_forall in Hroles.
    specialize (Hroles _ Hin). discriminate. }
  destruct (Z.eqb_spec b1 b2) as [-> | Hne].
  - split.
    + split; [| congruence]. cbn [app]. rewrite in_app_iff.
      intros [(p & r & [=])%asked_calls | Hin]; contradiction.
    + rewrite decide_True by reflexivity. exact Hf.
  - split.
    + split; [congruence |]. intros _. rewrite in_app_iff. right. left.
      reflexivity.
    + rewrite decide_False by congruence. exact Hf.
Qed.

(** C6: in the selection loop a candidate replaces the one kept so far
    only when there was none or the comparator answers a value greater
    than zero, so that on a tie the candidate of the earlier port stays.
    For a comparator that is a total preorder, a round selects the earliest
    reported candidate among those that no candidate beats: the selection
    beats every candidate reported before it, and a candidate that ties
    with it comes from the same or a later port.  The round records that
    selection. *)
Theorem selection_keeps_earlier_on_ties rank s :
  wf (clk s) -> ranked_by rank ->
  (forall i acc s0 p,
     port (clk s0) !! i = Some p ->
     exists fc w,
       port_compute_best p (ext s0) = (fc, w)
       /\ select_step i acc s0
          = Some (prefer w acc fc, {| clk := clk s0; ext := w |},
                  [CPortComputeBest p fc])
       /\ (prefer w acc fc <> acc ->
           prefer w acc fc = fc /\ fc <> NULL
           /\ (acc = NULL \/ dscmp (fc_dataset fc w) (fc_dataset acc w) > 0))
       /\ (acc <> NULL -> dscmp (fc_dataset fc w) (fc_dataset acc w) <= 0 ->
           prefer w acc fc = acc))
  /\ exists b s1 (rs : list ptr),
       best_scan s
       = Some (b, s1,
               zip_with CPortComputeBest
                        (take (nports (clk s)) (port (clk s))) rs)
       /\ length rs = nports (clk s)
       /\ (b = NULL -> Forall (fun r => r = NULL) rs)
       /\ (b <> NULL ->
           exists j : nat,
             rs !! j = Some b
             /\ (forall (i : nat) a w, rs !! i = Some a -> a <> NULL ->
                   ~ dscmp (fc_dataset a w) (fc_dataset b w) > 0)
             /\ (forall (i : nat) a w, (i < j)%nat -> rs !! i = Some a ->
                   a <> NULL ->
                   dscmp (fc_dataset b w) (fc_dataset a w) > 0)
             /\ (forall (i : nat) a w, rs !! i = Some a -> a <> NULL ->
                   dscmp (fc_dataset b w) (fc_dataset a w) = 0 ->
                   (j <= i)%nat)
             /\ forall m, avg_delay (clk s) = Some m ->
                 exists s' tr,
                   handle_state_decision_event s = Some (tt, s', tr)
                   /\ best (clk s') = b).
Proof.
  intros Hwf Hrank. split.
  - intros i acc s0 p Hp.
    pose proof (select_step_run i acc s0 p Hp) as Hstep. cbv zeta in Hstep.
    destruct (port_compute_best p (ext s0)) as [fc w]. cbn [fst snd] in Hstep.
    exists fc, w. split; [reflexivity |]. split; [exact Hstep |].
    unfold prefer. split.
    + destruct (Z.eqb_spec fc NULL) as [| Hfc]; [congruence |].
      destruct (Z.eqb_spec acc NULL) as [| Hacc]; [auto |].
      destruct (Z.gtb_spec (dscmp (fc_dataset fc w) (fc_dataset acc w)) 0);
        [| congruence].
      intros _. repeat split; [exact Hfc | right; lia].
    + intros Hacc Hle.
      destruct (Z.eqb_spec fc NULL) as [| Hfc]; [reflexivity |].
      destruct (Z.eqb_spec acc NULL) as [| _]; [contradiction |].
      destruct (Z.gtb_spec (dscmp (fc_dataset fc w) (fc_dataset acc w)) 0);
        [lia | reflexivity].
  - destruct (decision_run s Hwf)
      as (s1 & rws & Hscan & Hlen & Hclk & _ & Hsome).
    cbv zeta in *. rewrite (fold_prefer_pick rank) in * by exact Hrank.
    set (b := foldl (pick rank) NULL rws.*1) in *.
    exists b, s1, rws.*1. split; [exact Hscan |].
    split; [rewrite length_fmap; exact Hlen |].
    destruct (fold_pick_earliest rank rws.*1)
      as [[Hb Hall] | (Hb & j & Hj & Hmax & Hfirst)]; fold b in Hb.
    + split; [intros _; exact Hall | contradiction].
    + fold b in Hj, Hmax, Hfirst. split; [contradiction |]. intros _.
      exists j. split; [exact Hj |].
      assert (Hbeats : forall (i : nat) a w, (i < j)%nat ->
                 rws.*1 !! i = Some a -> a <> NULL ->
                 dscmp (fc_dataset b w) (fc_dataset a w) > 0).
      { intros i a w Hij Hi Ha. apply (Hrank w b a Hb Ha).
        specialize (Hfirst i a Hij Hi Ha). lia. }
      split; [| split; [exact Hbeats | split]].
      * intros i a w Hi Ha Hgt. apply (Hrank w a b Ha Hb) in Hgt.
        specialize (Hmax i a Hi Ha). lia.
      * intros i a w Hi Ha Htie.
        destruct (Nat.le_gt_cases j i) as [| Hlt]; [assumption |].
        specialize (Hbeats i a w Hlt Hi Ha). lia.
      * intros m Hm.
        destruct (Hsome Hb m Hm) as (s' & roles & Hrun & Hbest & _).
        eauto.
Qed.

End Decision.

(** ** The poll loop *)

Section Poll.
Context `{E : Env}.

Lemma scan_calls_app (c : clock mave) slots1 slots2 evs1 evs2 :
  length slots1 = length evs1 ->
  scan_calls c (slots1 ++ slots2) (evs1 ++ evs2)
  = scan_calls c slots1 evs1 ++ scan_calls c slots2 evs2.
Proof.
  intros Hlen. unfold scan_calls.
  rewrite zip_with_app by exact Hlen. apply concat_app.
Qed.



(** One slot: nothing when it is not ready; otherwise the port
    translates it, and the event is dispatched unless it is the state
    decision event, which raises the flag. *)
Lemma poll_slot_run i j sde s e :
  pollfds (clk s) !! (N_POLLFD * i + j)%nat = Some e ->
  (ready (clk s) i j = false /\ poll_slot i j sde s = Some (sde, s, []))
  \/ (ready (clk s) i j = true
      /\ forall p, port (clk s) !! i = Some p ->
         exists ev s1,
           poll_slot i j sde s
           = Some (sde || is_state_decision ev, s1,
                   slot_calls (clk s) (i, j) ev)
           /\ clk s1 = clk s).
Proof.
  intros He. unfold ready. rewrite He.
  destruct (Z.land (revents e) (Z.lor POLLIN POLLPRI) =? 0) eqn:Hr; cbn [negb].
  - left. split; [reflexivity |]. unfold poll_slot.
    rewrite (bind_run _ _ s e s [] sde s []);
      [reflexivity | apply pollfd_at_run, He |].
    rewrite Hr. reflexivity.
  - right. split; [reflexivity |]. intros p Hp.
    destruct (port_event p j (ext s)) as [ev w] eqn:Hev.
    exists ev.
    exists {| clk := clk s;
              ext := if is_state_decision ev then w else port_dispatch p ev w |}.
    split; [| reflexivity].
    unfold poll_slot, slot_calls. cbn [fst snd]. rewrite Hp. cbn [default].
    unfold bind at 1. rewrite (pollfd_at_run _ _ _ He), Hr.
    unfold bind at 1. rewrite (port_at_run _ _ _ Hp).
    unfold bind at 1. unfold ext_ask. rewrite Hev.
    destruct (is_state_decision ev); cbn.
    + rewrite orb_true_r. reflexivity.
    + rewrite orb_false_r. reflexivity.
Qed.

(** The slots [js] of one port. *)
Lemma poll_row_run (c : clock mave) i p (js : list nat) :
  port c !! i = Some p ->
  (forall j, j ∈ js -> (N_POLLFD * i + j < length (pollfds c))%nat) ->
  forall sde s, clk s = c ->
  exists s1 evs,
    for_fold js (poll_slot i) sde s
    = Some (sde || existsb is_state_decision evs, s1,
            scan_calls c (ready_row c i js) evs)
    /\ length (ready_row c i js) = length evs
    /\ clk s1 = c.
Proof.
  intros Hp. induction js as [| j js IH]; intros Hjs sde s Hc.
  - exists s, []. cbn. rewrite orb_false_r. auto.
  - destruct (lookup_lt_is_Some_2 (pollfds c) (N_POLLFD * i + j)
                (Hjs j ltac:(left))) as [e He].
    assert (Hjs' : forall j', j' ∈ js ->
               (N_POLLFD * i + j' < length (pollfds c))%nat)
      by (intros j' Hj'; apply Hjs; right; exact Hj').
    subst c.
    destruct (poll_slot_run i j sde s e He) as [[Hr Hrun] | [Hr Hrun]].
    + destruct (IH Hjs' sde s eq_refl) as (s1 & evs & Hrest & Hlen & Hclk).
      exists s1, evs. split; [| split; [| exact Hclk]].
      * cbn [for_fold].
        rewrite (bind_run (poll_slot i j sde)
                   (fun b => for_fold js (poll_slot i) b)
                   _ _ _ _ _ _ _ Hrun Hrest).
        unfold ready_row. cbn [flat_map]. rewrite Hr. reflexivity.
      * unfold ready_row. cbn [flat_map]. rewrite Hr. exact Hlen.
    + destruct (Hrun p Hp) as (ev & s0 & Hslot & Hclk0).
      destruct (IH Hjs' (sde || is_state_decision ev) s0 Hclk0)
        as (s1 & evs & Hrest & Hlen & Hclk).
      exists s1, (ev :: evs). split; [| split; [| exact Hclk]].
      * cbn [for_fold].
        rewrite (bind_run (poll_slot i j sde)
                   (fun b => for_fold js (poll_slot i) b)
                   _ _ _ _ _ _ _ Hslot Hrest).
        unfold ready_row. cbn [flat_map]. rewrite Hr.
        cbn [existsb]. rewrite orb_assoc.
        change ([(i, j)] ++ ?l) with ((i, j) :: l).
        unfold scan_calls. cbn [zip_with concat]. reflexivity.
      * unfold ready_row. cbn [flat_map]. rewrite Hr. cbn. f_equal.
        exact Hlen.
Qed.

(** The ports [is], each with all its slots. *)
Lemma poll_rows_run (c : clock mave) (l : list nat) :
  (forall i, i ∈ l -> is_Some (port c !! i)) ->
  (forall i j, i ∈ l -> (j < N_POLLFD)%nat ->
     (N_POLLFD * i + j < length (pollfds c))%nat) ->
  forall sde s, clk s = c ->
  exists s1 evs,
    for_fold l (fun i b => for_fold (seq 0 N_POLLFD) (poll_slot i) b) sde s
    = Some (sde || existsb is_state_decision evs, s1,
            scan_calls c
              (flat_map (fun i => ready_row c i (seq 0 N_POLLFD)) l) evs)
    /\ length (flat_map (fun i => ready_row c i (seq 0 N_POLLFD)) l)
       = length evs
    /\ clk s1 = c.
Proof.
  induction l as [| i l IH]; intros Hports Hslots sde s Hc.
  - exists s, []. cbn. rewrite orb_false_r. auto.
  - destruct (Hports i ltac:(left)) as [p Hp].
    destruct (poll_row_run c i p (seq 0 N_POLLFD) Hp) with (sde := sde) (s := s)
      as (s0 & evs0 & Hrow & Hlen0 & Hclk0); [| exact Hc |].
    { intros j Hj. apply elem_of_seq in Hj. apply Hslots; [left | lia]. }
    destruct (IH ltac:(intros; apply Hports; right; assumption)
                 ltac:(intros; apply Hslots; [right |]; assumption)
                 (sde || existsb is_state_decision evs0) s0 Hclk0)
      as (s1 & evs & Hrest & Hlen & Hclk).
    exists s1, (evs0 ++ evs). split; [| split; [| exact Hclk]].
    + cbn [for_fold flat_map].
      rewrite (bind_run (for_fold (seq 0 N_POLLFD) (poll_slot i) sde)
                 (fun b => for_fold l
                    (fun i b => for_fold (seq 0 N_POLLFD) (poll_slot i) b) b)
                 _ _ _ _ _ _ _ Hrow Hrest).
      rewrite existsb_app, orb_assoc, scan_calls_app by exact Hlen0.
      reflexivity.
    + cbn [flat_map]. rewrite !length_app. congruence.
Qed.

Lemma wf_polled r (c : clock mave) : wf c -> wf (polled r c).
Proof.
  unfold wf, polled. cbn. rewrite length_imap. tauto.
Qed.

(** The scan of a wakeup: every ready slot of a port in use, by port and
    by slot. *)
Lemma poll_scan_run s :
  wf (clk s) ->
  exists s1 evs,
    poll_scan (nports (clk s)) s
    = Some (existsb is_state_decision evs, s1,
            scan_calls (clk s) (ready_slots (clk s)) evs)
    /\ length (ready_slots (clk s)) = length evs
    /\ clk s1 = clk s.
Proof.
  intros (Hports & Hpfds & Hn).
  destruct (poll_rows_run (clk s) (seq 0 (nports (clk s))))
    with (sde := false) (s := s) as (s1 & evs & Hrun & Hlen & Hclk);
    [| | reflexivity |].
  - intros i Hi. apply elem_of_seq in Hi. apply lookup_lt_is_Some_2. lia.
  - intros i j Hi Hj. apply elem_of_seq in Hi. rewrite Hpfds. nia.
  - exists s1, evs. auto.
Qed.

(** A round from a state with a filter never faults and dispatches no
    state decision event. *)
Lemma decision_total s m :
  wf (clk s) -> avg_delay (clk s) = Some m ->
  exists s' tr,
    handle_state_decision_event s = Some (tt, s', tr)
    /\ existsb dispatches_decision tr = false.
Proof.
  intros Hwf Hm.
  destruct (decision_run s Hwf) as (s1 & rws & _ & _ & _ & Hnone & Hsome).
  cbv zeta in *.
  assert (Hasked : forall ps rs,
             existsb dispatches_decision (zip_with CPortComputeBest ps rs)
             = false).
  { induction ps as [| p ps IH]; intros [| r rs]; cbn; auto. }
  destruct (Z.eq_dec (foldl (fun a rw => prefer rw.2 a rw.1) NULL rws) NULL)
    as [Hb | Hb].
  - eexists _, _. split; [apply Hnone, Hb | apply Hasked].
  - destruct (Hsome Hb m Hm) as (s' & roles & Hrun & _ & _ & _ & _ & Hroles).
    eexists _, _. split; [exact Hrun |].
    rewrite !existsb_app, Hasked. cbn [orb].
    assert (Hr : existsb dispatches_decision roles = false).
    { clear - Hroles. induction roles as [| c roles IH]; [reflexivity |].
      cbn in *. apply andb_prop in Hroles as [Hc Hrs]. rewrite (IH Hrs).
      destruct c; try reflexivity. destruct ev; try reflexivity. discriminate. }
    rewrite Hr. destruct (_ =? _); reflexivity.
Qed.


End Poll.

(** *** Runs on the concrete environment *)

Section DemoRounds.
#[local] Existing Instance Demo.env.

Lemma demo_wf_created_quiet : wf (clk (Demo.created Demo.quiet)).
Proof. vm_compute. repeat split; lia. Qed.

Lemma demo_wf_created_tied : wf (clk (Demo.created Demo.tied)).
Proof. vm_compute. repeat split; lia. Qed.

Lemma demo_wf_later : wf (clk Demo.later).
Proof. vm_compute. repeat split; lia. Qed.

Lemma demo_ranked : ranked_by (E := Demo.env) Demo.rank.
Proof.
  intros w a b _ _. cbn. unfold Demo.compare, Demo.rank. cbn. lia.
Qed.

(** [decision_without_candidate] on the controller created over two
    interfaces, when no port has a candidate. *)
Lemma decision_without_candidate_witness :
  let s := Demo.created Demo.quiet in
  wf (clk s)
  /\ exists s1 (rs : list ptr),
       let asked :=
         zip_with CPortComputeBest (take (nports (clk s)) (port (clk s))) rs in
       length rs = nports (clk s)
       /\ (exists b, best_scan s = Some (b, s1, asked))
       /\ clk s1 = clk s
       /\ (Forall (fun r => r = NULL) rs ->
           handle_state_decision_event s = Some (tt, s1, asked)).
Proof.
  split; [exact demo_wf_created_quiet |].
  exact (decision_without_candidate (E := Demo.env)
           (Demo.created Demo.quiet) demo_wf_created_quiet).
Defined.

(** The round without a candidate, run: the two ports are asked, nothing
    else is called, and the controller is as before. *)
Example quiet_round :
  exists s',
    handle_state_decision_event (Demo.created Demo.quiet)
    = Some (tt, s', [CPortComputeBest 101 NULL; CPortComputeBest 102 NULL])
    /\ clk s' = clk (Demo.created Demo.quiet).
Proof. eexists. split; vm_compute; reflexivity. Qed.

(** [filter_reset_iff_best_changes] on a first round that selects the
    foreign clock at 205 and a second round that selects the one at 304. *)
Lemma filter_reset_iff_best_changes_witness :
  exists s2' t2,
    handle_state_decision_event Demo.later = Some (tt, s2', t2)
    /\ best (clk s2') = 304
    /\ (In CMaveReset t2 <-> 304 <> 205)
    /\ avg_delay (clk s2')
       = Some (if decide (304 = 205) then [] else mave_reset []).
Proof.
  apply (filter_reset_iff_best_changes (E := Demo.env)
           (Demo.created Demo.tied) Demo.first_round
           [CPortComputeBest 101 205; CPortComputeBest 102 305; CMaveReset;
            CBmcStateDecision 101 PS_SLAVE; CPortDispatch 101 EV_RS_SLAVE;
            CBmcStateDecision 102 PS_PASSIVE; CPortDispatch 102 EV_RS_PASSIVE]
           205 Demo.later 304 []).
  - vm_compute. reflexivity.
  - vm_compute. reflexivity.
  - discriminate.
  - reflexivity.
  - exact demo_wf_later.
  - vm_compute. reflexivity.
  - vm_compute. reflexivity.
  - discriminate.
Defined.

(** [selection_keeps_earlier_on_ties] on two ports whose candidates, at
    205 and at 305, announce the same priority. *)
Lemma selection_keeps_earlier_on_ties_witness :
  let s := Demo.created Demo.tied in
  wf (clk s)
  /\ ranked_by Demo.rank
  /\ dscmp (fc_dataset 305 Demo.tied) (fc_dataset 205 Demo.tied) = 0
  /\ dscmp (fc_dataset 205 Demo.tied) (fc_dataset 305 Demo.tied) = 0
  /\ exists b s1 (rs : list ptr),
       best_scan s
       = Some (b, s1,
               zip_with CPortComputeBest
                        (take (nports (clk s)) (port (clk s))) rs)
       /\ length rs = nports (clk s)
       /\ (b = NULL -> Forall (fun r => r = NULL) rs)
       /\ (b <> NULL ->
           exists j : nat,
             rs !! j = Some b
             /\ (forall (i : nat) a w, (i < j)%nat -> rs !! i = Some a ->
                   a <> NULL ->
                   dscmp (fc_dataset b w) (fc_dataset a w) > 0)).
Proof.
  split; [exact demo_wf_created_tied |]. split; [exact demo_ranked |].
  split; [reflexivity |]. split; [reflexivity |].
  destruct (selection_keeps_earlier_on_ties (E := Demo.env) Demo.rank
              (Demo.created Demo.tied) demo_wf_created_tied demo_ranked)
    as (_ & b & s1 & rs & Hscan & Hlen & Hnone & Hsome).
  exists b, s1, rs. split; [exact Hscan |]. split; [exact Hlen |].
  split; [exact Hnone |]. intros Hb.
  destruct (Hsome Hb) as (j & Hj & _ & Hbeats & _). eauto.
Defined.

(** The round over the tied candidates selects the one of the first
    port. *)
Example tied_round_selects_first :
  selected (Demo.created Demo.tied) = Some 205.
Proof. vm_compute. reflexivity. Qed.

(** [clock_install_fda_spec] for the second port of the controller
    created over two interfaces: its two descriptors go to the entries 2
    and 3 of the poll table. *)
Lemma clock_install_fda_spec_witness :
  let s := Demo.created Demo.quiet in
  wf (clk s)
  /\ exists pf,
       clock_install_fda 102 Demo.fda0 s
       = Some (tt, {| clk := set_pollfds pf (clk s); ext := ext s |}, [])
       /\ installed Demo.fda0 1 (pollfds (clk s)) pf.
Proof.
  split; [exact demo_wf_created_quiet |].
  destruct (clock_install_fda_spec (E := Demo.env) 102 Demo.fda0
              (Demo.created Demo.quiet) demo_wf_created_quiet)
    as [Hown _]; [cbn; lia | reflexivity |].
  apply (Hown 1%nat).
  - vm_compute. lia.
  - vm_compute. reflexivity.
  - intros i' Hi'. assert (i' = 0%nat) as -> by lia. vm_compute. discriminate.
Defined.



(** The calls of that wakeup: the three ready slots by port and by slot,
    the ordinary event dispatched at once, and one round at the end. *)
Example busy_wakeup_calls :
  (fun r => (r.1.1, r.2)) <$> clock_poll (Demo.created Demo.busy)
  = Some (0, [CPoll 3 0;
              CPortEvent 101 0 EV_STATE_DECISION_EVENT;
              CPortEvent 101 1 (EV_OTHER 5); CPortDispatch 101 (EV_OTHER 5);
              CPortEvent 102 1 EV_STATE_DECISION_EVENT;
              CPortComputeBest 101 205; CPortComputeBest 102 305; CMaveReset;
              CBmcStateDecision 101 PS_SLAVE; CPortDispatch 101 EV_RS_SLAVE;
              CBmcStateDecision 102 PS_PASSIVE;
              CPortDispatch 102 EV_RS_PASSIVE]).
Proof. vm_compute. reflexivity. Qed.

End DemoRounds.

(** * Further properties *)

(** ** Calls a program makes *)

Section Emits.
Context `{E : Env} (P : call -> bool).

Lemma emits_ret {A} (a : A) : emits P (ret a).
Proof. intros s a' s' tr [= _ _ <-]. reflexivity. Qed.

Lemma emits_fault {A} : emits P (@fault _ A).
Proof. intros s a s' tr [=]. Qed.

Lemma emits_bind {A B} (m : M A) (f : A -> M B) :
  emits P m -> (forall a, emits P (f a)) -> emits P (bind m f).
Proof.
  intros Hm Hf s b s2 tr (a & s1 & tr1 & tr2 & H1 & H2 & ->)%bind_inv.
  rewrite forallb_app, (Hm _ _ _ _ H1), (Hf _ _ _ _ _ H2). reflexivity.
Qed.

Lemma emits_get_clock : emits P get_clock.
Proof. intros s a s' tr [= _ _ <-]. reflexivity. Qed.

Lemma emits_modify f : emits P (modify f).
Proof. intros s a s' tr [= _ _ <-]. reflexivity. Qed.

Lemma emits_ext_ask {A} (f : world -> A * world) c :
  (forall a, P (c a) = true) -> emits P (ext_ask f c).
Proof.
  intros Hc s a s' tr. unfold ext_ask. destruct (f (ext s)).
  intros [= <- _ <-]. cbn. rewrite Hc. reflexivity.
Qed.

Lemma emits_ext_do f c : P c = true -> emits P (ext_do f c).
Proof. intros Hc s a s' tr [= _ _ <-]. cbn. rewrite Hc. reflexivity. Qed.

Lemma emits_ext_read {A} (f : world -> A) : emits P (ext_read f).
Proof. intros s a s' tr [= _ _ <-]. reflexivity. Qed.

Lemma emits_of_option {A} (o : option A) : emits P (of_option o).
Proof. destruct o; [apply emits_ret | apply emits_fault]. Qed.

Lemma emits_for_each {A} (l : list A) body :
  (forall x, emits P (body x)) -> emits P (for_each l body).
Proof.
  intros Hb. induction l as [| x l IH]; cbn [for_each].
  - apply emits_ret.
  - apply emits_bind; auto.
Qed.

Lemma emits_for_fold {A B} (l : list A) (body : A -> B -> M B) acc :
  (forall x b, emits P (body x b)) -> emits P (for_fold l body acc).
Proof.
  intros Hb. revert acc. induction l as [| x l IH]; intros acc; cbn [for_fold].
  - apply emits_ret.
  - apply emits_bind; auto.
Qed.

Lemma emits_sw_ts_scan iface i n : emits P (sw_ts_scan iface i n).
Proof.
  revert i. induction n as [| n IH]; intros i; cbn [sw_ts_scan].
  - apply emits_ret.
  - apply emits_bind; [apply emits_of_option |]. intros f.
    destruct (_ =? _); [apply emits_ret | apply IH].
Qed.

Lemma emits_port_at i : emits P (port_at i).
Proof.
  apply emits_bind; [apply emits_get_clock | intros; apply emits_of_option].
Qed.

Lemma emits_pollfd_at k : emits P (pollfd_at k).
Proof.
  apply emits_bind; [apply emits_get_clock | intros; apply emits_of_option].
Qed.

Lemma emits_store_port i p : emits P (store_port i p).
Proof.
  apply emits_bind; [apply emits_get_clock |]. intros c.
  destruct (decide _); [apply emits_modify | apply emits_fault].
Qed.

Lemma emits_open_ports iface i n :
  (forall f k r, P (CPortOpen f k r) = true) ->
  emits P (open_ports iface i n).
Proof.
  intros HP. revert i. induction n as [| n IH]; intros i; cbn [open_ports].
  - apply emits_ret.
  - apply emits_bind; [apply emits_of_option |]. intros f.
    apply emits_bind; [apply emits_ext_ask; intros; apply HP |]. intros p.
    apply emits_bind; [apply emits_store_port |]. intros _.
    destruct (_ =? _); [apply emits_ret | apply IH].
Qed.

End Emits.

(** Takes a goal [emits P m] apart along the structure of [m]; what is left
    are the calls themselves, as goals [P c = true]. *)
Ltac emits_step :=
  match goal with
  | |- forall _, _ => intro
  | |- emits _ (ret _) => apply emits_ret
  | |- emits _ fault => apply emits_fault
  | |- emits _ get_clock => apply emits_get_clock
  | |- emits _ (modify _) => apply emits_modify
  | |- emits _ (ext_ask _ _) => apply emits_ext_ask
  | |- emits _ (ext_do _ _) => apply emits_ext_do
  | |- emits _ (ext_read _) => apply emits_ext_read
  | |- emits _ (of_option _) => apply emits_of_option
  | |- emits _ (port_at _) => apply emits_port_at
  | |- emits _ (pollfd_at _) => apply emits_pollfd_at
  | |- emits _ (bind _ _) => apply emits_bind
  | |- emits _ (for_each _ _) => apply emits_for_each
  | |- emits _ (for_fold _ _ _) => apply emits_for_fold
  | |- emits _ (sw_ts_scan _ _ _) => apply emits_sw_ts_scan
  | |- emits _ (store_port _ _) => apply emits_store_port
  | |- emits _ (open_ports _ _ _) => apply emits_open_ports
  | |- emits _ (if ?b then _ else _) => destruct b
  | |- emits _ (match ?x with _ => _ end) => destruct x
  end.

Ltac emits_tac := repeat emits_step.

Section DeviceCalls.
Context `{E : Env}.

Lemma emits_path_delay P req rx k :
  (forall v r, P (CMaveAccumulate v r) = true) ->
  emits P (clock_path_delay req rx k).
Proof.
  intros HP s a s' tr. rewrite clock_path_delay_run. cbv zeta.
  destruct (_ <? 0); [intros [= _ _ <-]; reflexivity |].
  destruct (avg_delay (clk s)); [| discriminate].
  intros [= _ _ <-]. cbn. rewrite HP. reflexivity.
Qed.

Lemma emits_reset P : P CMaveReset = true -> emits P reset_avg_delay.
Proof.
  intros HP s a s' tr H. unfold reset_avg_delay in H.
  apply bind_inv in H as (c & s1 & ? & ? & [= _ _ <-] & H & ->).
  apply bind_inv in H as (m & s2 & ? & ? & Hm & [= _ _ <-] & ->).
  apply of_option_inv in Hm as (_ & _ & ->). cbn. rewrite HP. reflexivity.
Qed.

Lemma emits_decision P :
  P CMaveReset = true ->
  (forall p r, P (CPortComputeBest p r) = true) ->
  (forall p r, P (CBmcStateDecision p r) = true) ->
  (forall p ev, P (CPortDispatch p ev) = true) ->
  emits P handle_state_decision_event.
Proof.
  intros H1 H2 H3 H4.
  unfold handle_state_decision_event, select_step, assign_role, role_update,
    clock_update_grandmaster, clock_update_slave.
  emits_tac; auto using emits_reset.
Qed.

(** Of the calls that [clock.c] makes itself, those that sample the servo
    or ask the clock device for an adjustment are made from
    [clock_synchronize] only: [clock_step] and [clock_ppb] have no other
    caller, and the other operations make no such call in their own
    bodies.  What a port does while it is opened, asked or dispatched an
    event, which may be to call [clock_synchronize], is not among the
    calls of these operations. *)
Theorem no_adjustment_outside_synchronize :
  emits (fun c => negb (adjusts c)) clock_poll
  /\ emits (fun c => negb (adjusts c)) handle_state_decision_event
  /\ (forall req rx k,
        emits (fun c => negb (adjusts c)) (clock_path_delay req rx k))
  /\ (forall p fda,
        emits (fun c => negb (adjusts c)) (clock_install_fda p fda))
  /\ (forall phc iface count ds,
        emits (fun c => negb (adjusts c)) (clock_create phc iface count ds))
  /\ emits (fun c => negb (adjusts c)) clock_destroy
  /\ emits (fun c => negb (adjusts c)) clock_default_ds.
Proof.
  assert (Hd : emits (fun c => negb (adjusts c)) handle_state_decision_event)
    by (apply emits_decision; reflexivity).
  assert (Hx : emits (fun c => negb (adjusts c)) clock_destroy)
    by (unfold clock_destroy; emits_tac; reflexivity).
  repeat split.
  - unfold clock_poll, poll_scan, poll_slot. emits_tac; auto.
  - exact Hd.
  - intros. apply emits_path_delay. reflexivity.
  - intros. unfold clock_install_fda, store_pollfd. emits_tac.
  - intros. unfold clock_create, open_device. emits_tac; auto.
  - exact Hx.
  - unfold clock_default_ds. emits_tac.
Qed.

End DeviceCalls.

(** ** Destruction *)

Section Destroy.
Context `{E : Env}.

Lemma ports_prefix (ports : list ptr) (n : nat) :
  (n <= length ports)%nat ->
  Forall2 (fun i p => ports !! i = Some p) (seq 0 n) (take n ports).
Proof.
  intros Hn. apply Forall2_same_length_lookup_2.
  - rewrite length_seq, length_take. lia.
  - intros i x p Hx Hp. apply lookup_seq in Hx as [-> Hi].
    rewrite lookup_take_lt in Hp by lia. exact Hp.
Qed.

(** A loop that makes one call per port. *)
Lemma ports_loop (f : ptr -> world -> world) (c : ptr -> call)
    (l : list nat) (ps : list ptr) s :
  Forall2 (fun i p => port (clk s) !! i = Some p) l ps ->
  for_each l (fun i => let* p := port_at i in ext_do (f p) (c p)) s
  = Some (tt, {| clk := clk s; ext := foldl (fun w p => f p w) (ext s) ps |},
          map c ps).
Proof.
  intros H. revert s H. induction l as [| i l IH] in ps |- *; intros s H.
  - apply Forall2_nil_inv_l in H as ->. cbn. rewrite state_eta. reflexivity.
  - apply Forall2_cons_inv_l in H as (p & ps' & Hp & Hps & ->).
    cbn [for_each foldl map].
    erewrite bind_run with (tr1 := [c p])
      (s1 := {| clk := clk s; ext := f p (ext s) |}); [reflexivity | |].
    + erewrite bind_run with (tr1 := []); [reflexivity | |].
      * apply port_at_run, Hp.
      * reflexivity.
    + apply (IH ps' {| clk := clk s; ext := f p (ext s) |}). exact Hps.
Qed.

Lemma clock_destroy_run s :
  (nports (clk s) <= length (port (clk s)))%nat ->
  let ps := take (nports (clk s)) (port (clk s)) in
  let w := foldl (fun w p => port_close p w) (ext s) ps in
  clock_destroy s
  = Some (tt,
          {| clk := clock_zero;
             ext := if clkid (clk s) =? CLOCK_REALTIME then w
                    else phc_close (clkid (clk s)) w |},
          closes (clk s)).
Proof.
  intros Hn. cbv zeta. unfold clock_destroy, closes.
  unfold bind at 1. cbn [get_clock]. unfold bind at 1.
  rewrite (ports_loop port_close CPortClose _ _ s (ports_prefix _ _ Hn)).
  destruct (clkid (clk s) =? CLOCK_REALTIME); cbn; rewrite ?app_nil_r;
    reflexivity.
Qed.

Lemma clock_destroy_clears s u s' tr :
  clock_destroy s = Some (u, s', tr) -> clk s' = clock_zero.
Proof.
  intros H. unfold clock_destroy in H.
  apply bind_inv in H as (c & s1 & ? & ? & _ & H & _).
  apply bind_inv in H as (? & s2 & ? & ? & _ & H & _).
  apply bind_inv in H as (? & s3 & ? & ? & _ & [= _ <- _] & _). reflexivity.
Qed.

(** [clock_destroy] closes every port in use once, in port order, closes
    the clock device unless it is the system clock, and clears the
    controller. *)
Theorem clock_destroy_spec s :
  (nports (clk s) <= length (port (clk s)))%nat ->
  let ps := take (nports (clk s)) (port (clk s)) in
  let w := foldl (fun w p => port_close p w) (ext s) ps in
  clock_destroy s
  = Some (tt,
          {| clk := clock_zero;
             ext := if clkid (clk s) =? CLOCK_REALTIME then w
                    else phc_close (clkid (clk s)) w |},
          map CPortClose ps
          ++ (if clkid (clk s) =? CLOCK_REALTIME then []
              else [CPhcClose (clkid (clk s))])).
Proof. exact (clock_destroy_run s). Qed.

(** After [clock_destroy] the controller is cleared, so that a second
    [clock_destroy] closes nothing and changes nothing. *)
Theorem clock_destroy_twice s s' tr :
  clock_destroy s = Some (tt, s', tr) ->
  clk s' = clock_zero /\ clock_destroy s' = Some (tt, s', []).
Proof.
  intros H. pose proof (clock_destroy_clears _ _ _ _ H) as Hz.
  split; [exact Hz |].
  destruct s' as [c' w']. cbn in Hz. subst c'. reflexivity.
Qed.

End Destroy.

(** ** Creation *)

Section CreateOutcome.
Context `{E : Env}.

Lemma set_port_same (c : clock mave) : set_port (port c) c = c.
Proof. destruct c; reflexivity. Qed.

(** The loop that opens the ports writes the entries from [i] on, keeps
    the size of the array, dispatches nothing, and ends with [true] only
    when every port from [i] to [i + n - 1] was opened and stored. *)
Lemma open_ports_inv iface i n s b s' tr :
  (i <= length (port (clk s)))%nat ->
  open_ports iface i n s = Some (b, s', tr) ->
  exists ports' : list ptr,
    clk s' = set_port ports' (clk s)
    /\ length ports' = length (port (clk s))
    /\ (forall k : nat, (k < i)%nat -> ports' !! k = port (clk s) !! k)
    /\ forallb (fun c => negb (is_dispatch c)) tr = true
    /\ (b = true ->
        (i + n <= length ports')%nat
        /\ forall k : nat, (i <= k < i + n)%nat ->
             exists p, ports' !! k = Some p /\ p <> NULL).
Proof.
  revert i s tr. induction n as [| n IH]; intros i s tr Hi; cbn [open_ports].
  - intros [= <- <- <-]. exists (port (clk s)).
    rewrite set_port_same. repeat split; auto; [lia |].
    intros k Hk. lia.
  - intros H.
    apply bind_inv in H as (f & s0 & ? & ? & Hf & H & ->).
    apply of_option_inv in Hf as (Hf & -> & ->).
    apply bind_inv in H as (p & s1 & t1 & ? & Hopen & H & ->).
    apply bind_inv in H as (u & s2 & ts & t2 & Hstore & H & ->).
    assert (Hc1 : clk s1 = clk s /\ forallb (fun c => negb (is_dispatch c)) t1 = true).
    { unfold ext_ask in Hopen. destruct (port_open f _ _ _).
      injection Hopen as _ <- <-. auto. }
    destruct Hc1 as [Hc1 Ht1].
    assert (Hc2 : (i < length (port (clk s)))%nat
                  /\ clk s2 = set_port (<[i := p]> (port (clk s))) (clk s)
                  /\ ts = []).
    { unfold store_port, bind, get_clock, modify in Hstore. cbn in Hstore.
      rewrite Hc1 in Hstore. destruct (decide _) as [Hlt | _]; [| discriminate].
      cbn in Hstore. injection Hstore as _ Hs2 Hx0. subst s2 ts. cbn.
      rewrite Hc1. auto. }
    destruct Hc2 as (Hlt & Hc2 & ->).
    destruct (Z.eqb_spec p NULL) as [Hp | Hp].
    + injection H as <- <- <-.
      exists (<[i := p]> (port (clk s))). split; [exact Hc2 |].
      split; [apply length_insert |]. split.
      * intros k Hk. apply list_lookup_insert_ne. lia.
      * split; [| discriminate]. cbn [app]. rewrite app_nil_r. exact Ht1.
    + apply IH in H as (ports' & Hclk & Hlen & Hlow & Htr & Hok).
      2:{ rewrite Hc2. cbn. rewrite length_insert. lia. }
      rewrite Hc2 in Hclk, Hlen, Hlow. cbn in Hclk, Hlen, Hlow.
      rewrite length_insert in Hlen.
      exists ports'. split; [exact Hclk |]. split; [exact Hlen |]. split.
      * intros k Hk. rewrite Hlow by lia. apply list_lookup_insert_ne. lia.
      * split.
        { cbn [app]. rewrite forallb_app, Ht1. exact Htr. }
        intros Hb. destruct (Hok Hb) as [Hbound Hall].
        split; [lia |]. intros k Hk.
        destruct (decide (k = i)) as [-> | Hne].
        -- exists p. split; [| exact Hp].
           rewrite Hlow by lia. apply list_lookup_insert_eq. exact Hlt.
        -- apply Hall. lia.
Qed.

Lemma open_device_inv phc s dev s' tr :
  open_device phc s = Some (dev, s', tr) ->
  exists id,
    clk s' = set_clkid id (clk s)
    /\ (phc = None -> id = CLOCK_REALTIME /\ tr = [])
    /\ (dev = None -> exists path, phc = Some path).
Proof.
  destruct phc as [path |]; cbn [open_device]; intros H.
  - apply bind_inv in H as (id & s1 & ? & ? & Hopen & H & _).
    apply bind_inv in H as (? & s2 & ? & ? & [= _ <- _] & H & _).
    assert (Hc : clk s1 = clk s).
    { unfold ext_ask in Hopen. destruct (phc_open _ _).
      injection Hopen as _ <- _. reflexivity. }
    exists id. split; [| split; [discriminate | eauto]].
    destruct (id =? CLOCK_INVALID); [injection H as _ <- _; cbn; congruence |].
    apply bind_inv in H as (adj & s3 & ? & ? & Hadj & H & _).
    assert (Hc3 : clk s3 = set_clkid id (clk s)).
    { unfold ext_ask in Hadj. destruct (phc_max_adj _ _).
      injection Hadj as _ <- _. cbn. congruence. }
    destruct (adj =? 0); injection H as _ <- _; exact Hc3.
  - apply bind_inv in H as (? & s2 & ? & ? & [= _ <- <-] & [= <- <- <-] & ->).
    exists CLOCK_REALTIME. repeat split; auto. discriminate.
Qed.

Local Ltac quiet H :=
  match type of H with
  | ?m _ = Some (_, _, ?t) =>
      let Hq := fresh "Hq" in
      assert (Hq : emits (fun c => negb (is_dispatch c)) m)
        by (try unfold open_device, clock_destroy; emits_tac; reflexivity);
      apply Hq in H
  end.

(** What [clock_create] leaves, by its answer.  [c0] is the controller the
    creation starts from: the one given when it has no port in use, the
    cleared one otherwise. *)
Lemma clock_create_outcome phc iface count ds s b s' tr :
  clock_create phc iface count ds s = Some (b, s', tr) ->
  let c0 := if decide (nports (clk s) = 0%nat) then clk s else clock_zero in
  exists id,
    (phc = None -> id = CLOCK_REALTIME)
    /\ if b then
         exists sv m (ports' : list ptr) tr0,
           clk s'
           = set_nports count
               (set_dds (set_numberPorts (Z.of_nat count) ds)
                  (set_port ports'
                     (set_pollfds (map unused_pollfd (pollfds c0))
                        (init_parentDS
                           (set_dds ds
                              (set_avg_delay (Some m)
                                 (set_servo sv (set_clkid id c0))))))))
           /\ sv <> NULL
           /\ length ports' = length (port c0)
           /\ (count <= length ports')%nat
           /\ (forall k : nat, (k < count)%nat ->
                 exists p, ports' !! k = Some p /\ p <> NULL)
           /\ tr = tr0 ++ map (fun p => CPortDispatch p EV_INITIALIZE)
                              (take count ports')
           /\ forallb (fun c => negb (is_dispatch c)) tr0 = true
       else
         nports (clk s') = 0%nat
         /\ length (port (clk s')) = length (port c0)
         /\ length (pollfds (clk s')) = length (pollfds c0)
         /\ best (clk s') = best c0
         /\ forallb (fun c => negb (is_dispatch c)) tr = true.
Proof.
  intros H. cbv zeta. unfold clock_create in H.
  apply bind_inv in H as (? & s1 & t1 & ? & [= _ <- <-] & H & ->).
  apply bind_inv in H as (c & s2 & ? & ? & [= <- <- <-] & H & ->).
  apply bind_inv in H as (u3 & s3 & t3 & ? & Hd & H & ->). destruct u3.
  cbn [clk ext] in *.
  set (c0 := if decide (nports (clk s) = 0%nat) then clk s else clock_zero).
  assert (H3 : clk s3 = c0 /\ nports c0 = 0%nat).
  { subst c0. destruct (decide _) as [Hz | Hnz].
    - injection Hd as <- _. auto.
    - rewrite (clock_destroy_clears _ _ _ _ Hd). auto. }
  destruct H3 as [H3 Hn0]. quiet Hd.
  apply bind_inv in H as (dev & s4 & t4 & ? & Hdev & H & ->).
  destruct (open_device_inv _ _ _ _ _ Hdev) as (id & H4 & Hreal & Hnone).
  quiet Hdev. rewrite H3 in H4.
  exists id. split; [intros Hp; apply Hreal, Hp |].
  assert (Hhead : forall t, forallb (fun c => negb (is_dispatch c)) t = true ->
            forallb (fun c => negb (is_dispatch c))
                    ([CSrandom] ++ [] ++ t3 ++ t4 ++ t) = true).
  { intros t Ht. cbn [app forallb is_dispatch negb andb].
    rewrite !forallb_app, Hd, Hdev, Ht. reflexivity. }
  destruct dev as [max_adj |].
  2:{ injection H as <- <- <-. rewrite H4. cbn [nports port pollfds set_clkid].
      repeat split; auto; try (apply (Hhead []); reflexivity). }
  apply bind_inv in H as (sw & s5 & t5 & ? & Hsw & H & ->).
  assert (H5 : clk s5 = clk s4).
  { assert (Hk : keeps (same_on (fun c => c)) (sw_ts_scan iface 0 count))
      by keeps_tac.
    symmetry. exact (Hk _ _ _ _ Hsw). }
  quiet Hsw.
  apply bind_inv in H as (sv & s6 & t6 & ? & Hsv & H & ->).
  assert (H6 : clk s6 = clk s5).
  { unfold ext_ask in Hsv. destruct (servo_create _ _ _ _).
    injection Hsv as _ <- _. reflexivity. }
  quiet Hsv.
  apply bind_inv in H as (? & s7 & ? & ? & [= _ <- <-] & H & ->).
  cbn [clk ext] in *. rewrite H6, H5, H4 in H.
  destruct (Z.eqb_spec sv NULL) as [Hsv0 | Hsv0].
  { injection H as <- <- <-. cbn [nports port pollfds set_servo set_clkid clk].
    repeat split; auto;
      try (apply Hhead; rewrite !forallb_app, Hsw, Hsv; reflexivity). }
  apply bind_inv in H as (mv & s8 & t8 & ? & Hmv & H & ->).
  assert (H8 : clk s8 = set_servo sv (set_clkid id c0)).
  { unfold ext_ask in Hmv. destruct (mave_create _ _).
    injection Hmv as _ <- _. reflexivity. }
  quiet Hmv.
  apply bind_inv in H as (? & s9 & ? & ? & [= _ <- <-] & H & ->).
  cbn [clk ext] in *. rewrite H8 in H.
  destruct mv as [m |].
  2:{ injection H as <- <- <-.
      cbn [nports port pollfds set_avg_delay set_servo set_clkid clk].
      repeat split; auto;
        try (apply Hhead; rewrite !forallb_app, Hsw, Hsv, Hmv; reflexivity). }
  apply bind_inv in H as (? & s10 & ? & ? & [= _ <- <-] & H & ->).
  apply bind_inv in H as (? & s11 & ? & ? & [= _ <- <-] & H & ->).
  apply bind_inv in H as (? & s12 & ? & ? & [= _ <- <-] & H & ->).
  cbn [clk ext] in *.
  apply bind_inv in H as (ok & s13 & t13 & ? & Hopen & H & ->).
  apply open_ports_inv in Hopen as (ports' & H13 & Hlen & _ & Ht13 & Hok);
    [| cbn; lia].
  cbn in H13, Hlen.
  destruct ok.
  2:{ injection H as <- <- <-. rewrite H13. cbn.
      rewrite length_map. repeat split; auto;
        try (apply Hhead; rewrite !forallb_app, Hsw, Hsv, Hmv, Ht13;
             reflexivity). }
  destruct (Hok eq_refl) as [Hbound Hall]. cbn in Hbound.
  apply bind_inv in H as (? & s14 & ? & ? & [= _ <- <-] & H & ->).
  apply bind_inv in H as (? & s15 & t15 & ? & Hdisp & [= <- <- <-] & ->).
  cbn [clk ext] in *. rewrite H13 in Hdisp. cbn in Hdisp.
  rewrite (ports_loop (fun p => port_dispatch p EV_INITIALIZE)
             (fun p => CPortDispatch p EV_INITIALIZE) (seq 0 count)
             (take count ports')) in Hdisp.
  2:{ cbn. apply ports_prefix. exact Hbound. }
  injection Hdisp as _ <- <-. cbn [clk].
  exists sv, m, ports'.
  exists ([CSrandom] ++ [] ++ t3 ++ t4 ++ t5 ++ t6 ++ [] ++ t8 ++ [] ++ []
          ++ [] ++ [] ++ t13).
  split; [rewrite ?H13; reflexivity |]. split; [exact Hsv0 |].
  split; [exact Hlen |]. split; [exact Hbound |].
  split; [intros k Hk; apply Hall; lia |]. split.
  - cbn [app]. rewrite <- !app_assoc. cbn [app]. rewrite app_nil_r.
    reflexivity.
  - apply Hhead. cbn [app]. rewrite !forallb_app, Hsw, Hsv, Hmv, Ht13.
    reflexivity.
Qed.

(** A successful [clock_create] over [count] interfaces leaves [count]
    ports in use, all of them open, records [count] in the default data
    set, holds a servo and a filter, uses the system clock when no device
    was named, and ends by dispatching [EV_INITIALIZE] to every port, in
    port order, having dispatched nothing before. *)
Theorem clock_create_success phc iface count ds s s' tr :
  clock_create phc iface count ds s = Some (true, s', tr) ->
  nports (clk s') = count
  /\ dds (clk s') = set_numberPorts (Z.of_nat count) ds
  /\ is_Some (avg_delay (clk s'))
  /\ servo (clk s') <> NULL
  /\ (count <= length (port (clk s')))%nat
  /\ (forall i : nat, (i < count)%nat ->
        exists p, port (clk s') !! i = Some p /\ p <> NULL)
  /\ (phc = None -> clkid (clk s') = CLOCK_REALTIME)
  /\ exists tr0,
       tr = tr0 ++ map (fun p => CPortDispatch p EV_INITIALIZE)
                       (take count (port (clk s')))
       /\ forallb (fun c => negb (is_dispatch c)) tr0 = true.
Proof.
  intros H. apply clock_create_outcome in H as (id & Hid & H). cbv zeta in H.
  destruct H as (sv & m & ports' & tr0 & -> & Hsv & Hlen & Hb & Hall & -> & Ht).
  cbn [clk nports dds pollfds avg_delay servo port clkid set_nports set_dds
       set_port set_pollfds init_parentDS set_dad set_avg_delay set_servo
       set_clkid].
  split; [reflexivity |]. split; [reflexivity |].
  split; [eauto |]. split; [exact Hsv |]. split; [exact Hb |].
  split; [exact Hall |]. split; [exact Hid |]. exists tr0. auto.
Qed.

(** A failed [clock_create] leaves no port in use and has dispatched no
    event, whatever it had opened before it failed. *)
Theorem clock_create_failure phc iface count ds s s' tr :
  clock_create phc iface count ds s = Some (false, s', tr) ->
  nports (clk s') = 0%nat
  /\ forallb (fun c => negb (is_dispatch c)) tr = true.
Proof.
  intros H. apply clock_create_outcome in H as (id & _ & H). cbv zeta in H.
  tauto.
Qed.

End CreateOutcome.

(** ** An invariant of the runs *)

Section Sound.
Context `{E : Env}.

Local Ltac frame :=
  unfold preserves, sound, wf, has_resources; cbn;
  rewrite ?length_insert, ?length_imap; intros; try tauto.

Lemma sound_zero : sound clock_zero.
Proof.
  split.
  - unfold wf. cbn. rewrite !length_replicate. repeat split; lia.
  - intros H. cbn in H. congruence.
Qed.

Lemma keeps_sound_reset : keeps (preserves sound) reset_avg_delay.
Proof.
  intros s a s' tr H. unfold reset_avg_delay in H.
  apply bind_inv in H as (c & s1 & ? & ? & [= <- <- _] & H & _).
  apply bind_inv in H as (m & s2 & ? & ? & Hm & [= _ <- _] & _).
  apply of_option_inv in Hm as (Hm & -> & _).
  intros [Hwf Hres]. split; [exact Hwf |]. intros Hn.
  destruct (Hres Hn) as (_ & Hsv & Hp). cbn. eauto.
Qed.

Lemma keeps_sound_decision :
  keeps (preserves sound) handle_state_decision_event.
Proof.
  unfold handle_state_decision_event, select_step, assign_role, role_update,
    clock_update_grandmaster, clock_update_slave.
  keeps_tac; try apply keeps_sound_reset; frame.
Qed.

Lemma keeps_sound_poll : keeps (preserves sound) clock_poll.
Proof.
  unfold clock_poll, poll_scan, poll_slot.
  keeps_tac; try apply keeps_sound_decision; frame.
Qed.

Lemma keeps_sound_install p fda :
  keeps (preserves sound) (clock_install_fda p fda).
Proof. unfold clock_install_fda, store_pollfd. keeps_tac; frame. Qed.

Lemma keeps_sound_synchronize ingress_ts origin_ts k1 k2 :
  keeps (preserves sound) (clock_synchronize ingress_ts origin_ts k1 k2).
Proof. unfold clock_synchronize. keeps_tac; frame. Qed.

Lemma keeps_sound_default_ds : keeps (preserves sound) clock_default_ds.
Proof. unfold clock_default_ds. keeps_tac; frame. Qed.

Lemma keeps_sound_path_delay req rx correction :
  keeps (preserves sound) (clock_path_delay req rx correction).
Proof.
  intros s a s' tr. rewrite clock_path_delay_run. cbv zeta.
  destruct (_ <? 0); [intros [= <- <- _]; unfold preserves; auto |].
  destruct (avg_delay (clk s)) as [m |]; [| discriminate].
  intros [= _ <- _] [Hwf Hres]. split; [exact Hwf |]. intros Hn.
  destruct (Hres Hn) as (_ & Hsv & Hp). cbn. eauto.
Qed.

Lemma keeps_sound_create phc iface count ds :
  keeps (preserves sound) (clock_create phc iface count ds).
Proof.
  intros s b s' tr H [Hwf _].
  apply clock_create_outcome in H as (id & _ & H). cbv zeta in H.
  set (c0 := if decide (nports (clk s) = 0%nat) then clk s else clock_zero)
    in *.
  assert (Hc0 : length (port c0) = MAX_PORTS
                /\ length (pollfds c0) = (MAX_PORTS * N_POLLFD)%nat).
  { subst c0. destruct (decide _).
    - destruct Hwf as (? & ? & _). auto.
    - destruct sound_zero as [(? & ? & _) _]. auto. }
  destruct Hc0 as [Hp0 Hf0]. destruct b.
  - destruct H as (sv & m & ports' & tr0 & -> & Hsv & Hlen & Hb & Hall & _).
    split.
    + unfold wf. cbn. rewrite length_map. repeat split; lia.
    + intros _. cbn. repeat split; eauto.
  - destruct H as (Hn & Hlp & Hlf & _). split.
    + unfold wf. repeat split; lia.
    + intros Hne. contradiction.
Qed.

Lemma reachable_keeps_sound s : reachable s -> sound (clk s).
Proof.
  induction 1 as [w | s w _ IH | phc iface count ds s b s' tr _ IH Hrun
                  | s d s' tr _ IH Hrun
                  | p fda s s' tr _ IH Hrun | s r s' tr _ IH Hrun
                  | req rx k s s' tr _ IH Hrun
                  | its ots k1 k2 s s' tr _ IH Hrun].
  - apply sound_zero.
  - exact IH.
  - exact (keeps_sound_create _ _ _ _ _ _ _ _ Hrun IH).
  - exact (keeps_sound_default_ds _ _ _ _ Hrun IH).
  - exact (keeps_sound_install _ _ _ _ _ _ Hrun IH).
  - exact (keeps_sound_poll _ _ _ _ Hrun IH).
  - exact (keeps_sound_path_delay _ _ _ _ _ _ _ Hrun IH).
  - exact (keeps_sound_synchronize _ _ _ _ _ _ _ _ Hrun IH).
Qed.

(** In every state of a run the two arrays of the controller have their
    declared sizes and the ports in use are among them; and once a port is
    in use the controller holds a filter and a servo and every port in use
    is open. *)
Theorem reachable_sound s : reachable s -> sound (clk s).
Proof. exact (reachable_keeps_sound s). Qed.

Lemma clock_poll_head s :
  clock_poll s
  = let r := (sys_poll (pollfds (clk s)) (ext s)).1 in
    let w := (sys_poll (pollfds (clk s)) (ext s)).2 in
    match (if poll_cnt r <? 0 then
             if poll_errno r =? EINTR then ret 0 else ret (-1)
           else if poll_cnt r =? 0 then ret 0
           else
             let* sde := poll_scan (nports (clk s)) in
             let* _ := (if sde then handle_state_decision_event
                        else ret tt) in
             ret 0) {| clk := polled r (clk s); ext := w |} with
    | Some (a, s', tr) => Some (a, s', CPoll (poll_cnt r) (poll_errno r) :: tr)
    | None => None
    end.
Proof.
  unfold clock_poll. unfold bind at 1. cbn [get_clock].
  unfold bind at 1. unfold ext_ask.
  destruct (sys_poll (pollfds (clk s)) (ext s)) as [r w]. cbv zeta.
  cbn [fst snd]. unfold bind at 1. cbn [modify clk ext]. unfold polled.
  match goal with
  | |- _ = match ?x with _ => _ end => destruct x as [[[? ?] ?] |]
  end; reflexivity.
Qed.

(** In every state of a run [clock_poll] returns (it reads no array
    outside its bounds and calls nothing through a null pointer), and its
    answer is -1 exactly when [poll] failed with an error other than
    [EINTR], and 0 otherwise. *)
Theorem clock_poll_returns s :
  reachable s ->
  let r := (sys_poll (pollfds (clk s)) (ext s)).1 in
  exists s' tr,
    clock_poll s
    = Some (if (poll_cnt r <? 0) && negb (poll_errno r =? EINTR)
            then -1 else 0, s', tr).
Proof.
  intros Hs. cbv zeta. pose proof (reachable_keeps_sound s Hs) as [Hwf Hres].
  rewrite clock_poll_head. cbv zeta.
  destruct (sys_poll (pollfds (clk s)) (ext s)) as [r w]. cbn [fst snd].
  destruct (Z.ltb_spec (poll_cnt r) 0) as [Hneg | Hge]; cbn [andb].
  { destruct (poll_errno r =? EINTR); cbn; eauto. }
  destruct (Z.eqb_spec (poll_cnt r) 0) as [Hz | Hnz]; [cbn; eauto |].
  set (s0 := {| clk := polled r (clk s); ext := w |}).
  destruct (poll_scan_run s0 (wf_polled r _ Hwf))
    as (s1 & evs & Hscan & Hlen & Hclk).
  change (clk s0) with (polled r (clk s)) in *.
  change (nports (clk s)) with (nports (polled r (clk s))).
  unfold bind at 1. rewrite Hscan.
  destruct (existsb is_state_decision evs) eqn:Hsde.
  - destruct (decide (nports (clk s) = 0%nat)) as [Hn | Hn].
    + exfalso. unfold ready_slots in Hlen.
      change (nports (polled r (clk s))) with (nports (clk s)) in Hlen.
      rewrite Hn in Hlen. cbn in Hlen. destruct evs; [discriminate | ].
      discriminate.
    + destruct (Hres Hn) as ([m Hm] & _).
      destruct (decision_total s1 m) as (s' & round & Hround & _).
      { rewrite Hclk. apply wf_polled, Hwf. }
      { rewrite Hclk. exact Hm. }
      unfold bind at 1. rewrite Hround. cbn [ret]. eauto.
  - unfold bind at 1. cbn [ret]. eauto.
Qed.

(** Once a port is in use [clock_path_delay] returns in every state of a
    run: the filter it accumulates into exists. *)
Theorem clock_path_delay_returns req rx correction s :
  reachable s -> nports (clk s) <> 0%nat ->
  exists s' tr, clock_path_delay req rx correction s = Some (tt, s', tr).
Proof.
  intros Hs Hn. destruct (reachable_keeps_sound s Hs) as [_ Hres].
  destruct (Hres Hn) as ([m Hm] & _).
  rewrite clock_path_delay_run. cbv zeta. rewrite Hm.
  destruct (_ <? 0); eauto.
Qed.

End Sound.

(** ** The roles of a round *)

Section Roles.
Context `{E : Env}.

Lemma grandmaster_parentDS_base (c c' : clock mave) :
  role_base c' = role_base c ->
  grandmaster_parentDS (dds c') (dad c') = grandmaster_parentDS (dds c) (dad c).
Proof.
  unfold role_base, grandmaster_parentDS. intros [= -> -> -> ->]. reflexivity.
Qed.

(** One port of the second loop. *)
Lemma assign_role_effect i s p :
  port (clk s) !! i = Some p ->
  let r := bmc_state_decision (clk s) p (ext s) in
  exists s',
    assign_role i s
    = Some (tt, s', [CBmcStateDecision p r; CPortDispatch p (role_event r)])
    /\ port (clk s') = port (clk s)
    /\ role_base (clk s') = role_base (clk s)
    /\ (plain_role r -> role_datasets (clk s') = role_datasets (clk s))
    /\ (r = PS_GRAND_MASTER ->
        role_datasets (clk s')
        = (zero_currentDS, grandmaster_parentDS (dds (clk s)) (dad (clk s)),
           grandmaster_tds)).
Proof.
  intros Hp. cbv zeta. unfold assign_role.
  unfold bind at 1. rewrite (port_at_run _ _ _ Hp).
  unfold bind at 1. cbn [get_clock].
  unfold bind at 1. unfold ext_ask at 1. cbn.
  unfold plain_role.
  destruct (bmc_state_decision (clk s) p (ext s)); cbn;
    eexists; (split; [reflexivity |]);
    repeat split; try reflexivity; try congruence; try tauto;
    intros; discriminate.
Qed.

(** The second loop over the ports [ps]: a role decision and one
    dispatch per port, in order; the data sets are as the last role that
    updates them left them. *)
Lemma assign_roles_shape (l : list nat) (ps : list ptr) s s' tr :
  Forall2 (fun i p => port (clk s) !! i = Some p) l ps ->
  for_each l assign_role s = Some (tt, s', tr) ->
  exists pss,
    length pss = length l
    /\ tr = role_calls ps pss
    /\ role_base (clk s') = role_base (clk s)
    /\ (Forall plain_role pss ->
        role_datasets (clk s') = role_datasets (clk s))
    /\ (last pss = Some PS_GRAND_MASTER ->
        role_datasets (clk s')
        = (zero_currentDS, grandmaster_parentDS (dds (clk s)) (dad (clk s)),
           grandmaster_tds)).
Proof.
  intros H. revert s tr H. induction l as [| i l IH] in ps |- *;
    intros s tr H Hrun.
  - apply Forall2_nil_inv_l in H as ->. injection Hrun as <- <-.
    exists []. repeat split; auto. discriminate.
  - apply Forall2_cons_inv_l in H as (p & ps' & Hp & Hps & ->).
    cbn [for_each] in Hrun.
    apply bind_inv in Hrun as (u & s1 & t1 & t2 & H1 & Hrest & ->).
    destruct (assign_role_effect i s p Hp)
      as (s1' & Hrun1 & Hport & Hbase & Hplain & Hgm).
    cbv zeta in Hrun1. rewrite Hrun1 in H1. injection H1 as <- <- <-.
    destruct (IH ps' s1' t2) as (pss & Hlen & -> & Hbase' & Hplain' & Hgm');
      [rewrite Hport; exact Hps | exact Hrest |].
    exists (bmc_state_decision (clk s) p (ext s) :: pss).
    split; [cbn; lia |]. split; [reflexivity |].
    split; [congruence |]. split.
    + intros [Hr Hall]%Forall_cons. rewrite (Hplain' Hall). apply Hplain, Hr.
    + destruct pss as [| r pss].
      * cbn [last]. intros [= Hr].
        assert (Hl : l = []) by (destruct l; [reflexivity | discriminate]).
        subst l. injection Hrest as <- _. apply Hgm, Hr.
      * intros Hlast. rewrite Hgm'.
        -- rewrite (grandmaster_parentDS_base _ _ Hbase). reflexivity.
        -- exact Hlast.
Qed.

Lemma omap_selection_calls {A} (f : call -> option A) (tr : trace) :
  (forall c, selection_call c = true -> f c = None) ->
  forallb selection_call tr = true -> omap f tr = [].
Proof.
  intros Hf. induction tr as [| c tr IH]; [reflexivity |].
  cbn [forallb]. intros [Hc Htr]%andb_prop. cbn.
  rewrite (Hf c Hc). apply IH, Htr.
Qed.

Lemma role_calls_ports (ps : list ptr) pss :
  length pss = length ps -> omap dispatched_port (role_calls ps pss) = ps.
Proof.
  unfold role_calls. revert pss.
  induction ps as [| p ps IH]; intros [| r pss]; cbn; try discriminate;
    [reflexivity |].
  intros [= Hlen]. f_equal. apply IH, Hlen.
Qed.

Lemma role_calls_roles (ps : list ptr) pss :
  length pss = length ps -> omap decided_role (role_calls ps pss) = pss.
Proof.
  unfold role_calls. revert pss.
  induction ps as [| p ps IH]; intros [| r pss]; cbn; try discriminate;
    [reflexivity |].
  intros [= Hlen]. f_equal. apply IH, Hlen.
Qed.

Lemma role_calls_events (ps : list ptr) pss p ev :
  In (CPortDispatch p ev) (role_calls ps pss) -> In ev role_events.
Proof.
  unfold role_calls. revert pss.
  induction ps as [| q ps IH]; intros [| r pss]; cbn [zip_with concat In app];
    try tauto.
  intros [[=] | [[= _ <-] | H]].
  - destruct r; cbn; tauto.
  - exact (IH _ H).
Qed.

(** A round that selects a candidate, taken apart: the calls of the
    selection, then the second loop from a controller whose data sets and
    ports are those the round started with. *)
Lemma decision_shape s s' tr b :
  wf (clk s) ->
  handle_state_decision_event s = Some (tt, s', tr) ->
  selected s = Some b -> b <> NULL ->
  exists head s2 roles,
    tr = head ++ roles
    /\ forallb selection_call head = true
    /\ selection_frame (clk s2) = selection_frame (clk s)
    /\ for_each (seq 0 (nports (clk s))) assign_role s2 = Some (tt, s', roles).
Proof.
  intros Hwf H Hsel Hb.
  unfold selected, best_scan in Hsel. unfold handle_state_decision_event in H.
  apply bind_inv in H as (c & s0 & ? & ? & [= <- <- <-] & H & ->).
  apply bind_inv in H as (b' & s1 & tscan & ? & Hscan & H & ->).
  rewrite Hscan in Hsel. injection Hsel as ->.
  destruct (Z.eqb_spec b NULL) as [| _]; [contradiction |].
  apply bind_inv in H as (u & s1r & treset & ? & Hreset & H & ->).
  apply bind_inv in H as (? & s2 & ? & roles & [= _ <- <-] & H & ->).
  assert (Hk1 : keeps (same_on selection_frame)
                  (for_fold (seq 0 (nports (clk s))) select_step NULL)).
  { unfold select_step. keeps_tac. }
  assert (He1 : emits selection_call
                  (for_fold (seq 0 (nports (clk s))) select_step NULL)).
  { unfold select_step. emits_tac; reflexivity. }
  assert (Hk2 : keeps (same_on selection_frame)
                  (if best (clk s) =? b then ret tt else reset_avg_delay)).
  { destruct (_ =? _); [keeps_tac |].
    intros sa a sb t Hr. unfold reset_avg_delay in Hr.
    apply bind_inv in Hr as (? & ? & ? & ? & [= <- <- _] & Hr & _).
    apply bind_inv in Hr as (? & ? & ? & ? & Hm & [= _ <- _] & _).
    apply of_option_inv in Hm as (_ & -> & _). reflexivity. }
  assert (He2 : emits selection_call
                  (if best (clk s) =? b then ret tt else reset_avg_delay)).
  { destruct (_ =? _); [apply emits_ret | apply emits_reset; reflexivity]. }
  pose proof (Hk1 _ _ _ _ Hscan) as Hf1. pose proof (Hk2 _ _ _ _ Hreset) as Hf2.
  unfold same_on in Hf1, Hf2.
  exists ([] ++ tscan ++ treset ++ []), {| clk := set_best b (clk s1r);
                                          ext := ext s1r |}, roles.
  split; [rewrite <- !app_assoc; reflexivity |]. split.
  - cbn [app]. rewrite !forallb_app, (He1 _ _ _ _ Hscan), (He2 _ _ _ _ Hreset).
    reflexivity.
  - split; [| exact H].
    transitivity (selection_frame (clk s1r)); [reflexivity | congruence].
Qed.

(** A round that selects a candidate dispatches exactly one event to
    every port in use, in port order, and to no other port; the event is
    one of [EV_NONE], [EV_RS_MASTER], [EV_RS_PASSIVE], [EV_RS_SLAVE] and
    [EV_INITIALIZE]. *)
Theorem decision_dispatches_once s m b :
  wf (clk s) -> avg_delay (clk s) = Some m ->
  selected s = Some b -> b <> NULL ->
  exists s' tr,
    handle_state_decision_event s = Some (tt, s', tr)
    /\ omap dispatched_port tr = take (nports (clk s)) (port (clk s))
    /\ forall p ev, In (CPortDispatch p ev) tr -> In ev role_events.
Proof.
  intros Hwf Hm Hsel Hb.
  destruct (decision_total s m Hwf Hm) as (s' & tr & Hrun & _).
  exists s', tr. split; [exact Hrun |].
  destruct (decision_shape s s' tr b Hwf Hrun Hsel Hb)
    as (head & s2 & roles & -> & Hhead & Hframe & Hroles).
  pose proof (f_equal (fun x => snd (fst x)) Hframe) as Hport.
  cbn [selection_frame fst snd] in Hport.
  apply assign_roles_shape
    with (ps := take (nports (clk s)) (port (clk s))) in Hroles
    as (pss & Hlen & -> & _).
  2:{ rewrite Hport. apply ports_in_use, Hwf. }
  rewrite length_seq in Hlen.
  assert (Hps : length pss = length (take (nports (clk s)) (port (clk s)))).
  { rewrite length_take. destruct Hwf as (? & _ & ?). lia. }
  split.
  - rewrite omap_app, (omap_selection_calls _ head), role_calls_ports;
      [reflexivity | exact Hps | | exact Hhead].
    intros [] Hc; try reflexivity; discriminate.
  - intros p ev [Hin | Hin]%in_app_iff.
    + rewrite forallb_forall in Hhead. specialize (Hhead _ Hin). discriminate.
    + eapply role_calls_events, Hin.
Qed.

(** The data sets after a round that selects a candidate, by the roles
    decided for the ports in use: when no port is given the role of grand
    master or of slave the three data sets are untouched; when the last
    port is given the role of grand master, the current data set is
    cleared, the time properties are the defaults of an internal
    oscillator, and the parent data set names the clock itself, with the
    priorities of the default data set. *)
Theorem decision_datasets s m b :
  wf (clk s) -> avg_delay (clk s) = Some m ->
  selected s = Some b -> b <> NULL ->
  exists s' tr,
    handle_state_decision_event s = Some (tt, s', tr)
    /\ length (omap decided_role tr) = nports (clk s)
    /\ (Forall plain_role (omap decided_role tr) ->
        role_datasets (clk s') = role_datasets (clk s))
    /\ (last (omap decided_role tr) = Some PS_GRAND_MASTER ->
        role_datasets (clk s')
        = (zero_currentDS, grandmaster_parentDS (dds (clk s)) (dad (clk s)),
           grandmaster_tds)).
Proof.
  intros Hwf Hm Hsel Hb.
  destruct (decision_total s m Hwf Hm) as (s' & tr & Hrun & _).
  exists s', tr. split; [exact Hrun |].
  destruct (decision_shape s s' tr b Hwf Hrun Hsel Hb)
    as (head & s2 & roles & -> & Hhead & Hframe & Hroles).
  pose proof (f_equal (fun x => fst (fst (fst x))) Hframe) as Hds.
  pose proof (f_equal (fun x => snd (fst (fst x))) Hframe) as Hbase.
  pose proof (f_equal (fun x => snd (fst x)) Hframe) as Hport.
  cbn [selection_frame fst snd] in Hds, Hbase, Hport.
  apply assign_roles_shape
    with (ps := take (nports (clk s)) (port (clk s))) in Hroles
    as (pss & Hlen & -> & _ & Hplain & Hgm).
  2:{ rewrite Hport. apply ports_in_use, Hwf. }
  rewrite length_seq in Hlen.
  assert (Hps : length pss = length (take (nports (clk s)) (port (clk s)))).
  { rewrite length_take. destruct Hwf as (? & _ & ?). lia. }
  assert (Hroles : omap decided_role
                     (head ++ role_calls (take (nports (clk s)) (port (clk s)))
                                         pss) = pss).
  { rewrite omap_app, (omap_selection_calls _ head), role_calls_roles;
      [reflexivity | exact Hps | | exact Hhead].
    intros [] Hc; try reflexivity; discriminate. }
  rewrite Hroles. split; [exact Hlen |]. split.
  - intros Hall. rewrite (Hplain Hall). exact Hds.
  - intros Hlast. rewrite (Hgm Hlast).
    rewrite (grandmaster_parentDS_base (clk s) (clk s2) Hbase). reflexivity.
Qed.

End Roles.

(** ** What creation releases, and what it publishes *)

Section CreateCloses.
Context `{E : Env}.

Lemma filter_quiet (P : call -> bool) (tr : trace) :
  forallb (fun c => negb (P c)) tr = true -> List.filter P tr = [].
Proof.
  induction tr as [| c tr IH]; [reflexivity |].
  cbn [forallb List.filter]. intros [Hc Htr]%andb_prop.
  destruct (P c); [discriminate | apply IH, Htr].
Qed.

Lemma filter_closes (c : clock mave) : List.filter is_close (closes c) = closes c.
Proof.
  unfold closes. rewrite List.filter_app. f_equal.
  - induction (take (nports c) (port c)) as [| p ps IH]; [reflexivity |].
    cbn. f_equal. exact IH.
  - destruct (clkid c =? CLOCK_REALTIME); reflexivity.
Qed.

(** The only things [clock_create] closes are those the controller held
    when it was called with ports in use: these ports, in port order, and
    the clock device.  Nothing that the call itself has opened is closed,
    whether the call succeeds or fails, and a controller without a port in
    use has nothing closed at all. *)
Theorem clock_create_closes phc iface count ds s b s' tr :
  (nports (clk s) <= length (port (clk s)))%nat ->
  clock_create phc iface count ds s = Some (b, s', tr) ->
  List.filter is_close tr
  = if decide (nports (clk s) = 0%nat) then [] else closes (clk s).
Proof.
  intros Hn H. unfold clock_create in H.
  apply bind_inv in H as (? & s1 & t1 & ? & [= _ <- <-] & H & ->).
  apply bind_inv in H as (c & s2 & ? & ? & [= <- <- <-] & H & ->).
  apply bind_inv in H as (u3 & s3 & t3 & rest & Hd & H & ->).
  cbn [clk ext] in *.
  assert (Hrest : List.filter is_close rest = []).
  { match type of H with
    | ?m _ = _ =>
        assert (Hq : emits (fun c => negb (is_close c)) m)
          by (unfold open_device; emits_tac; reflexivity)
    end.
    apply filter_quiet, (Hq _ _ _ _ H). }
  cbn [app List.filter is_close]. rewrite List.filter_app, Hrest, app_nil_r.
  destruct (decide (nports (clk s) = 0%nat)) as [Hz | Hnz].
  - destruct (Nat.eqb_spec (nports (clk s)) 0) as [_ | Hne]; [| contradiction].
    injection Hd as _ _ <-. reflexivity.
  - destruct (Nat.eqb_spec (nports (clk s)) 0) as [He | _]; [contradiction |].
    change (clock_destroy {| clk := clk s; ext := srandom_time (ext s) |}
            = Some (u3, s3, t3)) in Hd.
    rewrite clock_destroy_run in Hd by exact Hn. cbv zeta in Hd.
    injection Hd as _ _ <-. apply filter_closes.
Qed.

(** What a controller created with the default data set [ds] answers:
    the class, the domain number, the identity and the slave-only flag of
    [ds]; as its parent the clock itself, port 0; and as the data set that
    stands for it in the comparisons the priorities, identity and quality
    of [ds], no step removed, sent and received by the clock itself. *)
Theorem clock_create_answers phc iface count ds s s' tr :
  clock_create phc iface count ds s = Some (true, s', tr) ->
  clock_class (clk s') = clockClass (dds_clockQuality ds)
  /\ clock_domain_number (clk s') = dds_domainNumber ds
  /\ clock_identity (clk s') = dds_clockIdentity ds
  /\ clock_slave_only (clk s') = dds_slaveOnly ds
  /\ clock_parent_identity (clk s')
     = {| clockIdentity := dds_clockIdentity ds; portNumber := 0 |}
  /\ clock_default_ds s'
     = Some (dataset_of_dds ds,
             {| clk := set_default_dataset (dataset_of_dds ds) (clk s');
                ext := ext s' |}, []).
Proof.
  intros H. apply clock_create_outcome in H as (id & _ & H). cbv zeta in H.
  destruct H as (sv & m & ports' & tr0 & Hclk & _).
  unfold clock_class, clock_domain_number, clock_identity, clock_slave_only,
    clock_parent_identity, clock_default_ds.
  unfold bind, modify, get_clock, ret. rewrite Hclk. cbn.
  repeat split; reflexivity.
Qed.

End CreateCloses.

(** ** What stays as created *)

Section Configuration.
Context `{E : Env}.

Lemma keeps_configuration_reset :
  keeps (same_on configuration) reset_avg_delay.
Proof.
  intros s a s' tr H. unfold reset_avg_delay in H.
  apply bind_inv in H as (c & s1 & ? & ? & [= <- <- _] & H & _).
  apply bind_inv in H as (m & s2 & ? & ? & Hm & [= _ <- _] & _).
  apply of_option_inv in Hm as (_ & -> & _). reflexivity.
Qed.

Lemma keeps_configuration_decision :
  keeps (same_on configuration) handle_state_decision_event.
Proof.
  unfold handle_state_decision_event, select_step, assign_role, role_update,
    clock_update_grandmaster, clock_update_slave.
  keeps_tac; try apply keeps_configuration_reset; reflexivity.
Qed.

(** Between a creation and the next one the configuration of the
    controller stays: polling, the decision round, the installation of
    descriptors, the delay measurement, the synchronization and the
    refreshing of the default data set change neither the default data
    set, nor the clock device, nor the servo, nor the ports in use. *)
Theorem configuration_kept :
  keeps (same_on configuration) clock_poll
  /\ keeps (same_on configuration) handle_state_decision_event
  /\ (forall p fda, keeps (same_on configuration) (clock_install_fda p fda))
  /\ (forall req rx k, keeps (same_on configuration) (clock_path_delay req rx k))
  /\ (forall its ots k1 k2,
        keeps (same_on configuration) (clock_synchronize its ots k1 k2))
  /\ keeps (same_on configuration) clock_default_ds.
Proof.
  split; [| split; [exact keeps_configuration_decision
                   | split; [| split; [| split]]]].
  - unfold clock_poll, poll_scan, poll_slot.
    keeps_tac; try apply keeps_configuration_decision; reflexivity.
  - intros. unfold clock_install_fda, store_pollfd. keeps_tac; reflexivity.
  - intros req rx k s a s' tr. rewrite clock_path_delay_run. cbv zeta.
    destruct (_ <? 0); [intros [= <- <- _]; reflexivity |].
    destruct (avg_delay (clk s)); [| discriminate].
    intros [= _ <- _]. reflexivity.
  - intros. unfold clock_synchronize. keeps_tac; reflexivity.
  - unfold clock_default_ds. keeps_tac; reflexivity.
Qed.

End Configuration.

(** ** The delay of a symmetric path *)

Section SymmetricPath.
Context `{E : Env}.

Lemma clock_synchronize_clk its ots k1 k2 s u s1 tr :
  clock_synchronize its ots k1 k2 s = Some (u, s1, tr) ->
  clk s1
  = synchronized (timespec_to_tmv its) (timestamp_to_tmv ots)
      (correction_to_tmv k1) (correction_to_tmv k2) (clk s).
Proof.
  rewrite synchronize_head. cbv zeta. intros H.
  match type of H with
  | ?m _ = _ => assert (Hk : keeps (same_on (fun c => c)) m) by keeps_tac
  end.
  symmetry. exact (Hk _ _ _ _ H).
Qed.

(** The delay request that follows a synchronization measures a
    symmetric path exactly: when the synchronization message took the
    delay [d] and its two corrections to arrive, and the delay request
    took [d] and its correction, the value [clock_path_delay] feeds to the
    filter is [d], whatever the offset [theta] between the two clocks, and
    the filter's answer is published as the path delay. *)
Theorem symmetric_path_delay its ots k1 k2 req rx k3 s s1 tr1 m d theta :
  clock_synchronize its ots k1 k2 s = Some (tt, s1, tr1) ->
  avg_delay (clk s) = Some m ->
  0 <= d ->
  timespec_to_tmv its
  = timestamp_to_tmv ots + correction_to_tmv k1 + correction_to_tmv k2
    + d + theta ->
  timestamp_to_tmv rx = timespec_to_tmv req + correction_to_tmv k3 + d - theta ->
  clock_path_delay req rx k3 s1
  = Some (tt,
          {| clk := set_path_delay (mave_accumulate m d).2
                      (set_avg_delay (Some (mave_accumulate m d).1) (clk s1));
             ext := ext s1 |},
          [CMaveAccumulate d (mave_accumulate m d).2]).
Proof.
  intros Hsync Hm Hd Hin Hout.
  pose proof (clock_synchronize_clk _ _ _ _ _ _ _ _ Hsync) as Hclk.
  rewrite clock_path_delay_run. cbv zeta.
  assert (Hraw : raw_delay (clk s1) req rx k3 = 2 * d).
  { unfold raw_delay. rewrite Hclk. unfold synchronized. cbn. lia. }
  assert (Hpd : tmv_div (raw_delay (clk s1) req rx k3) 2 = d).
  { rewrite Hraw. unfold tmv_div. rewrite Z.mul_comm.
    apply Z.quot_mul. lia. }
  rewrite Hpd. destruct (Z.ltb_spec d 0) as [Hneg | _]; [lia |].
  assert (Hm1 : avg_delay (clk s1) = Some m).
  { rewrite Hclk. unfold synchronized. cbn. exact Hm. }
  rewrite Hm1. reflexivity.
Qed.

End SymmetricPath.

(** ** The number of ports *)

Section PortBound.
Context `{E : Env}.

Lemma answer_bind {A B} (m : M A) (f : A -> M B) s a s1 tr1 :
  m s = Some (a, s1, tr1) -> answer (bind m f) s = answer (f a) s1.
Proof.
  intros H. unfold answer, bind. rewrite H.
  destruct (f a s1) as [[[b s2] tr2] |]; reflexivity.
Qed.

Lemma ext_ask_run {A} (f : world -> A * world) (c : A -> call) s :
  ext_ask f c s
  = Some ((f (ext s)).1, {| clk := clk s; ext := (f (ext s)).2 |},
          [c (f (ext s)).1]).
Proof. unfold ext_ask. destruct (f (ext s)). reflexivity. Qed.

Lemma sw_ts_scan_returns iface i n s :
  (i + n <= length iface)%nat ->
  exists v, sw_ts_scan iface i n s = Some (v, s, []).
Proof.
  revert i. induction n as [| n IH]; intros i Hi; [exists 0; reflexivity |].
  cbn [sw_ts_scan]. destruct (lookup_lt_is_Some_2 iface i ltac:(lia)) as [f Hf].
  unfold bind at 1. rewrite Hf. cbn [of_option ret].
  destruct (timestamping f =? TS_SOFTWARE); [exists 1; reflexivity |].
  destruct (IH (S i) ltac:(lia)) as [v Hv]. exists v. rewrite Hv. reflexivity.
Qed.

(** The loop that opens the ports, within the port array: it opens every
    port and keeps the size of the array. *)
Lemma open_ports_returns iface i n s :
  (forall f number dm w, 1 <= number -> (port_open f number dm w).1 <> NULL) ->
  (i + n <= length iface)%nat ->
  (i + n <= length (port (clk s)))%nat ->
  exists s' tr,
    open_ports iface i n s = Some (true, s', tr)
    /\ length (port (clk s')) = length (port (clk s)).
Proof.
  intros Hopen. revert i s. induction n as [| n IH]; intros i s Hi Hp.
  { exists s, []. split; reflexivity. }
  cbn [open_ports].
  destruct (lookup_lt_is_Some_2 iface i ltac:(lia)) as [f Hf].
  set (r := port_open f (1 + Z.of_nat i) DM_E2E (ext s)).
  set (s1 := {| clk := set_port (<[i := r.1]> (port (clk s))) (clk s);
                ext := r.2 |}).
  destruct (IH (S i) s1) as (s' & tr & Hrun & Hlen); [lia | |].
  { subst s1. cbn. rewrite length_insert. lia. }
  exists s', (CPortOpen f (1 + Z.of_nat i) r.1 :: tr). split.
  - unfold bind at 1. rewrite Hf. cbn [of_option ret].
    unfold bind at 1. rewrite ext_ask_run. fold r.
    unfold bind at 1. unfold store_port. unfold bind at 1. cbn [get_clock clk].
    destruct (decide (i < length (port (clk s)))%nat) as [_ | Hge]; [| lia].
    cbn [modify clk ext]. fold s1.
    destruct (Z.eqb_spec r.1 NULL) as [He | _].
    { exfalso. apply (Hopen f (1 + Z.of_nat i) DM_E2E (ext s)); [lia | exact He]. }
    rewrite Hrun. reflexivity.
  - rewrite Hlen. subst s1. cbn. apply length_insert.
Qed.

(** The same loop, asked for more ports than the array holds: it opens
    the ports that fit, opens one more, and stores it past the end of the
    array. *)
Lemma open_ports_overflow iface i n s :
  (forall f number dm w, 1 <= number -> (port_open f number dm w).1 <> NULL) ->
  (i + n <= length iface)%nat ->
  (i <= length (port (clk s)) < i + n)%nat ->
  open_ports iface i n s = None.
Proof.
  intros Hopen. revert i s. induction n as [| n IH]; intros i s Hi Hp; [lia |].
  cbn [open_ports].
  destruct (lookup_lt_is_Some_2 iface i ltac:(lia)) as [f Hf].
  set (r := port_open f (1 + Z.of_nat i) DM_E2E (ext s)).
  unfold bind at 1. rewrite Hf. cbn [of_option ret].
  unfold bind at 1. rewrite ext_ask_run. fold r.
  unfold bind at 1. unfold store_port. unfold bind at 1. cbn [get_clock clk].
  destruct (decide (i < length (port (clk s)))%nat) as [Hlt | Hge];
    [| reflexivity].
  cbn [modify clk ext].
  destruct (Z.eqb_spec r.1 NULL) as [He | _].
  { exfalso. apply (Hopen f (1 + Z.of_nat i) DM_E2E (ext s)); [lia | exact He]. }
  rewrite IH; [reflexivity | lia |]. cbn. rewrite length_insert. lia.
Qed.

Lemma open_device_returns phc s :
  obliging ->
  exists max_adj s' tr,
    open_device phc s = Some (Some max_adj, s', tr)
    /\ port (clk s') = port (clk s).
Proof.
  intros (Hphc & Hadj & _). destruct phc as [path |]; cbn [open_device].
  - set (r := phc_open path (ext s)).
    set (s1 := {| clk := set_clkid r.1 (clk s); ext := r.2 |}).
    set (q := phc_max_adj r.1 (ext s1)).
    exists q.1, {| clk := clk s1; ext := q.2 |}, [CPhcOpen path r.1;
                                                  CPhcMaxAdj r.1 q.1].
    split; [| reflexivity].
    unfold bind at 1. rewrite ext_ask_run. fold r.
    unfold bind at 1. cbn [modify clk ext]. fold s1.
    destruct (Z.eqb_spec r.1 CLOCK_INVALID) as [He | _];
      [exfalso; exact (Hphc _ _ He) |].
    unfold bind at 1. rewrite ext_ask_run. fold q.
    destruct (Z.eqb_spec q.1 0) as [He | _]; [exfalso; exact (Hadj _ _ He) |].
    reflexivity.
  - eexists _, _, _. split; reflexivity.
Qed.

Lemma clock_create_answer phc iface count ds s :
  wf (clk s) -> obliging -> (count <= length iface)%nat ->
  answer (clock_create phc iface count ds) s
  = if decide (count <= MAX_PORTS)%nat then Some true else None.
Proof.
  intros (Hports & _ & Hn) Hob Hcount. pose proof Hob as (_ & _ & Hsv & Hmv & Hopen).
  unfold clock_create.
  erewrite answer_bind by reflexivity.
  erewrite answer_bind by reflexivity. cbn [clk ext].
  set (s2 := {| clk := clk s; ext := srandom_time (ext s) |}).
  assert (H3 : exists s3 t3,
             (if decide (nports (clk s) = 0%nat) then ret tt else clock_destroy)
               s2 = Some (tt, s3, t3)
             /\ length (port (clk s3)) = MAX_PORTS).
  { destruct (decide _).
    - exists s2, []. split; [reflexivity | exact Hports].
    - pose proof (clock_destroy_run s2) as Hd. cbv zeta in Hd.
      rewrite Hd by (subst s2; cbn; lia).
      eexists _, _. split; [reflexivity |]. cbn. apply length_replicate. }
  destruct H3 as (s3 & t3 & H3 & Hp3).
  rewrite (answer_bind _ _ _ _ _ _ H3).
  destruct (open_device_returns phc s3 Hob) as (max_adj & s4 & t4 & H4 & Hp4).
  rewrite (answer_bind _ _ _ _ _ _ H4). cbv beta iota.
  destruct (sw_ts_scan_returns iface 0 count s4 ltac:(lia)) as (sw & H5).
  rewrite (answer_bind _ _ _ _ _ _ H5).
  rewrite (answer_bind _ _ _ _ _ _ (ext_ask_run _ _ _)).
  set (rs := servo_create "pi" max_adj sw (ext s4)).
  erewrite answer_bind by reflexivity. cbn [clk ext].
  destruct (Z.eqb_spec rs.1 NULL) as [He | _]; [exfalso; exact (Hsv _ _ _ _ He) |].
  rewrite (answer_bind _ _ _ _ _ _ (ext_ask_run _ _ _)). cbn [clk ext].
  set (rm := mave_create MAVE_LENGTH rs.2).
  erewrite answer_bind by reflexivity. cbn [clk ext].
  destruct (Hmv MAVE_LENGTH rs.2) as [m Hm]. fold rm in Hm. rewrite Hm.
  erewrite answer_bind by reflexivity.
  erewrite answer_bind by reflexivity.
  erewrite answer_bind by reflexivity. cbn [clk ext].
  match goal with
  | |- answer (bind (open_ports _ _ _) _) ?x = _ => set (s12 := x)
  end.
  assert (Hp12 : length (port (clk s12)) = MAX_PORTS).
  { subst s12. cbn. rewrite Hp4. exact Hp3. }
  destruct (decide (count <= MAX_PORTS)%nat) as [Hle | Hgt].
  - destruct (open_ports_returns iface 0 count s12 Hopen)
      as (s13 & t13 & H13 & Hp13); [lia | lia |].
    rewrite (answer_bind _ _ _ _ _ _ H13).
    erewrite answer_bind by reflexivity. cbn [clk ext].
    match goal with
    | |- answer (bind (for_each _ _) _) ?x = _ => set (s14 := x)
    end.
    pose proof (ports_loop (fun p => port_dispatch p EV_INITIALIZE)
                  (fun p => CPortDispatch p EV_INITIALIZE) (seq 0 count)
                  (take count (port (clk s14))) s14) as H15.
    assert (Hp14 : (count <= length (port (clk s14)))%nat)
      by (subst s14; cbn; lia).
    rewrite (answer_bind _ _ _ _ _ _ (H15 (ports_prefix _ _ Hp14))).
    reflexivity.
  - unfold answer, bind.
    rewrite (open_ports_overflow iface 0 count s12 Hopen); [reflexivity | lia | lia].
Qed.

(** [clock_create] does not compare [count] with the size of its port
    array.  With collaborators that never fail and [count] interfaces
    given, it returns the controller when [count] is at most [MAX_PORTS];
    with a larger [count] it does not fail either: it opens
    [MAX_PORTS + 1] ports and stores the last one past the end of the
    array, where the run of the model ends. *)
Theorem clock_create_port_bound phc iface count ds s :
  wf (clk s) -> obliging -> (count <= length iface)%nat ->
  ((count <= MAX_PORTS)%nat ->
   exists s' tr, clock_create phc iface count ds s = Some (true, s', tr))
  /\ ((MAX_PORTS < count)%nat ->
      clock_create phc iface count ds s = None
      /\ forall s12,
           length (port (clk s12)) = MAX_PORTS ->
           open_ports iface 0 count s12 = None
           /\ exists s13 tr,
                open_ports iface 0 MAX_PORTS s12 = Some (true, s13, tr)).
Proof.
  intros Hwf Hob Hcount.
  pose proof (clock_create_answer phc iface count ds s Hwf Hob Hcount) as H.
  unfold answer in H. pose proof Hob as (_ & _ & _ & _ & Hopen). split.
  - intros Hle. destruct (decide _) as [_ | Hgt]; [| lia].
    destruct (clock_create _ _ _ _ s) as [[[b s'] tr] |]; [| discriminate].
    injection H as ->. eauto.
  - intros Hgt. destruct (decide _) as [Hle | _]; [lia |]. split.
    + destruct (clock_create _ _ _ _ s) as [[[b s'] tr] |]; [discriminate |].
      reflexivity.
    + intros s12 Hp. split.
      * apply open_ports_overflow; [exact Hopen | lia | lia].
      * destruct (open_ports_returns iface 0 MAX_PORTS s12 Hopen)
          as (s13 & tr & Hrun & _); [lia | lia |]. eauto.
Qed.

End PortBound.

(** ** The first selection after a creation *)

Section FirstSelection.
Context `{E : Env}.

Local Ltac frame :=
  unfold preserves, sound, wf, has_resources, unselected; cbn;
  rewrite ?length_insert, ?length_imap; intros; try tauto.

Lemma keeps_unselected_decision :
  keeps (preserves (fun c => sound c /\ unselected c))
    handle_state_decision_event.
Proof.
  intros s a s' tr H [Hs Hun].
  split; [exact (keeps_sound_decision _ _ _ _ H Hs) |].
  destruct a. destruct Hs as [Hwf _].
  destruct (decision_run s Hwf) as (s1 & rws & _ & Hlen & Hclk & Hnone & _).
  cbv zeta in Hnone.
  destruct (decide (nports (clk s) = 0%nat)) as [Hz | Hnz].
  - rewrite Hz in Hlen. destruct rws; [| discriminate].
    rewrite (Hnone eq_refl) in H. injection H as <- _.
    rewrite Hclk. exact Hun.
  - intros Hn. pose proof (keeps_configuration_decision _ _ _ _ H) as Hsame.
    apply (f_equal (fun x => snd (fst x))) in Hsame. cbn in Hsame.
    congruence.
Qed.

Lemma keeps_unselected_create phc iface count ds :
  keeps (preserves (fun c => sound c /\ unselected c))
    (clock_create phc iface count ds).
Proof.
  intros s b s' tr H [Hs Hun].
  split; [exact (keeps_sound_create _ _ _ _ _ _ _ _ H Hs) |].
  apply clock_create_outcome in H as (id & _ & H). cbv zeta in H.
  assert (Hc0 : best (if decide (nports (clk s) = 0%nat) then clk s
                      else clock_zero) = NULL).
  { destruct (decide _) as [Hz | _]; [exact (Hun Hz) | reflexivity]. }
  destruct b.
  - destruct H as (sv & m & ports' & tr0 & -> & _). intros _. exact Hc0.
  - destruct H as (_ & _ & _ & Hb & _). intros _. rewrite Hb. exact Hc0.
Qed.

Lemma reachable_unselected s :
  reachable s -> sound (clk s) /\ unselected (clk s).
Proof.
  induction 1 as [w | s w _ IH | phc iface count ds s b s' tr _ IH Hrun
                  | s d s' tr _ IH Hrun
                  | p fda s s' tr _ IH Hrun | s r s' tr _ IH Hrun
                  | req rx k s s' tr _ IH Hrun
                  | its ots k1 k2 s s' tr _ IH Hrun].
  - split; [apply sound_zero | intros _; reflexivity].
  - exact IH.
  - exact (keeps_unselected_create _ _ _ _ _ _ _ _ Hrun IH).
  - revert Hrun IH. generalize s d s' tr. change (keeps
      (preserves (fun c => sound c /\ unselected c)) clock_default_ds).
    unfold clock_default_ds. keeps_tac; frame.
  - revert Hrun IH. generalize s tt s' tr. change (keeps
      (preserves (fun c => sound c /\ unselected c))
      (clock_install_fda p fda)).
    unfold clock_install_fda, store_pollfd. keeps_tac; frame.
  - revert Hrun IH. generalize s r s' tr. change (keeps
      (preserves (fun c => sound c /\ unselected c)) clock_poll).
    unfold clock_poll, poll_scan, poll_slot.
    keeps_tac; try apply keeps_unselected_decision; frame.
  - destruct IH as [Hs Hun].
    split; [exact (keeps_sound_path_delay _ _ _ _ _ _ _ Hrun Hs) |].
    revert Hrun. rewrite clock_path_delay_run. cbv zeta.
    destruct (_ <? 0); [intros [= <-]; exact Hun |].
    destruct (avg_delay (clk s)); [| discriminate].
    intros [= <-]. exact Hun.
  - revert Hrun IH. generalize s tt s' tr. change (keeps
      (preserves (fun c => sound c /\ unselected c))
      (clock_synchronize its ots k1 k2)).
    unfold clock_synchronize. keeps_tac; frame.
Qed.

(** Every creation in a run, successful or not, leaves the controller
    without a candidate; so the first round after a successful creation
    that selects a candidate, whatever the collaborators have done in
    between, resets the moving average and records the candidate. *)
Theorem first_selection_resets_filter phc iface count ds s b s1 tr1 w c :
  reachable s ->
  clock_create phc iface count ds s = Some (b, s1, tr1) ->
  best (clk s1) = NULL
  /\ (b = true ->
      selected {| clk := clk s1; ext := w |} = Some c -> c <> NULL ->
      exists s2 tr2 m,
        handle_state_decision_event {| clk := clk s1; ext := w |}
        = Some (tt, s2, tr2)
        /\ avg_delay (clk s1) = Some m
        /\ In CMaveReset tr2
        /\ avg_delay (clk s2) = Some (mave_reset m)
        /\ best (clk s2) = c).
Proof.
  intros Hs Hrun.
  assert (Hbest : best (clk s1) = NULL).
  { pose proof (reachable_unselected s Hs) as [_ Hun].
    apply clock_create_outcome in Hrun as (id & _ & H). cbv zeta in H.
    assert (Hc0 : best (if decide (nports (clk s) = 0%nat) then clk s
                        else clock_zero) = NULL).
    { destruct (decide _) as [Hz | _]; [exact (Hun Hz) | reflexivity]. }
    destruct b.
    - destruct H as (sv & m & ports' & tr0 & -> & _). exact Hc0.
    - destruct H as (_ & _ & _ & Hb & _). rewrite Hb. exact Hc0. }
  split; [exact Hbest |]. intros -> Hsel Hc.
  pose proof (reachable_unselected s1 (reach_create _ _ _ _ _ _ _ _ Hs Hrun))
    as [[Hwf _] _].
  apply clock_create_outcome in Hrun as (id & _ & H). cbv zeta in H.
  destruct H as (sv & m & ports' & tr0 & Hclk & _).
  assert (Hm : avg_delay (clk s1) = Some m) by (rewrite Hclk; reflexivity).
  set (s1w := {| clk := clk s1; ext := w |}) in *.
  destruct (decision_run s1w Hwf)
    as (s' & rws & Hscan & _ & _ & _ & Hsome). cbv zeta in Hscan, Hsome.
  unfold selected in Hsel. rewrite Hscan in Hsel. cbn in Hsel.
  injection Hsel as Hsel. rewrite Hsel in Hsome.
  destruct (Hsome Hc m Hm) as (s2 & roles & Hround & Hb2 & _ & _ & Hm2 & _).
  change (best (clk s1w)) with (best (clk s1)) in Hround, Hm2.
  rewrite Hbest in Hround, Hm2.
  destruct (Z.eqb_spec NULL c) as [He | _]; [congruence |].
  eexists s2, _, m. split; [exact Hround |]. split; [exact Hm |].
  split; [| split; [exact Hm2 | exact Hb2]].
  apply in_or_app. right. left. reflexivity.
Qed.

End FirstSelection.

(** ** The properties on concrete runs *)

Section DemoExtras.
#[local] Existing Instance Demo.env.

Lemma demo_created_any_reachable (w : Demo.table) : reachable (Demo.created w).
Proof.
  apply (reach_create None Demo.two_ifaces 2%nat Demo.ds0
           (Demo.boot w) true _
           [CSrandom; CServoCreate 512000 0 500; CMaveCreate 10 true;
            CPortOpen (Demo.eth "eth0") 1 101;
            CPortOpen (Demo.eth "eth1") 2 102;
            CPortDispatch 101 EV_INITIALIZE; CPortDispatch 102 EV_INITIALIZE]).
  - apply reach_boot.
  - vm_compute. reflexivity.
Qed.

Lemma demo_wf_created_any (w : Demo.table) : wf (clk (Demo.created w)).
Proof. vm_compute. repeat split; lia. Qed.

(** [clock_step_timex_sound] on the offset of minus one and a half
    seconds. *)
Lemma clock_step_timex_sound_witness :
  let tx := clock_step_timex (-1500000000) in
  INT64_MIN < -1500000000 <= INT64_MAX
  /\ modes tx = Z.lor ADJ_SETOFFSET ADJ_NANO
  /\ 0 <= time_tv_usec tx < NS_PER_SEC
  /\ time_tv_sec tx * NS_PER_SEC + time_tv_usec tx = -1500000000.
Proof.
  cbv zeta. split; [vm_compute; split; [reflexivity | discriminate] |].
  apply (clock_step_timex_sound (-1500000000)).
  vm_compute. split; [reflexivity | discriminate].
Defined.

(** [clock_destroy_spec] on the controller created over two interfaces on
    the system clock: the two ports are closed and nothing else. *)
Lemma clock_destroy_spec_witness :
  let s := Demo.created Demo.quiet in
  (nports (clk s) <= length (port (clk s)))%nat
  /\ clock_destroy s
     = Some (tt, {| clk := clock_zero; ext := Demo.quiet |},
             [CPortClose 101; CPortClose 102]).
Proof.
  cbv zeta. split; [vm_compute; lia |].
  rewrite (clock_destroy_spec (E := Demo.env) (Demo.created Demo.quiet));
    [vm_compute; reflexivity | vm_compute; lia].
Defined.

(** [clock_destroy_twice] on the same controller. *)
Lemma clock_destroy_twice_witness :
  let s' := {| clk := clock_zero; ext := Demo.quiet |} in
  clock_destroy (Demo.created Demo.quiet)
  = Some (tt, s', [CPortClose 101; CPortClose 102])
  /\ clk s' = clock_zero /\ clock_destroy s' = Some (tt, s', []).
Proof.
  cbv zeta. split; [vm_compute; reflexivity |].
  apply (clock_destroy_twice (E := Demo.env) (Demo.created Demo.quiet) _
           [CPortClose 101; CPortClose 102]).
  vm_compute. reflexivity.
Defined.

(** [clock_create_success] on the creation over two interfaces. *)
Lemma clock_create_success_witness :
  exists s' tr,
    clock_create None Demo.two_ifaces 2 Demo.ds0 (Demo.boot Demo.quiet)
    = Some (true, s', tr)
    /\ nports (clk s') = 2%nat
    /\ dds (clk s') = set_numberPorts 2 Demo.ds0
    /\ clkid (clk s') = CLOCK_REALTIME
    /\ exists tr0,
         tr = tr0 ++ map (fun p => CPortDispatch p EV_INITIALIZE)
                         (take 2 (port (clk s')))
         /\ forallb (fun c => negb (is_dispatch c)) tr0 = true.
Proof.
  assert (Hrun : exists s' tr,
             clock_create None Demo.two_ifaces 2 Demo.ds0
               (Demo.boot Demo.quiet) = Some (true, s', tr))
    by (eexists _, _; vm_compute; reflexivity).
  destruct Hrun as (s' & tr & Hrun). exists s', tr. split; [exact Hrun |].
  destruct (clock_create_success (E := Demo.env) None Demo.two_ifaces 2
              Demo.ds0 (Demo.boot Demo.quiet) s' tr Hrun)
    as (Hn & Hdds & _ & _ & _ & _ & Hid & Htr).
  split; [exact Hn |]. split; [exact Hdds |].
  split; [exact (Hid eq_refl) | exact Htr].
Defined.

(** [clock_create_failure] on a creation whose second port cannot be
    opened: the first port has been opened, yet no port is in use. *)
Lemma clock_create_failure_witness :
  exists s' tr,
    clock_create (E := Faulty.env) None Demo.two_ifaces 2 Demo.ds0 Faulty.boot
    = Some (false, s', tr)
    /\ In (CPortOpen (Demo.eth "eth0") 1 101) tr
    /\ nports (clk s') = 0%nat
    /\ forallb (fun c => negb (is_dispatch c)) tr = true.
Proof.
  assert (Hrun : exists s',
             clock_create (E := Faulty.env) None Demo.two_ifaces 2 Demo.ds0
               Faulty.boot
             = Some (false, s',
                     [CSrandom; CServoCreate 512000 0 500; CMaveCreate 10 true;
                      CPortOpen (Demo.eth "eth0") 1 101;
                      CPortOpen (Demo.eth "eth1") 2 NULL]))
    by (eexists; vm_compute; reflexivity).
  destruct Hrun as (s' & Hrun). exists s'. eexists. split; [exact Hrun |].
  split; [cbn; tauto |].
  exact (clock_create_failure (E := Faulty.env) None Demo.two_ifaces 2
           Demo.ds0 Faulty.boot _ _ Hrun).
Defined.

(** [reachable_sound] on the controller that has measured a delay. *)
Lemma reachable_sound_witness :
  reachable (Demo.measured Demo.quiet)
  /\ sound (clk (Demo.measured Demo.quiet)).
Proof.
  split; [exact demo_measured_reachable |].
  exact (reachable_sound (E := Demo.env) (Demo.measured Demo.quiet)
           demo_measured_reachable).
Defined.

(** [clock_poll_returns] on the wakeup with three ready slots. *)
Lemma clock_poll_returns_witness :
  let s := Demo.created Demo.busy in
  let r := (sys_poll (pollfds (clk s)) (ext s)).1 in
  reachable s
  /\ exists s' tr,
       clock_poll s
       = Some (if (poll_cnt r <? 0) && negb (poll_errno r =? EINTR)
               then -1 else 0, s', tr).
Proof.
  split; [apply demo_created_any_reachable |].
  exact (clock_poll_returns (E := Demo.env) (Demo.created Demo.busy)
           (demo_created_any_reachable Demo.busy)).
Defined.

(** [clock_path_delay_returns] on the created controller. *)
Lemma clock_path_delay_returns_witness :
  let s := Demo.created Demo.quiet in
  let req := {| tv_sec := 0; tv_nsec := 0 |} in
  let rx := {| sec := 0; nsec := 200 |} in
  (reachable s /\ nports (clk s) <> 0%nat)
  /\ exists s' tr, clock_path_delay req rx 0 s = Some (tt, s', tr).
Proof.
  assert (Hn : nports (clk (Demo.created Demo.quiet)) <> 0%nat)
    by (vm_compute; discriminate).
  split; [split; [apply demo_created_any_reachable | exact Hn] |].
  exact (clock_path_delay_returns (E := Demo.env) _ _ 0
           (Demo.created Demo.quiet) (demo_created_any_reachable Demo.quiet) Hn).
Defined.

(** [decision_dispatches_once] on the round over the tied candidates. *)
Lemma decision_dispatches_once_witness :
  let s := Demo.created Demo.tied in
  exists s' tr,
    handle_state_decision_event s = Some (tt, s', tr)
    /\ omap dispatched_port tr = [101; 102]
    /\ forall p ev, In (CPortDispatch p ev) tr -> In ev role_events.
Proof.
  cbv zeta.
  destruct (decision_dispatches_once (E := Demo.env) (Demo.created Demo.tied)
              [] 205 (demo_wf_created_any Demo.tied))
    as (s' & tr & Hrun & Hports & Hev);
    [vm_compute; reflexivity | vm_compute; reflexivity | discriminate |].
  exists s', tr. split; [exact Hrun |]. split; [| exact Hev].
  rewrite Hports. vm_compute. reflexivity.
Defined.

(** [decision_datasets] on a round that decides both ports to be the
    grand master: the data sets are those of a grand master, with the
    second priority of the default data set. *)
Lemma decision_datasets_witness :
  let s := Demo.created Elected.table in
  exists s' tr,
    handle_state_decision_event s = Some (tt, s', tr)
    /\ omap decided_role tr = [PS_GRAND_MASTER; PS_GRAND_MASTER]
    /\ role_datasets (clk s')
       = (zero_currentDS, grandmaster_parentDS (dds (clk s)) (dad (clk s)),
          grandmaster_tds)
    /\ grandmasterPriority2 (dad (clk s')) = 127.
Proof.
  cbv zeta.
  destruct (decision_datasets (E := Demo.env) (Demo.created Elected.table)
              [] 205 (demo_wf_created_any Elected.table))
    as (s' & tr & Hrun & _ & _ & Hgm);
    [vm_compute; reflexivity | vm_compute; reflexivity | discriminate |].
  assert (Hroles : omap decided_role tr = [PS_GRAND_MASTER; PS_GRAND_MASTER]).
  { pose proof Hrun as Hc. vm_compute in Hc. injection Hc as _ <-.
    reflexivity. }
  exists s', tr. split; [exact Hrun |]. split; [exact Hroles |].
  rewrite Hroles in Hgm. specialize (Hgm eq_refl).
  split; [exact Hgm |].
  pose proof (f_equal (fun x => grandmasterPriority2 (snd (fst x))) Hgm) as H2.
  cbn [role_datasets fst snd] in H2. rewrite H2. vm_compute. reflexivity.
Defined.

(** [clock_create_closes] on a second creation, over the controller
    created before: its two ports are closed, and nothing else. *)
Lemma clock_create_closes_witness :
  let s := Demo.created Demo.quiet in
  exists s' tr,
    clock_create None Demo.two_ifaces 2 Demo.ds0 s = Some (true, s', tr)
    /\ List.filter is_close tr = [CPortClose 101; CPortClose 102].
Proof.
  cbv zeta.
  assert (Hrun : exists s' tr,
             clock_create None Demo.two_ifaces 2 Demo.ds0
               (Demo.created Demo.quiet) = Some (true, s', tr))
    by (eexists _, _; vm_compute; reflexivity).
  destruct Hrun as (s' & tr & Hrun). exists s', tr. split; [exact Hrun |].
  rewrite (clock_create_closes (E := Demo.env) None Demo.two_ifaces 2 Demo.ds0
             (Demo.created Demo.quiet) true s' tr ltac:(vm_compute; lia) Hrun).
  vm_compute. reflexivity.
Defined.

(** [clock_create_answers] on the creation over two interfaces. *)
Lemma clock_create_answers_witness :
  let s' := Demo.created Demo.quiet in
  clock_class (clk s') = 248
  /\ clock_domain_number (clk s') = 0
  /\ clock_identity (clk s') = 7
  /\ clock_slave_only (clk s') = 0
  /\ clock_parent_identity (clk s') = {| clockIdentity := 7; portNumber := 0 |}
  /\ clock_default_ds s'
     = Some (dataset_of_dds Demo.ds0,
             {| clk := set_default_dataset (dataset_of_dds Demo.ds0) (clk s');
                ext := ext s' |}, []).
Proof.
  exact (clock_create_answers (E := Demo.env) None Demo.two_ifaces 2 Demo.ds0
           (Demo.boot Demo.quiet) (Demo.created Demo.quiet)
           [CSrandom; CServoCreate 512000 0 500; CMaveCreate 10 true;
            CPortOpen (Demo.eth "eth0") 1 101;
            CPortOpen (Demo.eth "eth1") 2 102;
            CPortDispatch 101 EV_INITIALIZE; CPortDispatch 102 EV_INITIALIZE]
           ltac:(vm_compute; reflexivity)).
Defined.

(** [symmetric_path_delay] on a path of 200 ns between two clocks that
    are 50 ns apart: the synchronization message leaves at 100 and
    arrives at 350, the delay request leaves at 1000 and arrives at 1150,
    and the filter is fed 200. *)
Lemma symmetric_path_delay_witness :
  let s := Demo.created Demo.quiet in
  let its := {| tv_sec := 0; tv_nsec := 350 |} in
  let ots := {| sec := 0; nsec := 100 |} in
  let req := {| tv_sec := 0; tv_nsec := 1000 |} in
  let rx := {| sec := 0; nsec := 1150 |} in
  exists s1 s2,
    clock_synchronize its ots 0 0 s = Some (tt, s1, [])
    /\ clock_path_delay req rx 0 s1 = Some (tt, s2, [CMaveAccumulate 200 200])
    /\ path_delay (clk s2) = 200.
Proof.
  cbv zeta.
  assert (Hsync : exists s1,
             clock_synchronize {| tv_sec := 0; tv_nsec := 350 |}
               {| sec := 0; nsec := 100 |} 0 0 (Demo.created Demo.quiet)
             = Some (tt, s1, []))
    by (eexists; vm_compute; reflexivity).
  destruct Hsync as (s1 & Hsync). exists s1. eexists.
  split; [exact Hsync |].
  rewrite (symmetric_path_delay (E := Demo.env)
             {| tv_sec := 0; tv_nsec := 350 |} {| sec := 0; nsec := 100 |} 0 0
             {| tv_sec := 0; tv_nsec := 1000 |} {| sec := 0; nsec := 1150 |} 0
             (Demo.created Demo.quiet) s1 [] [] 200 50 Hsync).
  - split; [reflexivity | reflexivity].
  - vm_compute. reflexivity.
  - lia.
  - vm_compute. reflexivity.
  - vm_compute. reflexivity.
Defined.

(** [first_selection_resets_filter] on the creation over two interfaces
    followed by the round over the tied candidates. *)
Lemma first_selection_resets_filter_witness :
  let s1 := Demo.created Demo.quiet in
  best (clk s1) = NULL
  /\ exists s2 tr2 m,
       handle_state_decision_event {| clk := clk s1; ext := Demo.tied |}
       = Some (tt, s2, tr2)
       /\ avg_delay (clk s1) = Some m
       /\ In CMaveReset tr2
       /\ avg_delay (clk s2) = Some (mave_reset m)
       /\ best (clk s2) = 205.
Proof.
  cbv zeta.
  destruct (first_selection_resets_filter (E := Demo.env) None Demo.two_ifaces
              2 Demo.ds0 (Demo.boot Demo.quiet) true (Demo.created Demo.quiet)
              [CSrandom; CServoCreate 512000 0 500; CMaveCreate 10 true;
               CPortOpen (Demo.eth "eth0") 1 101;
               CPortOpen (Demo.eth "eth1") 2 102;
               CPortDispatch 101 EV_INITIALIZE; CPortDispatch 102 EV_INITIALIZE]
              Demo.tied 205 (@reach_boot Demo.env Demo.quiet)
              ltac:(vm_compute; reflexivity)) as [Hb Hround].
  split; [exact Hb |].
  apply Hround; [reflexivity | vm_compute; reflexivity | discriminate].
Defined.

Lemma demo_obliging : obliging (E := Demo.env).
Proof.
  unfold obliging. cbn. repeat split; intros; try discriminate; eauto.
  unfold NULL. lia.
Qed.

(** [clock_create_port_bound] on a controller with room for two ports:
    over two interfaces the creation returns the controller, over three
    it stores the third port past the end of the port array. *)
Lemma clock_create_port_bound_witness :
  let s := Demo.boot Demo.quiet in
  (wf (clk s) /\ obliging /\ (MAX_PORTS < 3)%nat)
  /\ clock_create None Crowded.three_ifaces 3 Demo.ds0 s = None
  /\ exists s' tr,
       clock_create None Crowded.three_ifaces 2 Demo.ds0 s
       = Some (true, s', tr).
Proof.
  cbv zeta.
  assert (Hwf : wf (clk (Demo.boot Demo.quiet)))
    by (vm_compute; repeat split; lia).
  assert (Hmax : (MAX_PORTS < 3)%nat) by (vm_compute; lia).
  split; [split; [exact Hwf | split; [exact demo_obliging | exact Hmax]] |].
  split.
  - apply (clock_create_port_bound (E := Demo.env) None Crowded.three_ifaces 3
             Demo.ds0 (Demo.boot Demo.quiet) Hwf demo_obliging);
      [vm_compute; lia | exact Hmax].
  - apply (clock_create_port_bound (E := Demo.env) None Crowded.three_ifaces 2
             Demo.ds0 (Demo.boot Demo.quiet) Hwf demo_obliging);
      vm_compute; lia.
Defined.

End DemoExtras.
